(** * openclaw-wecom-kf: webhook gateway, sync loop and API client

    A shallow embedding of the TypeScript sources
    - [api.ts]     (access-token cache and its invalidation,
                    [syncMessages], [sendKfWelcomeMessage],
                    [sendKfMessage], [sendKfTextMessage],
                    [splitMessageByBytes], [buildApiUrl]),
    - [types.ts]   (the data model),
    - [webhook.ts] (registry, cursor store and its file, dedup cache,
                    [readRawBody], [pullAndDispatchMessages],
                    [handleKfEvent], [handleWecomKfWebhookRequest]),
    - [send.ts]    ([parseExternalUserId], [sendWecomKfDM]);
                   in the source tree [types.ts] and [webhook.ts] are the
                   second and third parts of the file [send.ts],
    - [config.ts]  ([resolveAccount], [resolveApiBaseUrl], the DM policy),
    - [channel.ts] ([gateway.startAccount], as far as the registry goes),
    together with the properties the specification states about them and
    further properties read off the code.
    The module [crypto.ts] that [webhook.ts] imports is not in the tree:
    [verifyWecomSignature] and [decryptWecomEncrypted] are parameters.

    Conventions of the embedding:
    - a JavaScript string is the list of its UTF-16 code units;
    - module-level [Map]s are [gmap]s, module-level [let]s are record fields
      of [World];
    - every interaction with the outside (clock, HTTP, file system, the
      dispatch collaborator) is answered by an oracle of [Env] or
      [Platform], indexed by the number of interactions made so far;
    - an [async] function is run to completion without interleaving. *)

From stdpp Require Import gmap list strings.
From Stdlib Require Import ZArith NArith Ascii Lia.

Open Scope Z_scope.

(* ================================================================== *)
(** ** JavaScript strings *)
(* ================================================================== *)

Module Js.

(** A string value: its UTF-16 code units, each below 65536. *)
Abbreviation jsstring := (list N).

(** A string literal of the source (ASCII only). *)
Definition lit (s : string) : jsstring :=
  N_of_ascii <$> String.list_ascii_of_string s.

(** [if (s)] on a string: the empty string is the only falsy one. *)
Definition truthy (s : jsstring) : bool :=
  match s with [] => false | _ :: _ => true end.

(** [if (o)] on [string | undefined]. *)
Definition truthy_opt (o : option jsstring) : bool :=
  match o with Some s => truthy s | None => false end.

(** [a || b] on [string | undefined] operands. *)
Definition or_else (a b : option jsstring) : option jsstring :=
  if truthy_opt a then a else b.

(** [a ?? b] with a string default. *)
Definition nullish (a : option jsstring) (b : jsstring) : jsstring :=
  match a with Some s => s | None => b end.

(** [a ?? b] between two optional values. *)
Definition or_nullish (a b : option jsstring) : option jsstring :=
  match a with Some _ => a | None => b end.

Definition is_high_surrogate (u : N) : bool :=
  ((0xD800 <=? u) && (u <=? 0xDBFF))%N.

Definition is_low_surrogate (u : N) : bool :=
  ((0xDC00 <=? u) && (u <=? 0xDFFF))%N.

(** [for (const char of text)]: the string iterator yields code points; a
    high surrogate followed by a low one is one character of two units, any
    other unit (a lone surrogate too) is a character of its own. *)
Fixpoint chars (s : jsstring) : list jsstring :=
  match s with
  | [] => []
  | u :: rest =>
      match rest with
      | v :: rest' =>
          if is_high_surrogate u && is_low_surrogate v
          then [u; v] :: chars rest'
          else [u] :: chars rest
      | [] => [[u]]
      end
  end.

(** Bytes one character takes in UTF-8. A lone surrogate is written as
    U+FFFD, three bytes; a surrogate pair is a code point above U+FFFF. *)
Definition utf8_len_char (c : jsstring) : Z :=
  match c with
  | [u] => if (u <? 0x80)%N then 1 else if (u <? 0x800)%N then 2 else 3
  | _ => 4
  end.

(** [Buffer.byteLength(s, "utf8")]. *)
Definition byteLength (s : jsstring) : Z :=
  foldr (λ c n, utf8_len_char c + n) 0 (chars s).

(** ECMAScript WhiteSpace and LineTerminator code units, as [trim] and
    [trimStart] strip them. *)
Definition is_whitespace (u : N) : bool :=
  ((u =? 0x09) || (u =? 0x0A) || (u =? 0x0B) || (u =? 0x0C) || (u =? 0x0D)
   || (u =? 0x20) || (u =? 0xA0) || (u =? 0x1680)
   || ((0x2000 <=? u) && (u <=? 0x200A))
   || (u =? 0x2028) || (u =? 0x2029) || (u =? 0x202F) || (u =? 0x205F)
   || (u =? 0x3000) || (u =? 0xFEFF))%N.

Fixpoint trimStart (s : jsstring) : jsstring :=
  match s with
  | u :: rest => if is_whitespace u then trimStart rest else s
  | [] => []
  end.

Definition trimEnd (s : jsstring) : jsstring := rev (trimStart (rev s)).

Definition trim (s : jsstring) : jsstring := trimEnd (trimStart s).

(** [s.startsWith(p)]. *)
Fixpoint startsWith (s p : jsstring) : bool :=
  match p, s with
  | [], _ => true
  | a :: p', b :: s' => (a =? b)%N && startsWith s' p'
  | _ :: _, [] => false
  end.

Definition endsWith (s p : jsstring) : bool := startsWith (rev s) (rev p).

(** [s.indexOf(c)] for a one-unit needle; [None] is the source's [-1]. *)
Fixpoint indexOf (s : jsstring) (c : N) : option nat :=
  match s with
  | [] => None
  | u :: rest =>
      if (u =? c)%N then Some 0%nat else S <$> indexOf rest c
  end.

End Js.
Import Js.

(* ================================================================== *)
(** ** api.ts: text helpers *)
(* ================================================================== *)

(** The loop of [splitMessageByBytes] over the characters still to come,
    with the source's two locals [chunks] and [current]. *)
Fixpoint split_loop (maxBytes : Z) (cs : list jsstring)
    (chunks : list jsstring) (current : jsstring) : list jsstring :=
  match cs with
  | [] => if truthy current then chunks ++ [current] else chunks
  | char :: cs' =>
      let next := current ++ char in
      if maxBytes <? byteLength next
      then split_loop maxBytes cs'
             (if truthy current then chunks ++ [current] else chunks) char
      else split_loop maxBytes cs' chunks next
  end.

(** [splitMessageByBytes(text, maxBytes)]. A byte count is an integer, so a
    fractional limit compares as its floor does: [maxBytes] is taken in Z. *)
Definition splitMessageByBytes (text : jsstring) (maxBytes : Z)
  : list jsstring :=
  split_loop maxBytes (chars text) [] [].

(* ================================================================== *)
(** ** types.ts: the data model *)
(* ================================================================== *)

(** [WecomKfAccountConfig]: of the merged configuration only [welcomeText]
    is read by the functions embedded here. *)
Record WecomKfAccountConfig := {
  welcomeText : option jsstring;
}.

Record ResolvedWecomKfAccount := {
  accountId : jsstring;
  token : option jsstring;
  encodingAESKey : option jsstring;
  corpId : option jsstring;
  corpSecret : option jsstring;
  openKfId : option jsstring;
  config : WecomKfAccountConfig;
}.

(** [AccessTokenCacheEntry]; its [token] field is [cached_token] here, the
    name [token] being the account's callback token. *)
Record AccessTokenCacheEntry := {
  cached_token : jsstring;
  expiresAt : Z;
}.

(** The [event] payload of a [SyncMsgEvent]. *)
Record KfEvent := {
  event_type : jsstring;
  welcome_code : option jsstring;
  fail_msgid : option jsstring;
  fail_type : option Z;
}.

(** [SyncMsgItem]: the common fields, the discriminator and the event
    payload. The payloads of content messages are handed on untouched and
    are left out. *)
Record SyncMsgItem := {
  msgid : jsstring;
  open_kfid : jsstring;
  external_userid : jsstring;
  send_time : Z;
  origin : Z;
  msgtype : jsstring;
  event : option KfEvent;
}.

(** [SyncMsgResponse]. An absent [next_cursor] reads as the empty string and
    an absent [msg_list] as the empty list: the source tests both forms with
    one condition. *)
Record SyncMsgResponse := {
  errcode : option Z;
  next_cursor : jsstring;
  has_more : Z;
  msg_list : list SyncMsgItem;
}.

(** The parameter object of [syncMessages], also the shape of the request
    body it posts. The drain never passes [voice_format], which is left
    out. *)
Record SyncParams := {
  p_cursor : option jsstring;
  p_token : option jsstring;
  p_open_kfid : option jsstring;
  p_limit : option Z;
}.

(** Reply of the credential endpoint. *)
Record TokenData := {
  token_errcode : option Z;
  access_token : option jsstring;
}.

Record WebhookTarget := {
  account : ResolvedWecomKfAccount;
  path : jsstring;
  statusSink : bool;   (* whether the optional callback is present *)
}.

Record ServerResponse := {
  statusCode : Z;
  headers : list (jsstring * jsstring);
  body : jsstring;
}.

(** What [readRawBody] resolves to. *)
Record RawBody := {
  ok : bool;
  raw : option jsstring;
  error : option jsstring;
}.

Record IncomingMessage := {
  method : option jsstring;
  url : option jsstring;
  payload : RawBody;
}.

(* ================================================================== *)
(** ** Observable effects *)
(* ================================================================== *)

Inductive LogLine :=
  | MissingCorp | NoOpenKfId | ColdStartFor (key : jsstring)
  | ColdSkipped (n : nat) | SyncFailed | DispatchFailed (id : jsstring)
  | RuntimeUnavailable | WelcomeSent (user : jsstring) | WelcomeFailed
  | MsgSendFail (id : option jsstring) (kind : option Z)
  | StatusChange (type : jsstring) | UnhandledEvent (type : jsstring)
  | EchostrDecryptFailed | CallbackDecrypted | CallbackXmlFields
  | CallbackJsonKeys | CallbackNotParsed
  | CallbackReceived (kf : option jsstring) (hasToken : bool)
  | CallbackDecryptFailed | PullFailed.

Inductive Level := LDebug | LInfo | LWarn | LError.

(** What a run does that can be observed from outside it:
    - [Log]: a line handed to the logger;
    - [HttpGetToken], [HttpSyncMsg], [HttpSendMsgOnEvent]: a request sent to
      the credential, paged-fetch and welcome-send endpoints;
    - [Call_syncMessages], [Call_handleKfEvent],
      [Call_sendKfWelcomeMessage], [Call_dispatchKfMessage]: a call of the
      function named, with its arguments;
    - [Fetched]: [syncMessages] returned this page;
    - [StatusPatch]: a call of the target's [statusSink];
    - [SaveScheduled]: [setTimeout] armed for the cursor file. *)
Inductive Effect :=
  | Log (lvl : Level) (line : LogLine)
  | HttpGetToken (corp secret : jsstring)
  | Call_syncMessages (params : SyncParams)
  | HttpSyncMsg (accessToken : jsstring) (body : SyncParams)
  | Fetched (resp : SyncMsgResponse)
  | Call_handleKfEvent (msg : SyncMsgItem)
  | Call_sendKfWelcomeMessage (code text : jsstring)
  | HttpSendMsgOnEvent (accessToken code text : jsstring)
  | Call_dispatchKfMessage (msg : SyncMsgItem)
  | StatusPatch (field : jsstring) (at_ms : Z)
  | SaveScheduled.

(* ================================================================== *)
(** ** The outside world and the module state *)
(* ================================================================== *)

(** Outcome of [await fetch(...)] followed by [await resp.json()]. *)
Inductive Reply (A : Type) :=
  | Rejected
  | Json (data : A).
Arguments Rejected {A}.
Arguments Json {A} data.

(** A parsed JSON record as the source reads it: a property name gives
    [String(value)] of a value that is neither [null] nor [undefined]. *)
Definition JsonRecord := jsstring → option jsstring.

(** The answers of everything outside the two modules. The [nat] argument
    is the number of interactions made before the one answered. *)
Record Env := {
  Date_now : nat → Z;
  (* readFile(CURSOR_FILE) and JSON.parse: the entries of the document, a
     value that is not a string being [None]; [None] when either throws *)
  read_cursor_file : nat → option (list (jsstring * option jsstring));
  fetch_gettoken : nat → jsstring → jsstring → Reply TokenData;
  fetch_sync_msg : nat → jsstring → SyncParams → Reply SyncMsgResponse;
  fetch_send_msg_on_event : nat → jsstring → jsstring → jsstring → bool;
  (* tryGetWecomKfRuntime() is not null *)
  core : bool;
  (* the dispatch collaborator: it reaches api.ts only, so it is given the
     token cache and the interaction count, and may reject *)
  run_dispatchKfMessage :
    SyncMsgItem → gmap jsstring AccessTokenCacheEntry → nat →
    gmap jsstring AccessTokenCacheEntry * nat * bool;
  (* crypto.ts *)
  verifyWecomSignature :
    jsstring → jsstring → jsstring → jsstring → jsstring → bool;
  decryptWecomEncrypted :
    jsstring → option jsstring → jsstring → option jsstring;
  (* platform parsers *)
  URLSearchParams_get : jsstring → jsstring → option jsstring;
  JSON_parse : jsstring → option JsonRecord;
  (* the two regular expressions of parseXmlBody *)
  parseXmlBody : jsstring → gmap jsstring jsstring;
}.

(** The module-level variables of webhook.ts and api.ts, and the position
    in the answers of [Env]. *)
Record World := {
  webhookTargets : gmap jsstring (list WebhookTarget);
  cursorStore : gmap jsstring jsstring;
  cursorsLoaded : bool;
  saveTimer : bool;
  processedMsgIds : gmap jsstring Z;
  accessTokenCache : gmap jsstring AccessTokenCacheEntry;
  io : nat;
}.

Definition set_webhookTargets f (w : World) : World :=
  {| webhookTargets := f (webhookTargets w); cursorStore := cursorStore w;
     cursorsLoaded := cursorsLoaded w; saveTimer := saveTimer w;
     processedMsgIds := processedMsgIds w;
     accessTokenCache := accessTokenCache w; io := io w |}.

Definition set_cursorStore f (w : World) : World :=
  {| webhookTargets := webhookTargets w; cursorStore := f (cursorStore w);
     cursorsLoaded := cursorsLoaded w; saveTimer := saveTimer w;
     processedMsgIds := processedMsgIds w;
     accessTokenCache := accessTokenCache w; io := io w |}.

Definition set_cursorsLoaded b (w : World) : World :=
  {| webhookTargets := webhookTargets w; cursorStore := cursorStore w;
     cursorsLoaded := b; saveTimer := saveTimer w;
     processedMsgIds := processedMsgIds w;
     accessTokenCache := accessTokenCache w; io := io w |}.

Definition set_saveTimer b (w : World) : World :=
  {| webhookTargets := webhookTargets w; cursorStore := cursorStore w;
     cursorsLoaded := cursorsLoaded w; saveTimer := b;
     processedMsgIds := processedMsgIds w;
     accessTokenCache := accessTokenCache w; io := io w |}.

Definition set_processedMsgIds f (w : World) : World :=
  {| webhookTargets := webhookTargets w; cursorStore := cursorStore w;
     cursorsLoaded := cursorsLoaded w; saveTimer := saveTimer w;
     processedMsgIds := f (processedMsgIds w);
     accessTokenCache := accessTokenCache w; io := io w |}.

Definition set_api (c : gmap jsstring AccessTokenCacheEntry) (n : nat)
    (w : World) : World :=
  {| webhookTargets := webhookTargets w; cursorStore := cursorStore w;
     cursorsLoaded := cursorsLoaded w; saveTimer := saveTimer w;
     processedMsgIds := processedMsgIds w;
     accessTokenCache := c; io := n |}.

(* ================================================================== *)
(** ** The monad of the embedding *)
(* ================================================================== *)

(** A call returns, throws (a rejected promise is a throw at its [await]),
    or is cut short by the bound put on the loop of the drain. *)
Inductive Res (A : Type) :=
  | Ok (a : A)
  | Throw
  | OutOfFuel.
Arguments Ok {A} a.
Arguments Throw {A}.
Arguments OutOfFuel {A}.

(** State over [World], the effects in the order they happen. *)
Definition M (A : Type) : Type := World → Res A * World * list Effect.

Definition ret {A} (a : A) : M A := λ w, (Ok a, w, []).

Definition throw {A} : M A := λ w, (Throw, w, []).

Definition bind {A B} (m : M A) (k : A → M B) : M B := λ w,
  match m w with
  | (Ok a, w1, es1) =>
      match k a w1 with (r, w2, es2) => (r, w2, es1 ++ es2) end
  | (Throw, w1, es1) => (Throw, w1, es1)
  | (OutOfFuel, w1, es1) => (OutOfFuel, w1, es1)
  end.

Notation "'let*' x ':=' m 'in' k" := (bind m (λ x, k))
  (at level 10, x pattern, m at level 100, k at level 200).

(** [try { m } catch { h }]: what [m] did before it threw stays done. *)
Definition try_catch {A} (m : M A) (h : M A) : M A := λ w,
  match m w with
  | (Throw, w1, es1) =>
      match h w1 with (r, w2, es2) => (r, w2, es1 ++ es2) end
  | other => other
  end.

Definition get {A} (f : World → A) : M A := λ w, (Ok (f w), w, []).

Definition modify (f : World → World) : M unit := λ w, (Ok tt, f w, []).

Definition emit (e : Effect) : M unit := λ w, (Ok tt, w, [e]).

(** One more interaction with the outside has been made. *)
Definition tick : M nat := λ w,
  (Ok (io w), set_api (accessTokenCache w) (S (io w)) w, []).

Definition result {A} (x : Res A * World * list Effect) : Res A := x.1.1.
Definition world {A} (x : Res A * World * list Effect) : World := x.1.2.
Definition effects {A} (x : Res A * World * list Effect) : list Effect := x.2.

Definition out_of_fuel {A} : M A := λ w, (OutOfFuel, w, []).

Definition set_accessTokenCache f (w : World) : World :=
  set_api (f (accessTokenCache w)) (io w) w.

(** The call [pullAndDispatchMessages(target, callbackToken,
    callbackOpenKfId)] the POST branch makes after it has answered. *)
Record PullCall := {
  pull_target : WebhookTarget;
  pull_callbackToken : option jsstring;
  pull_callbackOpenKfId : option jsstring;
}.

(** What a request handler run comes to: [return false], or a response
    written and [return true], with the drain it started, if any. *)
Inductive Handled :=
  | NotHandled
  | Responded (res : ServerResponse) (started : option PullCall).

Section Program.

Context (env : Env).

(** [Date.now()]. *)
Definition now : M Z := let* n := tick in ret (Date_now env n).

(* ================================================================== *)
(** ** api.ts: access token, paged fetch, welcome send *)
(* ================================================================== *)

Definition ACCESS_TOKEN_TTL_MS : Z := 7200 * 1000 - 5 * 60 * 1000.

(** [errcode !== undefined && errcode !== 0]. *)
Definition failed_errcode (c : option Z) : bool :=
  match c with Some c => negb (c =? 0) | None => false end.

Definition token_cache_key (corp : jsstring) : jsstring := corp ++ lit ":kf".

Definition getAccessToken (account : ResolvedWecomKfAccount) : M jsstring :=
  if negb (truthy_opt (corpId account)) || negb (truthy_opt (corpSecret account))
  then throw
  else
    let corp := nullish (corpId account) [] in
    let secret := nullish (corpSecret account) [] in
    let key := token_cache_key corp in
    let* cache := get accessTokenCache in
    (* cached && Date.now() < cached.expiresAt: the clock is read only
       when there is an entry *)
    let* live :=
      match cache !! key with
      | Some cached =>
          let* t := now in
          ret (if t <? expiresAt cached then Some (cached_token cached)
               else None)
      | None => ret None
      end in
    match live with
    | Some tok => ret tok
    | None =>
        let* _ := emit (HttpGetToken corp secret) in
        let* n := tick in
        match fetch_gettoken env n corp secret with
        | Rejected => throw
        | Json data =>
            if failed_errcode (token_errcode data) then throw
            else if negb (truthy_opt (access_token data)) then throw
            else
              let tok := nullish (access_token data) [] in
              let* t := now in
              let* _ := modify (set_accessTokenCache
                          <[key := {| cached_token := tok;
                                      expiresAt := t + ACCESS_TOKEN_TTL_MS |}]>) in
              ret tok
        end
    end.

(** [if (params.x) body.x = params.x]: falsy parameters are not sent. *)
Definition sync_body (params : SyncParams) : SyncParams :=
  {| p_cursor := if truthy_opt (p_cursor params) then p_cursor params else None;
     p_token := if truthy_opt (p_token params) then p_token params else None;
     p_open_kfid :=
       if truthy_opt (p_open_kfid params) then p_open_kfid params else None;
     p_limit :=
       match p_limit params with
       | Some l => if l =? 0 then None else Some l
       | None => None
       end |}.

Definition syncMessages (account : ResolvedWecomKfAccount)
    (params : SyncParams) : M SyncMsgResponse :=
  let* _ := emit (Call_syncMessages params) in
  let* accessToken := getAccessToken account in
  let body := sync_body params in
  let* _ := emit (HttpSyncMsg accessToken body) in
  let* n := tick in
  match fetch_sync_msg env n accessToken body with
  | Rejected => throw
  | Json data =>
      if failed_errcode (errcode data) then throw
      else
        let* _ := emit (Fetched data) in
        ret data
  end.

(** [sendKfWelcomeMessage(account, welcomeCode, "text", {text: {content}})];
    its result is not read by the caller. *)
Definition sendKfWelcomeMessage (account : ResolvedWecomKfAccount)
    (welcomeCode content : jsstring) : M unit :=
  let* _ := emit (Call_sendKfWelcomeMessage welcomeCode content) in
  let* accessToken := getAccessToken account in
  let* _ := emit (HttpSendMsgOnEvent accessToken welcomeCode content) in
  let* n := tick in
  if fetch_send_msg_on_event env n accessToken welcomeCode content
  then ret tt else throw.

(* ================================================================== *)
(** ** webhook.ts: cursor store and dedup cache *)
(* ================================================================== *)

Definition loadCursors : M unit :=
  let* loaded := get cursorsLoaded in
  if loaded then ret tt
  else
    let* n := tick in
    let* _ :=
      match read_cursor_file env n with
      | Some entries =>
          modify (set_cursorStore (λ store,
            foldl (λ m kv, match kv.2 with
                           | Some v => <[kv.1 := v]> m
                           | None => m
                           end) store entries))
      | None => ret tt
      end in
    modify (set_cursorsLoaded true).

(** [scheduleSaveCursors]: arms the timer unless one is pending. The timer's
    callback, which writes the file a second later, runs outside the calls
    embedded here. *)
Definition scheduleSaveCursors : M unit :=
  let* pending := get saveTimer in
  if pending then ret tt
  else
    let* _ := modify (set_saveTimer true) in
    emit SaveScheduled.

Definition getCursorKey (accountId : jsstring) (openKfId : option jsstring)
  : jsstring :=
  accountId ++ lit ":" ++ nullish openKfId (lit "all").

Definition DEDUP_TTL_MS : Z := 10 * 60 * 1000.

(** Entries with [ts < cutoff] are deleted, the others stay. *)
Definition pruneProcessedMsgIds : M unit :=
  let* t := now in
  let cutoff := t - DEDUP_TTL_MS in
  modify (set_processedMsgIds
            (filter (λ entry : jsstring * Z, cutoff ≤ entry.2))).

Definition isDuplicate (msgid : jsstring) : M bool :=
  let* seen := get processedMsgIds in
  match seen !! msgid with
  | Some _ => ret true
  | None =>
      let* t := now in
      let* _ := modify (set_processedMsgIds <[msgid := t]>) in
      ret false
  end.

(* ================================================================== *)
(** ** webhook.ts: event handling and the drain *)
(* ================================================================== *)

Definition handleKfEvent (msg : SyncMsgItem)
    (account : ResolvedWecomKfAccount) : M unit :=
  let* _ := emit (Call_handleKfEvent msg) in
  let eventType :=
    match event msg with Some e => event_type e | None => [] end in
  if decide (eventType = lit "enter_session") then
    let welcomeCode := event msg ≫= welcome_code in
    let welcomeText := trim <$> welcomeText (config account) in
    if truthy_opt welcomeCode && truthy_opt welcomeText then
      try_catch
        (let* _ := sendKfWelcomeMessage account (nullish welcomeCode [])
                     (nullish welcomeText []) in
         emit (Log LInfo (WelcomeSent (external_userid msg))))
        (emit (Log LError WelcomeFailed))
    else ret tt
  else if decide (eventType = lit "msg_send_fail") then
    emit (Log LWarn (MsgSendFail (event msg ≫= fail_msgid)
                                 (event msg ≫= fail_type)))
  else if decide (eventType = lit "servicer_status_change"
                  ∨ eventType = lit "session_status_change") then
    emit (Log LInfo (StatusChange eventType))
  else emit (Log LDebug (UnhandledEvent eventType)).

(** The call into dispatch.ts. *)
Definition dispatchKfMessage (msg : SyncMsgItem) : M unit := λ w,
  match run_dispatchKfMessage env msg (accessTokenCache w) (io w) with
  | (cache, n, rejects) =>
      (if rejects then Throw else Ok tt, set_api cache n w,
       [Call_dispatchKfMessage msg])
  end.

(** The body of the [for] loop over [resp.msg_list], past the dedup
    check: events go to the event router, the other items of customer
    origin to the dispatch collaborator. *)
Definition deliver_msg (target : WebhookTarget) (msg : SyncMsgItem) : M unit :=
  if decide (msgtype msg = lit "event") then
    handleKfEvent msg (account target)
  else if negb (origin msg =? 3) then ret tt
  else if core env then
    try_catch
      (let* _ := dispatchKfMessage msg in
       if statusSink target then
         let* t := now in
         emit (StatusPatch (lit "lastOutboundAt") t)
       else ret tt)
      (emit (Log LError (DispatchFailed (msgid msg))))
  else emit (Log LWarn RuntimeUnavailable).

(** The body of the [for] loop over [resp.msg_list]. *)
Definition process_msg (target : WebhookTarget) (msg : SyncMsgItem) : M unit :=
  let* duplicate :=
    if truthy (msgid msg) then isDuplicate (msgid msg) else ret false in
  if duplicate then ret tt else deliver_msg target msg.

Fixpoint process_msgs (target : WebhookTarget) (msgs : list SyncMsgItem)
  : M unit :=
  match msgs with
  | [] => ret tt
  | msg :: rest =>
      let* _ := process_msg target msg in
      process_msgs target rest
  end.

(** The [syncParams] object of one pass: the cursor when there is one,
    else the callback token when there is one. *)
Definition build_sync_params (callbackToken effectiveOpenKfId : option jsstring)
    (cursor : jsstring) : SyncParams :=
  {| p_cursor := if truthy cursor then Some cursor else None;
     p_token := if truthy cursor then None
                else if truthy_opt callbackToken then callbackToken
                else None;
     p_open_kfid := effectiveOpenKfId;
     p_limit := Some 1000 |}.

(** [if (resp.next_cursor) { cursorStore.set(...); cursor = ...;
    scheduleSaveCursors(); }]: the new value of the local [cursor]. *)
Definition record_next_cursor (cursorKey : jsstring) (resp : SyncMsgResponse)
    (cursor : jsstring) : M jsstring :=
  if truthy (next_cursor resp) then
    let* _ := modify (set_cursorStore <[cursorKey := next_cursor resp]>) in
    let* _ := scheduleSaveCursors in
    ret (next_cursor resp)
  else ret cursor.

(** One pass through the body of [while (hasMore)]: the new values of the
    locals [cursor] and [hasMore]. After the [catch] the loop ends, so the
    value of [cursor] is no longer read. *)
Definition drain_iteration (target : WebhookTarget)
    (callbackToken : option jsstring) (effectiveOpenKfId : option jsstring)
    (cursorKey : jsstring) (isColdStart : bool) (cursor : jsstring)
  : M (jsstring * bool) :=
  try_catch
    (let syncParams :=
       build_sync_params callbackToken effectiveOpenKfId cursor in
     let* resp := syncMessages (account target) syncParams in
     let* cursor' := record_next_cursor cursorKey resp cursor in
     let hasMore := has_more resp =? 1 in
     match msg_list resp with
     | [] => ret (cursor', false)
     | _ :: _ =>
         if isColdStart then
           let* _ := emit (Log LInfo (ColdSkipped (length (msg_list resp)))) in
           ret (cursor', hasMore)
         else
           let* _ := process_msgs target (msg_list resp) in
           ret (cursor', hasMore)
     end)
    (let* _ := emit (Log LError SyncFailed) in
     ret (cursor, false)).

(** [while (hasMore) { ... }], entered with [hasMore = true]. Nothing bounds
    the number of pages the upstream may announce, so the loop is given
    [fuel] passes. *)
Fixpoint drain_loop (fuel : nat) (target : WebhookTarget)
    (callbackToken effectiveOpenKfId : option jsstring)
    (cursorKey : jsstring) (isColdStart : bool) (cursor : jsstring) : M unit :=
  match fuel with
  | O => out_of_fuel
  | S fuel' =>
      let* next := drain_iteration target callbackToken effectiveOpenKfId
                     cursorKey isColdStart cursor in
      if next.2
      then drain_loop fuel' target callbackToken effectiveOpenKfId
             cursorKey isColdStart next.1
      else ret tt
  end.

Definition pullAndDispatchMessages (fuel : nat) (target : WebhookTarget)
    (callbackToken callbackOpenKfId : option jsstring) : M unit :=
  let account := account target in
  if negb (truthy_opt (corpId account)) || negb (truthy_opt (corpSecret account))
  then emit (Log LWarn MissingCorp)
  else
    let* _ := pruneProcessedMsgIds in
    let effectiveOpenKfId := or_else (openKfId account) callbackOpenKfId in
    if negb (truthy_opt effectiveOpenKfId) then emit (Log LWarn NoOpenKfId)
    else
      let* _ := loadCursors in
      let cursorKey := getCursorKey (accountId account) effectiveOpenKfId in
      let* store := get cursorStore in
      let cursor := nullish (store !! cursorKey) [] in
      let isColdStart := negb (truthy cursor) in
      let* _ := if isColdStart then emit (Log LInfo (ColdStartFor cursorKey))
                else ret tt in
      drain_loop fuel target callbackToken effectiveOpenKfId cursorKey
        isColdStart cursor.

(* ================================================================== *)
(** ** webhook.ts: target registry and the HTTP handler *)
(* ================================================================== *)

Definition normalizeWebhookPath (raw : jsstring) : jsstring :=
  let trimmed := trim raw in
  if negb (truthy trimmed) then lit "/"
  else
    let withSlash :=
      if startsWith trimmed (lit "/") then trimmed else lit "/" ++ trimmed in
    if (1 <? length withSlash)%nat && endsWith withSlash (lit "/")
    then removelast withSlash
    else withSlash.

(** [registerWebhookTarget], without the unregister closure it returns. *)
Definition registerWebhookTarget (target : WebhookTarget) : M unit :=
  let key := normalizeWebhookPath (path target) in
  let normalizedTarget :=
    {| account := account target; path := key;
       statusSink := statusSink target |} in
  modify (set_webhookTargets (λ reg,
    <[key := default [] (reg !! key) ++ [normalizedTarget]]> reg)).

Definition question_mark : N := 63%N.

Definition resolvePath (req : IncomingMessage) : jsstring :=
  let raw := nullish (url req) (lit "/") in
  normalizeWebhookPath
    match indexOf raw question_mark with
    | Some qIdx => take qIdx raw
    | None => raw
    end.

(** The text [resolveQueryParams] hands to [URLSearchParams]. *)
Definition query_string (req : IncomingMessage) : jsstring :=
  let raw := nullish (url req) (lit "/") in
  match indexOf raw question_mark with
  | Some qIdx => drop (S qIdx) raw
  | None => []
  end.

Definition isXmlFormat (raw : jsstring) : bool :=
  startsWith (trimStart raw) (lit "<").

Definition respond (status : Z) (hdrs : list (jsstring * jsstring))
    (text : jsstring) (started : option PullCall) : M Handled :=
  ret (Responded {| statusCode := status; headers := hdrs; body := text |}
         started).

Definition text_plain : list (jsstring * jsstring) :=
  [(lit "Content-Type", lit "text/plain; charset=utf-8")].

(** [targets.filter(t => t.account.token && verifyWecomSignature(...))]. *)
Definition signature_matches (timestamp nonce encrypt signature : jsstring)
    (targets : list WebhookTarget) : list WebhookTarget :=
  List.filter
    (λ t, if truthy_opt (token (account t))
          then verifyWecomSignature env (nullish (token (account t)) [])
                 timestamp nonce encrypt signature
          else false)
    targets.

(** [query.get(name)] on the parameters of the request. *)
Definition query_get (req : IncomingMessage) (name : jsstring)
  : option jsstring :=
  URLSearchParams_get env (query_string req) name.

Definition q_timestamp (req : IncomingMessage) : jsstring :=
  nullish (query_get req (lit "timestamp")) [].

Definition q_nonce (req : IncomingMessage) : jsstring :=
  nullish (query_get req (lit "nonce")) [].

Definition q_signature (req : IncomingMessage) : jsstring :=
  nullish (or_nullish (query_get req (lit "msg_signature"))
                      (query_get req (lit "signature"))) [].

Definition q_echostr (req : IncomingMessage) : jsstring :=
  nullish (query_get req (lit "echostr")) [].

(** The GET branch: URL verification. *)
Definition handle_get (targets : list WebhookTarget)
    (req : IncomingMessage)
    (timestamp nonce signature : jsstring) : M Handled :=
  let echostr := q_echostr req in
  if negb (truthy timestamp) || negb (truthy nonce)
     || negb (truthy signature) || negb (truthy echostr)
  then respond 400 [] (lit "missing query params") None
  else
    match signature_matches timestamp nonce echostr signature targets with
    | [] => respond 401 [] (lit "unauthorized") None
    | target :: _ =>
        if negb (truthy_opt (encodingAESKey (account target)))
        then respond 401 [] (lit "unauthorized") None
        else
          match decryptWecomEncrypted env
                  (nullish (encodingAESKey (account target)) [])
                  (corpId (account target)) echostr with
          | Some plaintext => respond 200 text_plain plaintext None
          | None =>
              let* _ := emit (Log LError EchostrDecryptFailed) in
              respond 400 [] (lit "decrypt failed") None
          end
    end.

(** The part of the POST branch that runs after the response is written:
    the callback token and channel-instance id read from the envelope. *)
Definition read_callback (target : WebhookTarget) (encrypt : jsstring)
  : M (option jsstring * option jsstring) :=
  if truthy_opt (encodingAESKey (account target)) then
    match decryptWecomEncrypted env
            (nullish (encodingAESKey (account target)) [])
            (corpId (account target)) encrypt with
    | Some plaintext =>
        let* _ := emit (Log LDebug CallbackDecrypted) in
        let* fields :=
          if isXmlFormat plaintext then
            let xmlData := parseXmlBody env plaintext in
            let* _ := emit (Log LDebug CallbackXmlFields) in
            ret (xmlData !! lit "Token", xmlData !! lit "OpenKfId")
          else
            match JSON_parse env plaintext with
            | Some jsonData =>
                let* _ := emit (Log LDebug CallbackJsonKeys) in
                ret (Some (nullish (or_nullish (jsonData (lit "Token"))
                                               (jsonData (lit "token"))) []),
                     Some (nullish (or_nullish (jsonData (lit "OpenKfId"))
                                               (jsonData (lit "open_kfid"))) []))
            | None =>
                let* _ := emit (Log LWarn CallbackNotParsed) in
                ret (None, None)
            end in
        (* empty strings are treated as undefined *)
        let callbackToken := if truthy_opt fields.1 then fields.1 else None in
        let callbackOpenKfId := if truthy_opt fields.2 then fields.2 else None in
        let* _ := emit (Log LInfo (CallbackReceived callbackOpenKfId
                                     (truthy_opt callbackToken))) in
        ret (callbackToken, callbackOpenKfId)
    | None =>
        let* _ := emit (Log LError CallbackDecryptFailed) in
        ret (None, None)
    end
  else ret (None, None).

(** The [encrypt] field and the signature triple the POST branch reads from
    the body: XML fields override the query values, JSON carries only
    [encrypt]. [None] is the [catch] around [JSON.parse]. *)
Definition parse_post_body (rawBody signature timestamp nonce : jsstring)
  : option (jsstring * jsstring * jsstring * jsstring) :=
  if isXmlFormat rawBody then
    let xmlData := parseXmlBody env rawBody in
    Some (nullish (xmlData !! lit "Encrypt") [],
          nullish (xmlData !! lit "MsgSignature") signature,
          nullish (xmlData !! lit "TimeStamp") timestamp,
          nullish (xmlData !! lit "Nonce") nonce)
  else
    match JSON_parse env rawBody with
    | Some record =>
        Some (nullish (or_nullish (record (lit "encrypt"))
                                  (record (lit "Encrypt"))) [],
              signature, timestamp, nonce)
    | None => None
    end.

(** The POST branch: event callback. *)
Definition handle_post (targets : list WebhookTarget)
    (req : IncomingMessage) (timestamp nonce signature : jsstring)
  : M Handled :=
  if negb (truthy timestamp) || negb (truthy nonce) || negb (truthy signature)
  then respond 400 [] (lit "missing query params") None
  else
    let body := payload req in
    if negb (ok body) || negb (truthy_opt (raw body)) then
      respond
        (if decide (error body = Some (lit "payload too large"))
         then 413 else 400)
        [] (nullish (error body) (lit "invalid payload")) None
    else
      let rawBody := nullish (raw body) [] in
      match parse_post_body rawBody signature timestamp nonce with
      | None => respond 400 [] (lit "invalid payload format") None
      | Some (encrypt, msgSignature, msgTimestamp, msgNonce) =>
          if negb (truthy encrypt) then
            respond 400 [] (lit "missing encrypt") None
          else
            match signature_matches msgTimestamp msgNonce encrypt
                    msgSignature targets with
            | [] => respond 401 [] (lit "unauthorized") None
            | target :: _ =>
                (* the response is written here, before what follows *)
                let* callback := read_callback target encrypt in
                let* _ :=
                  if statusSink target then
                    let* t := now in
                    emit (StatusPatch (lit "lastInboundAt") t)
                  else ret tt in
                respond 200 text_plain (lit "success")
                  (Some {| pull_target := target;
                           pull_callbackToken := callback.1;
                           pull_callbackOpenKfId := callback.2 |})
            end
      end.

Definition handleWecomKfWebhookRequest (req : IncomingMessage) : M Handled :=
  let* registry := get webhookTargets in
  match registry !! resolvePath req with
  | None | Some [] => ret NotHandled
  | Some targets =>
      let timestamp := q_timestamp req in
      let nonce := q_nonce req in
      let signature := q_signature req in
      if decide (method req = Some (lit "GET")) then
        handle_get targets req timestamp nonce signature
      else if negb (bool_decide (method req = Some (lit "POST"))) then
        respond 405 [(lit "Allow", lit "GET, POST")]
          (lit "Method Not Allowed") None
      else handle_post targets req timestamp nonce signature
  end.

(** A request from arrival to the end of the drain it started:
    [pullAndDispatchMessages(...).catch(log)]. *)
Definition serve (fuel : nat) (req : IncomingMessage) : M Handled :=
  let* handled := handleWecomKfWebhookRequest req in
  match handled with
  | Responded _ (Some call) =>
      let* _ :=
        try_catch
          (pullAndDispatchMessages fuel (pull_target call)
             (pull_callbackToken call) (pull_callbackOpenKfId call))
          (emit (Log LError PullFailed)) in
      ret handled
  | _ => ret handled
  end.

End Program.

(* ================================================================== *)
(** ** Reading a trace of effects *)
(* ================================================================== *)

(** The effects of a trace that [pick] selects, in order. *)
Fixpoint collect {X} (pick : Effect → option X) (es : list Effect) : list X :=
  match es with
  | [] => []
  | e :: es' =>
      match pick e with
      | Some x => x :: collect pick es'
      | None => collect pick es'
      end
  end.

Definition as_fetched (e : Effect) : option SyncMsgResponse :=
  match e with Fetched resp => Some resp | _ => None end.

Definition as_sync_call (e : Effect) : option SyncParams :=
  match e with Call_syncMessages p => Some p | _ => None end.

Definition as_token_fetch (e : Effect) : option (jsstring * jsstring) :=
  match e with HttpGetToken c s => Some (c, s) | _ => None end.

Definition as_welcome_call (e : Effect) : option (jsstring * jsstring) :=
  match e with Call_sendKfWelcomeMessage c t => Some (c, t) | _ => None end.

Definition as_dispatched (e : Effect) : option SyncMsgItem :=
  match e with Call_dispatchKfMessage m => Some m | _ => None end.

Definition as_delivered (e : Effect) : option SyncMsgItem :=
  match e with
  | Call_handleKfEvent m | Call_dispatchKfMessage m => Some m
  | _ => None
  end.

(** The pages [syncMessages] returned, in order. *)
Abbreviation fetched := (collect as_fetched).

(** The calls of [syncMessages], by their parameters. *)
Abbreviation sync_calls := (collect as_sync_call).

(** The calls of the credential endpoint. *)
Abbreviation token_fetches := (collect as_token_fetch).

(** The calls of [sendKfWelcomeMessage]: the code and the text. *)
Abbreviation welcome_calls := (collect as_welcome_call).

(** The items handed to the dispatch collaborator. *)
Abbreviation dispatched := (collect as_dispatched).

(** The items handed on, to the event router or to the dispatch
    collaborator. *)
Abbreviation delivered := (collect as_delivered).

(** How many items with message id [id] were handed on. *)
Definition deliveries_of (id : jsstring) (es : list Effect) : nat :=
  length (filter (λ m, msgid m = id) (delivered es)).

(** The cursor a page leaves in the store: its [next_cursor] when that is
    not empty, else the one stored before. *)
Definition advance (stored : option jsstring) (resp : SyncMsgResponse)
  : option jsstring :=
  if truthy (next_cursor resp) then Some (next_cursor resp) else stored.

(** The cursor the drain finds for [key]: [pruneProcessedMsgIds] and
    [loadCursors] run before the store is read. *)
Definition cursor_on_entry (env : Env) (w : World) (key : jsstring)
  : option jsstring :=
  cursorStore
    (world ((let* _ := pruneProcessedMsgIds env in loadCursors env) w))
  !! key.

(** The ways a paged fetch fails: no access token is to be had, the HTTP
    exchange throws, or the reply carries a result code other than 0. *)
Definition fetch_fails (env : Env) (account : ResolvedWecomKfAccount)
    (params : SyncParams) (w : World) : Prop :=
  match result (getAccessToken env account w) with
  | Ok accessToken =>
      match fetch_sync_msg env (io (world (getAccessToken env account w)))
              accessToken (sync_body params) with
      | Rejected => True
      | Json data => ∃ code, errcode data = Some code ∧ code ≠ 0
      end
  | _ => True
  end.

(** Classes of effects, by where they can come from. *)
Definition token_kind (e : Effect) : bool :=
  match e with HttpGetToken _ _ => true | _ => false end.

Definition sync_kind (e : Effect) : bool :=
  match e with
  | HttpGetToken _ _ | Call_syncMessages _ | HttpSyncMsg _ _ | Fetched _ => true
  | _ => false
  end.

Definition event_kind (e : Effect) : bool :=
  match e with
  | HttpGetToken _ _ | Call_sendKfWelcomeMessage _ _
  | HttpSendMsgOnEvent _ _ _ | Log _ _ => true
  | _ => false
  end.

(** A dispatch, if it is one, is of an item of customer origin that is not
    an event. *)
Definition customer_only (e : Effect) : bool :=
  match e with
  | Call_dispatchKfMessage m =>
      bool_decide (origin m = 3 ∧ msgtype m ≠ lit "event")
  | _ => true
  end.

Definition save_kind (e : Effect) : bool :=
  match e with SaveScheduled => true | _ => false end.

(** What the drain emits outside the loop over the items of a page. *)
Definition pump_kind (e : Effect) : bool :=
  match e with
  | HttpGetToken _ _ | Call_syncMessages _ | HttpSyncMsg _ _ | Fetched _
  | Log _ _ | SaveScheduled => true
  | _ => false
  end.

(** What the loop over the items of a page emits. *)
Definition item_kind (e : Effect) : bool :=
  match e with
  | Call_syncMessages _ | HttpSyncMsg _ _ | Fetched _ | SaveScheduled => false
  | _ => true
  end.

(** The module state of webhook.ts other than the dedup cache. *)
Definition same_cursors (w w' : World) : Prop :=
  webhookTargets w' = webhookTargets w ∧ cursorStore w' = cursorStore w
  ∧ cursorsLoaded w' = cursorsLoaded w ∧ saveTimer w' = saveTimer w.

(** A transition relation that composes along a run. *)
Record Invariant (R : World → World → list Effect → Prop) : Prop := {
  inv_refl : ∀ w, R w w [];
  inv_trans : ∀ w w1 w2 es1 es2,
    R w w1 es1 → R w1 w2 es2 → R w w2 (es1 ++ es2);
}.

(** Every run of [m] is a transition of [R], however it ends. *)
Definition keeps {A} (R : World → World → list Effect → Prop) (m : M A)
  : Prop :=
  ∀ w, R w (world (m w)) (effects (m w)).

(** [m] neither throws nor runs out of fuel. *)
Definition returns {A} (m : M A) : Prop :=
  ∀ w, ∃ a, result (m w) = Ok a.

(** [m] does not run out of fuel. *)
Definition fuel_free {A} (m : M A) : Prop :=
  ∀ w, result (m w) ≠ OutOfFuel.

(** A step that emits only effects of class [cls] and leaves the module
    state of webhook.ts alone. *)
Definition api_step (cls : Effect → bool) (w w' : World) (es : list Effect)
  : Prop :=
  Forall (λ e, cls e = true) es
  ∧ same_cursors w w' ∧ processedMsgIds w' = processedMsgIds w.

(** A step that emits only effects of class [cls] and leaves the cursor
    store alone. *)
Definition item_step (cls : Effect → bool) (w w' : World) (es : list Effect)
  : Prop :=
  Forall (λ e, cls e = true) es ∧ same_cursors w w'.

(** The cursor stored under [key] follows the pages fetched. *)
Definition cursor_follows (key : jsstring) (w w' : World) (es : list Effect)
  : Prop :=
  cursorStore w' !! key = foldl advance (cursorStore w !! key) (fetched es).

(** Along a run the dedup cache only grows, an item with a non-empty id
    that is handed on was not in the cache before and is in it afterwards,
    and no non-empty id is handed on twice. *)
Definition dedup_step (w w' : World) (es : list Effect) : Prop :=
  (∀ id, is_Some (processedMsgIds w !! id) →
         is_Some (processedMsgIds w' !! id))
  ∧ ∀ id, id ≠ [] →
      (deliveries_of id es ≤ 1)%nat
      ∧ ((0 < deliveries_of id es)%nat →
         processedMsgIds w !! id = None ∧ is_Some (processedMsgIds w' !! id)).

(* ================================================================== *)
(** ** config.ts: account resolution *)
(* ================================================================== *)

(** [WecomKfAccountConfig] as the configuration file gives it, without
    [inboundMedia]: a property that is not there is [None], one that is
    there has a value of its declared type. *)
Record AccountSettings := {
  cfg_name : option jsstring;
  cfg_enabled : option bool;
  cfg_webhookPath : option jsstring;
  cfg_token : option jsstring;
  cfg_encodingAESKey : option jsstring;
  cfg_corpId : option jsstring;
  cfg_corpSecret : option jsstring;
  cfg_openKfId : option jsstring;
  cfg_apiBaseUrl : option jsstring;
  cfg_welcomeText : option jsstring;
  cfg_dmPolicy : option jsstring;
  cfg_allowFrom : option (list jsstring);
}.

(** [WecomKfConfig]: the top-level settings, the per-account ones and the
    default account. *)
Record WecomKfConfig := {
  top_level : AccountSettings;
  accounts : option (gmap jsstring AccountSettings);
  defaultAccount : option jsstring;
}.

(** [cfg.channels?.["wecom-kf"]] of a [PluginConfig]. *)
Abbreviation PluginConfig := (option WecomKfConfig).

(** The variables of [process.env] that [resolveAccount] reads. *)
Record ProcessEnv := {
  WECOM_KF_CORP_ID : option jsstring;
  WECOM_KF_CORP_SECRET : option jsstring;
  WECOM_KF_OPEN_KF_ID : option jsstring;
  WECOM_KF_TOKEN : option jsstring;
  WECOM_KF_ENCODING_AES_KEY : option jsstring;
}.

(** [ResolvedWecomKfAccount] in full: the fields of the record of that
    name above, the flags and the merged settings. *)
Record Resolved := {
  resolved_account : ResolvedWecomKfAccount;
  resolved_name : option jsstring;
  enabled : bool;
  configured : bool;
  canSendActive : bool;
  merged_config : AccountSettings;
}.

Definition DEFAULT_ACCOUNT_ID : jsstring := lit "default".

(** [a ?? b]. *)
Definition prefer {A} (a b : option A) : option A :=
  match a with Some _ => a | None => b end.

(** [{ ...topLevel, ...perAccount }]. *)
Definition spread (topLevel perAccount : AccountSettings) : AccountSettings :=
  {| cfg_name := prefer (cfg_name perAccount) (cfg_name topLevel);
     cfg_enabled := prefer (cfg_enabled perAccount) (cfg_enabled topLevel);
     cfg_webhookPath :=
       prefer (cfg_webhookPath perAccount) (cfg_webhookPath topLevel);
     cfg_token := prefer (cfg_token perAccount) (cfg_token topLevel);
     cfg_encodingAESKey :=
       prefer (cfg_encodingAESKey perAccount) (cfg_encodingAESKey topLevel);
     cfg_corpId := prefer (cfg_corpId perAccount) (cfg_corpId topLevel);
     cfg_corpSecret :=
       prefer (cfg_corpSecret perAccount) (cfg_corpSecret topLevel);
     cfg_openKfId := prefer (cfg_openKfId perAccount) (cfg_openKfId topLevel);
     cfg_apiBaseUrl :=
       prefer (cfg_apiBaseUrl perAccount) (cfg_apiBaseUrl topLevel);
     cfg_welcomeText :=
       prefer (cfg_welcomeText perAccount) (cfg_welcomeText topLevel);
     cfg_dmPolicy := prefer (cfg_dmPolicy perAccount) (cfg_dmPolicy topLevel);
     cfg_allowFrom :=
       prefer (cfg_allowFrom perAccount) (cfg_allowFrom topLevel) |}.

(** The object [{}]. *)
Definition no_settings : AccountSettings :=
  {| cfg_name := None; cfg_enabled := None; cfg_webhookPath := None;
     cfg_token := None; cfg_encodingAESKey := None; cfg_corpId := None;
     cfg_corpSecret := None; cfg_openKfId := None; cfg_apiBaseUrl := None;
     cfg_welcomeText := None; cfg_dmPolicy := None; cfg_allowFrom := None |}.

Definition resolveDefaultAccountId (cfg : PluginConfig) : jsstring :=
  let named := trim <$> (cfg ≫= defaultAccount) in
  if truthy_opt named then nullish named [] else DEFAULT_ACCOUNT_ID.

(** [merged.x?.trim() || (isDefault ? process.env.X?.trim() : undefined)
    || undefined]. *)
Definition credential (isDefault : bool) (written fallback : option jsstring)
  : option jsstring :=
  or_else
    (or_else (trim <$> written) (if isDefault then trim <$> fallback else None))
    None.

Definition resolveAccount (penv : ProcessEnv) (cfg : PluginConfig)
    (accountId_arg : option jsstring) : Resolved :=
  let id :=
    if truthy_opt (trim <$> accountId_arg)
    then nullish (trim <$> accountId_arg) []
    else resolveDefaultAccountId cfg in
  let isDefault := bool_decide (id = DEFAULT_ACCOUNT_ID) in
  let topLevel := default no_settings (top_level <$> cfg) in
  let perAccount :=
    match cfg ≫= accounts with
    | Some accs => default no_settings (accs !! id)
    | None => no_settings
    end in
  let merged := spread topLevel perAccount in
  let corpId := credential isDefault (cfg_corpId merged) (WECOM_KF_CORP_ID penv) in
  let corpSecret :=
    credential isDefault (cfg_corpSecret merged) (WECOM_KF_CORP_SECRET penv) in
  let openKfId :=
    credential isDefault (cfg_openKfId merged) (WECOM_KF_OPEN_KF_ID penv) in
  let token := credential isDefault (cfg_token merged) (WECOM_KF_TOKEN penv) in
  let encodingAESKey :=
    credential isDefault (cfg_encodingAESKey merged)
      (WECOM_KF_ENCODING_AES_KEY penv) in
  {| resolved_account :=
       {| accountId := id; token := token; encodingAESKey := encodingAESKey;
          corpId := corpId; corpSecret := corpSecret; openKfId := openKfId;
          config := {| welcomeText := cfg_welcomeText merged |} |};
     resolved_name := cfg_name merged;
     enabled := negb (bool_decide (cfg_enabled merged = Some false));
     configured :=
       truthy_opt token && truthy_opt encodingAESKey && truthy_opt corpId
       && truthy_opt corpSecret && truthy_opt openKfId;
     canSendActive :=
       truthy_opt corpId && truthy_opt corpSecret && truthy_opt openKfId;
     merged_config := merged |}.

(* ================================================================== *)
(** ** channel.ts: the registry as the plugin builds it *)
(* ================================================================== *)

(** The closure [registerWebhookTarget] returns, for a target filed under
    [key] that stands at position [i] of the list there when the closure
    is called; the closure of a target that is no longer in the list, like
    a position past the end, removes nothing. *)
Definition unregister (key : jsstring) (i : nat) : M unit :=
  modify (set_webhookTargets (λ reg,
    match delete i (default [] (reg !! key)) with
    | [] => delete key reg
    | updated => <[key := updated]> reg
    end)).

(** [gateway.startAccount], as far as the registry goes: the status
    reports, the log lines and the runtime hand-over are left out, and the
    closure of an earlier start of the same account, which the source calls
    after the registration, is a step of its own ([unregister]). *)
Definition startAccount (penv : ProcessEnv) (cfg : PluginConfig)
    (ctx_accountId : jsstring) : M unit :=
  let account := resolveAccount penv cfg (Some ctx_accountId) in
  if negb (configured account) then ret tt
  else
    let path :=
      trim (nullish (cfg_webhookPath (merged_config account))
              (lit "/wecom-kf")) in
    registerWebhookTarget
      {| account := resolved_account account; path := path;
         statusSink := true |}.

(** The registries the plugin can hold. [webhookTargets] starts empty;
    [registerWebhookTarget] is called by [startAccount] only and is not
    exported by the plugin entry; the closures it returns are called by
    [startAccount] and [stopAccount]; nothing else writes the map. *)
Inductive plugin_registry : gmap jsstring (list WebhookTarget) → Prop :=
  | registry_initial : plugin_registry ∅
  | registry_start penv cfg ctx_accountId w :
      plugin_registry (webhookTargets w) →
      plugin_registry
        (webhookTargets (world (startAccount penv cfg ctx_accountId w)))
  | registry_unregister key i w :
      plugin_registry (webhookTargets w) →
      plugin_registry (webhookTargets (world (unregister key i w))).

(** A target whose account has its five credentials, as [configured]
    requires. *)
Definition target_configured (t : WebhookTarget) : Prop :=
  truthy_opt (token (account t)) = true
  ∧ truthy_opt (encodingAESKey (account t)) = true
  ∧ truthy_opt (corpId (account t)) = true
  ∧ truthy_opt (corpSecret (account t)) = true
  ∧ truthy_opt (openKfId (account t)) = true.

(* ================================================================== *)
(** ** config.ts: API base URL and DM policy *)
(* ================================================================== *)

Definition DEFAULT_API_BASE_URL : jsstring := lit "https://qyapi.weixin.qq.com".

Definition slash : N := 47%N.

Fixpoint skip_slashes (s : jsstring) : jsstring :=
  match s with
  | u :: rest => if (u =? slash)%N then skip_slashes rest else s
  | [] => []
  end.

(** [raw.replace(/\/+$/, "")]: the slashes the string ends with go. *)
Definition strip_trailing_slashes (raw : jsstring) : jsstring :=
  rev (skip_slashes (rev raw)).

Definition resolveApiBaseUrl (config : AccountSettings) : jsstring :=
  let raw := trim (nullish (cfg_apiBaseUrl config) []) in
  if negb (truthy raw) then DEFAULT_API_BASE_URL
  else strip_trailing_slashes raw.

(** api.ts [buildApiUrl], on the settings of the account. *)
Definition buildApiUrl (config : AccountSettings) (pathWithQuery : jsstring)
  : jsstring :=
  let normalizedPath :=
    if startsWith pathWithQuery (lit "/") then pathWithQuery
    else lit "/" ++ pathWithQuery in
  resolveApiBaseUrl config ++ normalizedPath.

Definition resolveDmPolicy (config : AccountSettings) : jsstring :=
  nullish (cfg_dmPolicy config) (lit "open").

Definition resolveAllowFrom (config : AccountSettings) : list jsstring :=
  default [] (cfg_allowFrom config).

Record DmDecision := {
  allowed : bool;
  reason : option jsstring;
}.

Definition checkDmPolicy (dmPolicy senderId : jsstring)
    (allowFrom : option (list jsstring)) : DmDecision :=
  let allowFrom := default [] allowFrom in
  if decide (dmPolicy = lit "open") then {| allowed := true; reason := None |}
  else if decide (dmPolicy = lit "pairing") then
    {| allowed := true; reason := None |}
  else if decide (dmPolicy = lit "allowlist") then
    if bool_decide (senderId ∈ allowFrom) then
      {| allowed := true; reason := None |}
    else
      {| allowed := false;
         reason := Some (lit "sender " ++ senderId
                         ++ lit " not in DM allowlist") |}
  else if decide (dmPolicy = lit "disabled") then
    {| allowed := false; reason := Some (lit "DM disabled") |}
  else {| allowed := true; reason := None |}.

(** The policy check [dispatchKfMessage] opens with. *)
Definition dispatch_allowed (config : AccountSettings) (msg : SyncMsgItem)
  : DmDecision :=
  checkDmPolicy (resolveDmPolicy config) (external_userid msg)
    (Some (resolveAllowFrom config)).

(* ================================================================== *)
(** ** api.ts: cache invalidation and outbound messages *)
(* ================================================================== *)

(** [KfSendMsgParams]: the common fields; [send_content] is [text.content]
    of a text message and [image.media_id] of an image. *)
Record KfSendMsgParams := {
  touser : jsstring;
  send_open_kfid : jsstring;
  send_msgtype : jsstring;
  send_content : jsstring;
}.

(** [KfSendMsgResult] as [resp.json()] gives it: a field the reply lacks is
    [None]. *)
Record KfSendMsgResult := {
  send_errcode : option Z;
  send_errmsg : option jsstring;
  send_msgid : option jsstring;
}.

(** send.ts [SendMessageOptions] and [SendResult]. *)
Record SendMessageOptions := {
  opt_text : option jsstring;
  opt_mediaPath : option jsstring;
  opt_openKfId : option jsstring;
}.

Record SendResult := {
  sent_ok : bool;
  sent_msgid : option jsstring;
  sent_error : option jsstring;
}.

(** [Effect] has no constructor for a request to the send endpoint: the
    functions that send return the requests they made, in order, beside
    their outcome. *)
Record Posted (A : Type) := {
  posts : list KfSendMsgParams;
  outcome : A;
}.
Arguments posts {A} _.
Arguments outcome {A} _.

(** One event of the request stream [readRawBody] listens to. *)
Inductive StreamEvent :=
  | OnData (chunk : list Byte.byte)
  | OnEnd
  | OnError (message : jsstring).

(** What the functions below need from outside beyond [Env]. *)
Record Platform := {
  (* api.ts stripMarkdown, a chain of regular-expression replacements *)
  stripMarkdown : jsstring → jsstring;
  (* POST /cgi-bin/kf/send_msg and resp.json() *)
  fetch_send_msg : nat → jsstring → KfSendMsgParams → Reply KfSendMsgResult;
  (* err.message, or String(err), of what was thrown before interaction n *)
  error_message : nat → jsstring;
  (* the media branch of sendWecomKfDM with its try/catch: download or file
     read, uploadMedia, sendKfMessage. It reaches api.ts only and ends in
     one SendResult. Arguments: account, user id, open_kfid, media path. *)
  run_media_branch :
    ResolvedWecomKfAccount → jsstring → jsstring → jsstring →
    gmap jsstring AccessTokenCacheEntry → nat →
    gmap jsstring AccessTokenCacheEntry * nat * SendResult;
  (* mkdir and writeFile of the cursor file: whether both succeed *)
  write_cursor_file : nat → list (jsstring * option jsstring) → bool;
  (* Buffer.toString("utf8") *)
  utf8_toString : list Byte.byte → jsstring;
}.

Section Outbound.

Context (env : Env) (sys : Platform).

(** The key is a template literal: an absent [corpId] prints as
    ["undefined"]. *)
Definition clearAccessTokenCache (account : ResolvedWecomKfAccount) : M unit :=
  modify (set_accessTokenCache
            (delete (token_cache_key
                       (nullish (corpId account) (lit "undefined"))))).

Definition clearAllAccessTokenCache : M unit :=
  modify (set_accessTokenCache (λ _, ∅)).

Definition sendKfMessage (account : ResolvedWecomKfAccount)
    (params : KfSendMsgParams) : M KfSendMsgResult :=
  let* accessToken := getAccessToken env account in
  let* n := tick in
  match fetch_send_msg sys n accessToken params with
  | Rejected => throw
  | Json data => ret data
  end.

(** A call with the way it ended as a value. *)
Definition attempt {A} (m : M A) : M (Res A) := λ w,
  (Ok (result (m w)), world (m w), effects (m w)).

Definition text_params (externalUserId resolvedOpenKfId chunk : jsstring)
  : KfSendMsgParams :=
  {| touser := externalUserId; send_open_kfid := resolvedOpenKfId;
     send_msgtype := lit "text"; send_content := chunk |}.

(** The [for] loop of [sendKfTextMessage] over the chunks still to send,
    with the local [lastResult]. *)
Fixpoint send_chunks (account : ResolvedWecomKfAccount)
    (externalUserId resolvedOpenKfId : jsstring) (chunks : list jsstring)
    (lastResult : KfSendMsgResult) : M (Posted (Res KfSendMsgResult)) :=
  match chunks with
  | [] => ret {| posts := []; outcome := Ok lastResult |}
  | chunk :: rest =>
      let params := text_params externalUserId resolvedOpenKfId chunk in
      let* sent := attempt (sendKfMessage account params) in
      match sent with
      | Ok lastResult' =>
          if negb (bool_decide (send_errcode lastResult' = Some 0)) then
            ret {| posts := [params]; outcome := Ok lastResult' |}
          else
            let* more := send_chunks account externalUserId resolvedOpenKfId
                           rest lastResult' in
            ret {| posts := params :: posts more; outcome := outcome more |}
      | thrown => ret {| posts := [params]; outcome := thrown |}
      end
  end.

Definition MAX_TEXT_BYTES : Z := 2048.

Definition sendKfTextMessage (account : ResolvedWecomKfAccount)
    (externalUserId text : jsstring) (openKfId_arg : option jsstring)
  : M (Posted (Res KfSendMsgResult)) :=
  let resolvedOpenKfId := or_nullish openKfId_arg (openKfId account) in
  if negb (truthy_opt resolvedOpenKfId) then
    ret {| posts := [];
           outcome := Ok {| send_errcode := Some (-1);
                            send_errmsg := Some (lit "openKfId not available (not in config and not provided)");
                            send_msgid := None |} |}
  else
    let plainText := stripMarkdown sys text in
    let chunks := splitMessageByBytes plainText MAX_TEXT_BYTES in
    send_chunks account externalUserId (nullish resolvedOpenKfId []) chunks
      {| send_errcode := Some 0; send_errmsg := Some (lit "ok");
         send_msgid := None |}.

(* ================================================================== *)
(** ** send.ts *)
(* ================================================================== *)

(** [s.startsWith(p) ? s.slice(p.length) : s]. *)
Definition strip_prefix (p s : jsstring) : jsstring :=
  if startsWith s p then drop (length p) s else s.

Definition parseExternalUserId (target : jsstring) : jsstring :=
  strip_prefix (lit "user:") (strip_prefix (lit "wecom-kf:") (trim target)).

(** [parts.join(sep)]. *)
Fixpoint join (sep : jsstring) (parts : list jsstring) : jsstring :=
  match parts with
  | [] => []
  | [p] => p
  | p :: rest => p ++ sep ++ join sep rest
  end.

(** The [SendResult] pushed for a call of the send endpoint that
    returned. *)
Definition send_result_of (data : KfSendMsgResult) : SendResult :=
  {| sent_ok := bool_decide (send_errcode data = Some 0);
     sent_msgid := send_msgid data;
     sent_error := if bool_decide (send_errcode data = Some 0) then None
                   else send_errmsg data |}.

Definition refusal (why : string) : SendResult :=
  {| sent_ok := false; sent_msgid := None; sent_error := Some (lit why) |}.

Definition media_branch (account : ResolvedWecomKfAccount)
    (userId resolvedOpenKfId mediaPath : jsstring) : M SendResult := λ w,
  match run_media_branch sys account userId resolvedOpenKfId mediaPath
          (accessTokenCache w) (io w) with
  | (cache, n, pushed) => (Ok pushed, set_api cache n w, [])
  end.

(** The last lines of [sendWecomKfDM]: the results of the parts made
    one. *)
Definition summarize (results : list SendResult) : SendResult :=
  let errors := omap (λ r, if truthy_opt (sent_error r) then sent_error r
                           else None) results in
  let msgids := omap (λ r, if truthy_opt (sent_msgid r) then sent_msgid r
                           else None) results in
  {| sent_ok := forallb sent_ok results;
     sent_msgid := if truthy (join (lit ",") msgids)
                   then Some (join (lit ",") msgids) else None;
     sent_error := match errors with
                   | [] => None
                   | _ :: _ => Some (join (lit "; ") errors)
                   end |}.

(** [sendWecomKfDM(account, externalUserId, options)]; [canSendActive] is
    the account's field of that name. *)
Definition sendWecomKfDM (account : ResolvedWecomKfAccount)
    (canSendActive : bool) (externalUserId : jsstring)
    (options : SendMessageOptions) : M (Posted SendResult) :=
  if negb canSendActive then
    ret {| posts := [];
           outcome := refusal "Account not configured for active sending (missing corpId or corpSecret)" |}
  else
    let resolvedOpenKfId := or_nullish (opt_openKfId options) (openKfId account) in
    if negb (truthy_opt resolvedOpenKfId) then
      ret {| posts := [];
             outcome := refusal "openKfId not available (not in config and not provided in options)" |}
    else
      let userId := parseExternalUserId externalUserId in
      let* text_part :=
        if truthy_opt (trim <$> opt_text options) then
          let* sent := sendKfTextMessage account userId
                         (nullish (opt_text options) []) resolvedOpenKfId in
          match outcome sent with
          | Ok data => ret {| posts := posts sent;
                              outcome := [send_result_of data] |}
          | _ =>
              let* n := get io in
              ret {| posts := posts sent;
                     outcome := [{| sent_ok := false; sent_msgid := None;
                                    sent_error := Some (error_message sys n) |}] |}
          end
        else ret {| posts := []; outcome := [] |} in
      let* media_part :=
        if truthy_opt (trim <$> opt_mediaPath options) then
          let* pushed := media_branch account userId
                           (nullish resolvedOpenKfId [])
                           (nullish (opt_mediaPath options) []) in
          ret [pushed]
        else ret [] in
      match outcome text_part ++ media_part with
      | [] => ret {| posts := posts text_part;
                     outcome := refusal "No content to send (need text or mediaPath)" |}
      | results => ret {| posts := posts text_part;
                          outcome := summarize results |}
      end.

(* ================================================================== *)
(** ** webhook.ts: the save timer and the request body *)
(* ================================================================== *)

(** What [Object.fromEntries(cursorStore)] holds, as the entries
    [loadCursors] reads back. *)
Definition cursor_document (store : gmap jsstring jsstring)
  : list (jsstring * option jsstring) :=
  (λ kv, (kv.1, Some kv.2)) <$> map_to_list store.

(** The callback of the timer [scheduleSaveCursors] arms: the document it
    wrote, [None] when [mkdir] or [writeFile] threw. *)
Definition save_timer_fires : M (option (list (jsstring * option jsstring))) :=
  let* _ := modify (set_saveTimer false) in
  let* store := get cursorStore in
  let document := cursor_document store in
  let* n := tick in
  if write_cursor_file sys n document then ret (Some document) else ret None.

(** The listeners of [readRawBody] run over the events of the stream, with
    the locals [chunks] and [size]: the value the promise is resolved with
    first, [None] while it is pending. *)
Fixpoint read_events (maxBytes : Z) (events : list StreamEvent)
    (chunks : list (list Byte.byte)) (size : Z) : option RawBody :=
  match events with
  | [] => None
  | OnData chunk :: rest =>
      let size' := size + Z.of_nat (length chunk) in
      if maxBytes <? size' then
        Some {| ok := false; raw := None;
                error := Some (lit "payload too large") |}
      else read_events maxBytes rest (chunks ++ [chunk]) size'
  | OnEnd :: _ =>
      Some {| ok := true; raw := Some (utf8_toString sys (concat chunks));
              error := None |}
  | OnError message :: _ =>
      Some {| ok := false; raw := None; error := Some message |}
  end.

Definition readRawBody (events : list StreamEvent) (maxBytes : Z)
  : option RawBody :=
  read_events maxBytes events [] 0.

Definition MAX_BODY_BYTES : Z := 1024 * 1024.

End Outbound.

(* ================================================================== *)
(** ** Reading the state and the trace, continued *)
(* ================================================================== *)

Definition as_save (e : Effect) : option unit :=
  match e with SaveScheduled => Some tt | _ => None end.

(** The times [setTimeout] was armed for the cursor file. *)
Abbreviation saves := (collect as_save).

(** A run that writes a response, starts no drain, emits nothing and
    changes nothing. *)
Definition rejected (status : Z) (hdrs : list (jsstring * jsstring))
    (text : jsstring) (w : World) : Res Handled * World * list Effect :=
  (Ok (Responded {| statusCode := status; headers := hdrs; body := text |}
         None), w, []).

(** What the request handler itself emits. *)
Definition report_kind (e : Effect) : bool :=
  match e with Log _ _ | StatusPatch _ _ => true | _ => false end.

(** A step that emits only effects of class [cls] and leaves every module
    variable alone; the clock may be read. *)
Definition read_only_step (cls : Effect → bool) (w w' : World)
    (es : list Effect) : Prop :=
  api_step cls w w' es ∧ accessTokenCache w' = accessTokenCache w.

(** A step that writes no cursor but the one under [key] and leaves the
    registry and the loaded flag alone. *)
Definition own_cursor_step (key : jsstring) (w w' : World)
    (es : list Effect) : Prop :=
  webhookTargets w' = webhookTargets w
  ∧ cursorsLoaded w' = cursorsLoaded w
  ∧ ∀ k, k ≠ key → cursorStore w' !! k = cursorStore w !! k.

(** [if (resp.next_cursor)]. *)
Definition carries_cursor (resp : SyncMsgResponse) : bool :=
  truthy (next_cursor resp).

(** The save timer is pending after a run when it was before or a page
    with a next-cursor was fetched, and it is armed in the second case
    only, once. *)
Definition debounce_step (w w' : World) (es : list Effect) : Prop :=
  saveTimer w' = saveTimer w || existsb carries_cursor (fetched es)
  ∧ length (saves es)
    = (if saveTimer w then 0
       else if existsb carries_cursor (fetched es) then 1 else 0)%nat.

(** What [deliver_msg] does with an item: an event goes to the event
    router, an item of customer origin to the dispatch collaborator when
    the runtime is there, any other item nowhere. *)
Definition deliverable (env : Env) (msg : SyncMsgItem) : bool :=
  bool_decide (msgtype msg = lit "event") || ((origin msg =? 3) && core env).

(** The loop over the items of a page as a function of the ids in the
    dedup cache: the items handed on, in order, and the ids in the cache
    afterwards. *)
Fixpoint handed_on (env : Env) (seen : gset jsstring)
    (msgs : list SyncMsgItem) : list SyncMsgItem :=
  match msgs with
  | [] => []
  | msg :: rest =>
      if truthy (msgid msg) && bool_decide (msgid msg ∈ seen)
      then handed_on env seen rest
      else (if deliverable env msg then [msg] else [])
           ++ handed_on env
                (if truthy (msgid msg) then {[msgid msg]} ∪ seen else seen)
                rest
  end.

Fixpoint seen_after (seen : gset jsstring) (msgs : list SyncMsgItem)
  : gset jsstring :=
  match msgs with
  | [] => seen
  | msg :: rest =>
      if truthy (msgid msg) && bool_decide (msgid msg ∈ seen)
      then seen_after seen rest
      else seen_after
             (if truthy (msgid msg) then {[msgid msg]} ∪ seen else seen) rest
  end.

(** The items of the pages of a trace, in the order fetched. *)
Definition fetched_items (es : list Effect) : list SyncMsgItem :=
  concat (msg_list <$> fetched es).

(** A run hands on the items that [handed_on] selects among those it
    fetched, and leaves their ids in the dedup cache. *)
Definition warm_step (env : Env) (w w' : World) (es : list Effect) : Prop :=
  delivered es = handed_on env (dom (processedMsgIds w)) (fetched_items es)
  ∧ dom (processedMsgIds w')
    = seen_after (dom (processedMsgIds w)) (fetched_items es).

(** A credential is absent, or a non-empty string without white space
    around it. *)
Definition clean (field : option jsstring) : Prop :=
  field = None ∨ ∃ v, field = Some v ∧ v ≠ [] ∧ trim v = v.

(** What [readRawBody] resolves to when the body passes the limit. *)
Definition too_large : RawBody :=
  {| ok := false; raw := None; error := Some (lit "payload too large") |}.

(** The bytes of a list of chunks. *)
Definition total_bytes (chunks : list (list Byte.byte)) : Z :=
  Z.of_nat (length (concat chunks)).

(* ================================================================== *)
(** ** Sample tenants, pages and worlds *)
(* ================================================================== *)

Module Sample.

(** A fully configured tenant whose welcome text is [" hi "]. *)
Definition tenant : ResolvedWecomKfAccount :=
  {| accountId := lit "default";
     token := Some (lit "cbtoken");
     encodingAESKey := Some (lit "aeskey");
     corpId := Some (lit "ww1");
     corpSecret := Some (lit "s3cret");
     openKfId := Some (lit "wk1");
     config := {| welcomeText := Some (lit " hi ") |} |}.

(** The same tenant with a welcome text of one space. *)
Definition tenant_blank : ResolvedWecomKfAccount :=
  {| accountId := lit "default";
     token := Some (lit "cbtoken");
     encodingAESKey := Some (lit "aeskey");
     corpId := Some (lit "ww1");
     corpSecret := Some (lit "s3cret");
     openKfId := Some (lit "wk1");
     config := {| welcomeText := Some (lit " ") |} |}.

Definition target_of (a : ResolvedWecomKfAccount) : WebhookTarget :=
  {| account := a; path := lit "/wecom-kf"; statusSink := true |}.

Definition key : jsstring := getCursorKey (lit "default") (Some (lit "wk1")).

Definition item (id : string) (from : Z) (type : string) : SyncMsgItem :=
  {| msgid := lit id; open_kfid := lit "wk1"; external_userid := lit "u1";
     send_time := 0; origin := from; msgtype := lit type; event := None |}.

Definition enter_session (code : option jsstring) : KfEvent :=
  {| event_type := lit "enter_session"; welcome_code := code;
     fail_msgid := None; fail_type := None |}.

Definition entering (code : option jsstring) : SyncMsgItem :=
  {| msgid := lit "e1"; open_kfid := lit "wk1"; external_userid := lit "u1";
     send_time := 0; origin := 4; msgtype := lit "event";
     event := Some (enter_session code) |}.

Definition page (next : string) (more : Z) (items : list SyncMsgItem)
  : SyncMsgResponse :=
  {| errcode := Some 0; next_cursor := lit next; has_more := more;
     msg_list := items |}.

Fixpoint page_for (book : list (option jsstring * Reply SyncMsgResponse))
    (asked : option jsstring) : Reply SyncMsgResponse :=
  match book with
  | [] => Json {| errcode := Some 95000; next_cursor := [];
                  has_more := 0; msg_list := [] |}
  | (cursor, reply) :: rest =>
      if decide (cursor = asked) then reply else page_for rest asked
  end.

(** The code unit of the double quote, and a JSON string literal. *)
Definition dquote : N := 34%N.

Definition quoted (s : string) : jsstring := dquote :: lit s ++ [dquote].

(** The body of the sample callback: the JSON text of an object whose one
    field, [encrypt], has the value [ENVELOPE]. *)
Definition envelope_body : jsstring :=
  lit "{" ++ quoted "encrypt" ++ lit ":" ++ quoted "ENVELOPE" ++ lit "}".

(** The query strings of the sample callback and of the sample
    verification request. *)
Definition callback_query : jsstring :=
  lit "msg_signature=sig&timestamp=1700000000&nonce=n0".

Definition verification_query : jsstring :=
  lit "msg_signature=sig&timestamp=1700000000&nonce=n0&echostr=ECHO".

(** An upstream that issues the token ["AT"] and serves the pages of
    [book] by the cursor asked for ([None]: no cursor in the request); a
    cursor it does not know is answered with result code 95000. The clock
    reads [1000 + n] at interaction [n]; the envelope codec answers
    [plain]; every signature verifies. The query parser reads the two
    sample query strings, any other as one without parameters; the JSON
    parser reads [envelope_body] and the empty object, and throws on any
    other text. *)
Definition world_of
    (book : list (option jsstring * Reply SyncMsgResponse))
    (plain : option jsstring) : Env :=
  {| Date_now := λ n, 1000 + Z.of_nat n;
     read_cursor_file := λ _, None;
     fetch_gettoken := λ _ _ _,
       Json {| token_errcode := Some 0; access_token := Some (lit "AT") |};
     fetch_sync_msg := λ _ _ asked, page_for book (p_cursor asked);
     fetch_send_msg_on_event := λ _ _ _ _, true;
     core := true;
     run_dispatchKfMessage := λ _ cache n, (cache, S n, false);
     verifyWecomSignature := λ _ _ _ _ _, true;
     decryptWecomEncrypted := λ _ _ _, plain;
     URLSearchParams_get := λ query name,
       if decide (query = callback_query ∨ query = verification_query) then
         if decide (name = lit "echostr") then
           if decide (query = verification_query) then Some (lit "ECHO")
           else None
         else if decide (name = lit "timestamp") then Some (lit "1700000000")
         else if decide (name = lit "nonce") then Some (lit "n0")
         else if decide (name = lit "msg_signature") then Some (lit "sig")
         else None
       else None;
     JSON_parse := λ text,
       if decide (text = envelope_body) then
         Some (λ name, if decide (name = lit "encrypt")
                       then Some (lit "ENVELOPE") else None)
       else if decide (text = lit "{}") then Some (λ _, None)
       else None;
     parseXmlBody := λ _, ∅ |}.

(** A process that has loaded its cursors and holds [cursors]. *)
Definition started (cursors : gmap jsstring jsstring)
    (targets : list WebhookTarget) : World :=
  {| webhookTargets := {[ lit "/wecom-kf" := targets ]};
     cursorStore := cursors;
     cursorsLoaded := true;
     saveTimer := false;
     processedMsgIds := ∅;
     accessTokenCache := ∅;
     io := 0%nat |}.

(** Two pages of history, the second without a next cursor. *)
Definition history_open : list (option jsstring * Reply SyncMsgResponse) :=
  [(None, Json (page "c1" 1 [item "m1" 3 "text"]));
   (Some (lit "c1"), Json (page "" 0 [item "m2" 3 "text"]))].

(** Two pages of history, both with a next cursor. *)
Definition history : list (option jsstring * Reply SyncMsgResponse) :=
  [(None, Json (page "c1" 1 [item "m1" 3 "text"]));
   (Some (lit "c1"), Json (page "c2" 0 [item "m2" 3 "text"]))].

(** The pages of end-to-end scenario B of the specification. *)
Definition scenario_b : list (option jsstring * Reply SyncMsgResponse) :=
  [(Some (lit "c1"),
    Json (page "c2" 1 [item "m1" 3 "text"; item "m2" 4 "text"]));
   (Some (lit "c2"), Json (page "c3" 0 [item "m1" 3 "text"]))].

(** A page with two items that carry the empty message id. *)
Definition anonymous : list (option jsstring * Reply SyncMsgResponse) :=
  [(Some (lit "c1"),
    Json (page "c2" 0 [item "" 3 "text"; item "" 3 "text"]))].

(** A page that announces more but carries no item. *)
Definition hollow : list (option jsstring * Reply SyncMsgResponse) :=
  [(Some (lit "c1"), Json (page "c2" 1 []))].

(** A first page, then an HTTP exchange that throws. *)
Definition broken : list (option jsstring * Reply SyncMsgResponse) :=
  [(Some (lit "c1"), Json (page "c2" 1 [item "m1" 3 "text"]));
   (Some (lit "c2"), Rejected)].

(** A POST callback with the JSON body [envelope_body], and a GET
    verification request. *)
Definition post_callback : IncomingMessage :=
  {| method := Some (lit "POST");
     url := Some (lit "/wecom-kf?" ++ callback_query);
     payload := {| ok := true; raw := Some envelope_body; error := None |} |}.

Definition get_verification : IncomingMessage :=
  {| method := Some (lit "GET");
     url := Some (lit "/wecom-kf?" ++ verification_query);
     payload := {| ok := true; raw := None; error := None |} |}.

(** The configuration file of [tenant], an environment without the
    plugin's variables, and the process right after the plugin has started
    the default account. *)
Definition settings : WecomKfConfig :=
  {| top_level :=
       {| cfg_name := None; cfg_enabled := None; cfg_webhookPath := None;
          cfg_token := Some (lit "cbtoken");
          cfg_encodingAESKey := Some (lit "aeskey");
          cfg_corpId := Some (lit "ww1");
          cfg_corpSecret := Some (lit "s3cret");
          cfg_openKfId := Some (lit "wk1");
          cfg_apiBaseUrl := None;
          cfg_welcomeText := Some (lit " hi ");
          cfg_dmPolicy := None; cfg_allowFrom := None |};
     accounts := None;
     defaultAccount := None |}.

Definition no_variables : ProcessEnv :=
  {| WECOM_KF_CORP_ID := None; WECOM_KF_CORP_SECRET := None;
     WECOM_KF_OPEN_KF_ID := None; WECOM_KF_TOKEN := None;
     WECOM_KF_ENCODING_AES_KEY := None |}.

Definition fresh : World :=
  {| webhookTargets := ∅; cursorStore := ∅; cursorsLoaded := false;
     saveTimer := false; processedMsgIds := ∅; accessTokenCache := ∅;
     io := 0%nat |}.

Definition running : World :=
  world (startAccount no_variables (Some settings) (lit "default") fresh).

(** The runs the statements below are tried on. *)
Definition cold_run :=
  pullAndDispatchMessages (world_of history None) 5 (target_of tenant)
    None None (started ∅ [target_of tenant]).

Definition cold_run_open :=
  pullAndDispatchMessages (world_of history_open None) 5 (target_of tenant)
    None None (started ∅ [target_of tenant]).

Definition warm_run :=
  pullAndDispatchMessages (world_of scenario_b None) 5 (target_of tenant)
    None None (started {[ key := lit "c1" ]} [target_of tenant]).

Definition anonymous_run :=
  pullAndDispatchMessages (world_of anonymous None) 5 (target_of tenant)
    None None (started {[ key := lit "c1" ]} [target_of tenant]).

Definition hollow_run :=
  pullAndDispatchMessages (world_of hollow None) 5 (target_of tenant)
    None None (started {[ key := lit "c1" ]} [target_of tenant]).

Definition broken_run :=
  pullAndDispatchMessages (world_of broken None) 5 (target_of tenant)
    None None (started {[ key := lit "c1" ]} [target_of tenant]).

End Sample.

(* ================================================================== *)
(** ** Sample platform *)
(* ================================================================== *)

Module Fixture.

(** A send endpoint that accepts every post, a file system that takes
    every write, and texts without markdown and bodies in ASCII: stripping
    such a text trims it, decoding such a body maps bytes to code units. *)
Definition courier : Platform :=
  {| stripMarkdown := trim;
     fetch_send_msg := λ _ _ _,
       Json {| send_errcode := Some 0; send_errmsg := Some (lit "ok");
               send_msgid := Some (lit "MSGID") |};
     error_message := λ _, lit "fetch failed";
     run_media_branch := λ _ _ _ _ cache n,
       (cache, S n,
        {| sent_ok := true; sent_msgid := Some (lit "MEDIAMSG");
           sent_error := None |});
     write_cursor_file := λ _ _, true;
     utf8_toString := λ bytes, Byte.to_N <$> bytes |}.

End Fixture.

(* ================================================================== *)
(** ** Laws of the monad *)
(* ================================================================== *)

Section MonadLaws.

Context {A B : Type}.

Lemma bind_eq (m : M A) (k : A → M B) (w : World) :
  bind m k w =
  match result (m w) with
  | Ok a =>
      (result (k a (world (m w))), world (k a (world (m w))),
       effects (m w) ++ effects (k a (world (m w))))
  | Throw => (Throw, world (m w), effects (m w))
  | OutOfFuel => (OutOfFuel, world (m w), effects (m w))
  end.
Proof.
  unfold bind, result, world, effects.
  destruct (m w) as [[[a| |] w1] es1]; cbn; try done.
  by destruct (k a w1) as [[? ?] ?].
Qed.

Lemma try_catch_eq (m h : M A) (w : World) :
  try_catch m h w =
  match result (m w) with
  | Throw =>
      (result (h (world (m w))), world (h (world (m w))),
       effects (m w) ++ effects (h (world (m w))))
  | _ => m w
  end.
Proof.
  unfold try_catch, result, world, effects.
  destruct (m w) as [[[a| |] w1] es1]; cbn; try done.
  by destruct (h w1) as [[? ?] ?].
Qed.

Lemma effects_bind (m : M A) (k : A → M B) (w : World) :
  effects (bind m k w) =
  effects (m w) ++
  match result (m w) with
  | Ok a => effects (k a (world (m w)))
  | _ => []
  end.
Proof.
  rewrite bind_eq. destruct (result (m w)); cbn; by rewrite ?app_nil_r.
Qed.

Lemma effects_try_catch (m h : M A) (w : World) :
  effects (try_catch m h w) =
  effects (m w) ++
  match result (m w) with
  | Throw => effects (h (world (m w)))
  | _ => []
  end.
Proof.
  rewrite try_catch_eq. destruct (result (m w)); cbn; by rewrite ?app_nil_r.
Qed.

Lemma bind_ok (m : M A) (k : A → M B) (w : World) (a : A) :
  result (m w) = Ok a →
  bind m k w =
  (result (k a (world (m w))), world (k a (world (m w))),
   effects (m w) ++ effects (k a (world (m w)))).
Proof. intros Hm. by rewrite bind_eq, Hm. Qed.

Lemma bind_throw (m : M A) (k : A → M B) (w : World) :
  result (m w) = Throw → bind m k w = (Throw, world (m w), effects (m w)).
Proof. intros Hm. by rewrite bind_eq, Hm. Qed.

Lemma triple_eta (x : Res A * World * list Effect) :
  x = (result x, world x, effects x).
Proof. by destruct x as [[? ?] ?]. Qed.

End MonadLaws.

Section TraceLaws.

Context {X : Type} (pick : Effect → option X).

Lemma collect_app (es1 es2 : list Effect) :
  collect pick (es1 ++ es2) = collect pick es1 ++ collect pick es2.
Proof.
  induction es1 as [|e es1 IH]; [done|].
  cbn [app collect]. rewrite IH. by destruct (pick e).
Qed.

(** A trace made of effects of a class [pick] does not select. *)
Lemma collect_class (cls : Effect → bool) (es : list Effect) :
  (∀ e, cls e = true → pick e = None) →
  Forall (λ e, cls e = true) es → collect pick es = [].
Proof.
  intros Hcls. induction 1 as [|e es He _ IH]; [done|].
  cbn [collect]. by rewrite (Hcls e He).
Qed.

End TraceLaws.

Lemma deliveries_of_app (id : jsstring) (es1 es2 : list Effect) :
  deliveries_of id (es1 ++ es2)
  = (deliveries_of id es1 + deliveries_of id es2)%nat.
Proof.
  unfold deliveries_of. by rewrite collect_app, filter_app, length_app.
Qed.

Section KeepsLaws.

Context (R : World → World → list Effect → Prop) (HR : Invariant R).

Lemma keeps_ret {A} (a : A) : keeps R (ret a).
Proof. intros w. apply HR. Qed.

Lemma keeps_throw {A} : keeps R (@throw A).
Proof. intros w. apply HR. Qed.

Lemma keeps_out_of_fuel {A} : keeps R (@out_of_fuel A).
Proof. intros w. apply HR. Qed.

Lemma keeps_get {A} (f : World → A) : keeps R (get f).
Proof. intros w. apply HR. Qed.

Lemma keeps_bind {A B} (m : M A) (k : A → M B) :
  keeps R m → (∀ a, keeps R (k a)) → keeps R (bind m k).
Proof.
  intros Hm Hk w. rewrite bind_eq. specialize (Hm w).
  destruct (result (m w)) as [a| |]; [|done..].
  cbn. eapply inv_trans; [done | apply Hm | apply Hk].
Qed.

Lemma keeps_try_catch {A} (m h : M A) :
  keeps R m → keeps R h → keeps R (try_catch m h).
Proof.
  intros Hm Hh w. rewrite try_catch_eq. specialize (Hm w).
  destruct (result (m w)) as [a| |]; [done| |done].
  cbn. eapply inv_trans; [done | apply Hm | apply Hh].
Qed.

Lemma keeps_emit (e : Effect) : (∀ w, R w w [e]) → keeps R (emit e).
Proof. intros He w. apply He. Qed.

Lemma keeps_modify (f : World → World) :
  (∀ w, R w (f w) []) → keeps R (modify f).
Proof. intros Hf w. apply Hf. Qed.

End KeepsLaws.

Lemma keeps_impl {A} (R R' : World → World → list Effect → Prop) (m : M A) :
  (∀ w w' es, R w w' es → R' w w' es) → keeps R m → keeps R' m.
Proof. intros Himpl Hm w. apply Himpl, Hm. Qed.

(** The relations used below compose. *)
Lemma only_invariant (p : Effect → bool) :
  Invariant (λ _ _ es, Forall (λ e, p e = true) es).
Proof. split; [by constructor | intros; by apply Forall_app]. Qed.

Lemma same_cursors_invariant : Invariant (λ w w' _, same_cursors w w').
Proof.
  split; [done|]. unfold same_cursors.
  intros w w1 w2 _ _ (?&?&?&?) (?&?&?&?). repeat split; congruence.
Qed.

Lemma same_dedup_invariant :
  Invariant (λ w w' _, processedMsgIds w' = processedMsgIds w).
Proof. split; [done | intros; congruence]. Qed.

Lemma and_invariant (R1 R2 : World → World → list Effect → Prop) :
  Invariant R1 → Invariant R2 → Invariant (λ w w' es, R1 w w' es ∧ R2 w w' es).
Proof.
  intros H1 H2. split.
  - intros w. split; [apply H1 | apply H2].
  - intros w w1 w2 es1 es2 [? ?] [? ?].
    split; [by eapply (inv_trans _ H1) | by eapply (inv_trans _ H2)].
Qed.

(* ================================================================== *)
(** ** Properties of the text helpers *)
(* ================================================================== *)

Section SplitFacts.

Lemma chars_cons2 (u v : N) (rest : jsstring) :
  chars (u :: v :: rest)
  = if is_high_surrogate u && is_low_surrogate v
    then [u; v] :: chars rest
    else [u] :: chars (v :: rest).
Proof. reflexivity. Qed.

Lemma concat_chars (s : jsstring) : concat (chars s) = s.
Proof.
  remember (length s) as n eqn:Hn.
  revert s Hn. induction (lt_wf n) as [n _ IH]. intros s ->.
  destruct s as [|u [|v rest]]; [done | done |].
  rewrite chars_cons2.
  destruct (is_high_surrogate u && is_low_surrogate v).
  - cbn [concat app]. f_equal. f_equal.
    apply (IH (length rest)); [cbn; lia | done].
  - cbn [concat app]. f_equal.
    apply (IH (length (v :: rest))); [cbn; lia | done].
Qed.

Lemma chars_nonempty (s c : jsstring) : c ∈ chars s → c ≠ [].
Proof.
  remember (length s) as n eqn:Hn.
  revert s Hn. induction (lt_wf n) as [n _ IH]. intros s ->.
  destruct s as [|u [|v rest]].
  - by intros ?%elem_of_nil.
  - by intros ->%list_elem_of_singleton.
  - rewrite chars_cons2.
    destruct (is_high_surrogate u && is_low_surrogate v);
      intros [->|Hin]%elem_of_cons; try done.
    + eapply (IH (length rest)); [cbn; lia | done | done].
    + eapply (IH (length (v :: rest))); [cbn; lia | done | done].
Qed.

Lemma truthy_true (s : jsstring) : truthy s = true ↔ s ≠ [].
Proof. destruct s; cbn; split; congruence. Qed.

Lemma split_loop_concat maxBytes cs chunks current :
  concat (split_loop maxBytes cs chunks current)
  = concat chunks ++ current ++ concat cs.
Proof.
  revert chunks current. induction cs as [|char cs IH]; intros chunks current.
  - cbn. destruct current as [|u current]; cbn.
    + by rewrite app_nil_r.
    + rewrite concat_app. cbn. by rewrite !app_nil_r.
  - cbn [split_loop]. destruct (maxBytes <? byteLength (current ++ char)).
    + rewrite IH. destruct current as [|u current]; cbn; [done|].
      rewrite concat_app. cbn. rewrite app_nil_r. by rewrite <- !app_assoc.
    + rewrite IH. cbn. by rewrite <- !app_assoc.
Qed.

Lemma split_loop_nonempty maxBytes cs chunks current :
  Forall (λ c, c ≠ []) cs →
  Forall (λ c, c ≠ []) chunks →
  Forall (λ c, c ≠ []) (split_loop maxBytes cs chunks current).
Proof.
  revert chunks current. induction cs as [|char cs IH];
    intros chunks current Hcs Hchunks.
  - cbn. destruct current; cbn; [done|].
    apply Forall_app; split; [done|]. by repeat constructor.
  - apply Forall_cons in Hcs as [Hchar Hcs]. cbn [split_loop].
    destruct (maxBytes <? byteLength (current ++ char)).
    + apply IH; [done|]. destruct current; cbn; [done|].
      apply Forall_app; split; [done|]. by repeat constructor.
    + by apply IH.
Qed.

Lemma split_loop_bounded maxBytes cs chunks current :
  Forall (λ c, byteLength c ≤ maxBytes) cs →
  Forall (λ c, byteLength c ≤ maxBytes) chunks →
  byteLength current ≤ maxBytes →
  Forall (λ c, byteLength c ≤ maxBytes) (split_loop maxBytes cs chunks current).
Proof.
  revert chunks current. induction cs as [|char cs IH];
    intros chunks current Hcs Hchunks Hcur.
  - cbn. destruct (truthy current); [|done].
    apply Forall_app; split; [done|]. by repeat constructor.
  - apply Forall_cons in Hcs as [Hchar Hcs]. cbn [split_loop].
    destruct (Z.ltb_spec maxBytes (byteLength (current ++ char))).
    + apply IH; [done| |done]. destruct (truthy current); [|done].
      apply Forall_app; split; [done|]. by repeat constructor.
    + by apply IH.
Qed.

End SplitFacts.

(** C10. For every text and every positive limit, the chunks of
    [splitMessageByBytes] concatenate in order to the text, none of them is
    empty, and when every character of the text fits the limit on its own,
    every chunk fits the limit. *)
Theorem splitMessageByBytes_chunks (text : jsstring) (maxBytes : Z) :
  0 < maxBytes →
  concat (splitMessageByBytes text maxBytes) = text
  ∧ Forall (λ chunk, chunk ≠ []) (splitMessageByBytes text maxBytes)
  ∧ (Forall (λ char, byteLength char ≤ maxBytes) (chars text) →
     Forall (λ chunk, byteLength chunk ≤ maxBytes)
            (splitMessageByBytes text maxBytes)).
Proof.
  intros Hpos. unfold splitMessageByBytes. split; [|split].
  - rewrite split_loop_concat. cbn. apply concat_chars.
  - apply split_loop_nonempty; [|done].
    apply Forall_forall. intros c Hc. by eapply chars_nonempty.
  - intros Hchars. apply split_loop_bounded; [done | done |]. cbn. lia.
Qed.

(* ================================================================== *)
(** ** What each function may touch and emit *)
(* ================================================================== *)

Lemma api_step_invariant cls : Invariant (api_step cls).
Proof.
  apply and_invariant; [apply only_invariant|].
  apply and_invariant; [apply same_cursors_invariant|].
  apply same_dedup_invariant.
Qed.

Lemma item_step_invariant cls : Invariant (item_step cls).
Proof.
  apply and_invariant; [apply only_invariant | apply same_cursors_invariant].
Qed.

Lemma api_step_impl (cls cls' : Effect → bool) w w' es :
  (∀ e, cls e = true → cls' e = true) →
  api_step cls w w' es → api_step cls' w w' es.
Proof.
  intros Hsub (Hes & ? & ?). split; [|done].
  eapply Forall_impl; [apply Hes | apply Hsub].
Qed.

(** Decomposing a goal [keeps R m] along the structure of [m]. *)
Ltac keeps_atom :=
  intros; unfold api_step, item_step, same_cursors;
  first [ done | by repeat constructor ].

Ltac keeps_step HR :=
  lazymatch goal with
  | |- keeps _ (bind _ _) => apply (keeps_bind _ HR); [| intros ?]
  | |- keeps _ (try_catch _ _) => apply (keeps_try_catch _ HR)
  | |- keeps _ (ret _) => apply (keeps_ret _ HR)
  | |- keeps _ throw => apply (keeps_throw _ HR)
  | |- keeps _ out_of_fuel => apply (keeps_out_of_fuel _ HR)
  | |- keeps _ (get _) => apply (keeps_get _ HR)
  | |- keeps _ (emit _) => apply keeps_emit; keeps_atom
  | |- keeps _ (modify _) => apply keeps_modify; keeps_atom
  | |- keeps _ tick => intros ?; keeps_atom
  | |- keeps _ (now _) => unfold now
  | |- keeps _ (match ?x with _ => _ end) => destruct x
  end.

Ltac keeps_auto HR := repeat keeps_step HR.

Section Footprints.

Context (env : Env).

Lemma getAccessToken_step account :
  keeps (api_step token_kind) (getAccessToken env account).
Proof.
  pose proof (api_step_invariant token_kind) as HR.
  unfold getAccessToken, now. keeps_auto HR.
Qed.

Lemma syncMessages_step account params :
  keeps (api_step sync_kind) (syncMessages env account params).
Proof.
  pose proof (api_step_invariant sync_kind) as HR.
  unfold syncMessages. keeps_auto HR.
  eapply keeps_impl; [|apply getAccessToken_step].
  intros w w' es. apply api_step_impl. by intros [].
Qed.

Lemma sendKfWelcomeMessage_step account code text :
  keeps (api_step event_kind) (sendKfWelcomeMessage env account code text).
Proof.
  pose proof (api_step_invariant event_kind) as HR.
  unfold sendKfWelcomeMessage. keeps_auto HR.
  eapply keeps_impl; [|apply getAccessToken_step].
  intros w w' es. apply api_step_impl. by intros [].
Qed.

Lemma emit_then {A} (e : Effect) (k : M A) (w : World) :
  bind (emit e) (λ _, k) w = (result (k w), world (k w), e :: effects (k w)).
Proof. by rewrite bind_eq. Qed.

(** [handleKfEvent] records the item it was given, then emits only what the
    welcome send and the logger emit. *)
Lemma handleKfEvent_run msg account w :
  ∃ rest,
    effects (handleKfEvent env msg account w) = Call_handleKfEvent msg :: rest
    ∧ api_step event_kind w (world (handleKfEvent env msg account w)) rest.
Proof.
  pose proof (api_step_invariant event_kind) as HR.
  unfold handleKfEvent. rewrite emit_then. cbn [effects world fst snd].
  eexists. split; [reflexivity|].
  lazymatch goal with
  | |- api_step _ ?w0 (world (?k ?w0)) _ =>
      enough (keeps (api_step event_kind) k) as Hk by apply Hk
  end.
  keeps_auto HR. apply sendKfWelcomeMessage_step.
Qed.

Lemma dispatchKfMessage_run msg w :
  effects (dispatchKfMessage env msg w) = [Call_dispatchKfMessage msg]
  ∧ same_cursors w (world (dispatchKfMessage env msg w))
  ∧ processedMsgIds (world (dispatchKfMessage env msg w)) = processedMsgIds w.
Proof.
  unfold dispatchKfMessage.
  by destruct (run_dispatchKfMessage env msg _ _) as [[cache n] rejects].
Qed.

End Footprints.

(* ================================================================== *)
(** ** Event routing *)
(* ================================================================== *)

Section Welcome.

Context (env : Env).

Lemma getAccessToken_welcome_calls account w :
  welcome_calls (effects (getAccessToken env account w)) = [].
Proof.
  apply (collect_class _ token_kind); [by intros [] |].
  apply (getAccessToken_step env account w).
Qed.

Lemma sendKfWelcomeMessage_welcome_calls account code text w :
  welcome_calls (effects (sendKfWelcomeMessage env account code text w))
  = [(code, text)].
Proof.
  unfold sendKfWelcomeMessage. rewrite emit_then.
  cbn [effects snd collect as_welcome_call]. f_equal.
  rewrite effects_bind, collect_app, getAccessToken_welcome_calls.
  destruct (result (getAccessToken env account w)) as [tok| |]; [|done..].
  rewrite emit_then. cbn [effects snd collect as_welcome_call app].
  rewrite bind_eq. cbn [tick result world effects fst snd app].
  by destruct (fetch_send_msg_on_event env _ _ _ _).
Qed.

End Welcome.

(** C7 (as amended). For every [enter_session] event handled by
    [handleKfEvent]: when the event carries a non-empty welcome code and the
    configured welcome text is non-empty once trimmed, exactly one call of
    [sendKfWelcomeMessage] is made, with that code and the trimmed text;
    in every other case no such call is made. *)
Theorem enter_session_welcome (env : Env) (msg : SyncMsgItem)
    (account : ResolvedWecomKfAccount) (w : World) (e : KfEvent) :
  event msg = Some e →
  event_type e = lit "enter_session" →
  welcome_calls (effects (handleKfEvent env msg account w)) =
    match welcome_code e, welcomeText (config account) with
    | Some code, Some text =>
        if truthy code && truthy (trim text) then [(code, trim text)] else []
    | _, _ => []
    end.
Proof.
  intros Hevent Htype.
  unfold handleKfEvent. rewrite emit_then. cbn [effects snd].
  rewrite Hevent, Htype. cbn [mbind option_bind].
  destruct (decide (lit "enter_session" = lit "enter_session")); [|done].
  cbn [collect as_welcome_call].
  destruct (welcome_code e) as [code|], (welcomeText (config account))
    as [text|]; cbn [fmap option_fmap option_map truthy_opt andb nullish];
    try done.
  - destruct (truthy code), (truthy (trim text)); cbn [andb]; try done.
    rewrite effects_try_catch, effects_bind, !collect_app.
    rewrite (sendKfWelcomeMessage_welcome_calls env account code (trim text) w).
    by repeat case_match.
  - by destruct (truthy code).
Qed.

(* ================================================================== *)
(** ** The loop over the items of a page *)
(* ================================================================== *)

Section Items.

Context (env : Env).

Lemma isDuplicate_step msgid :
  keeps (item_step item_kind) (isDuplicate env msgid).
Proof.
  pose proof (item_step_invariant item_kind) as HR.
  unfold isDuplicate. keeps_auto HR.
Qed.

Lemma handleKfEvent_step msg account :
  keeps (item_step item_kind) (handleKfEvent env msg account).
Proof.
  intros w. destruct (handleKfEvent_run env msg account w) as (rest & -> & Hrest).
  destruct Hrest as (Hes & Hcur & _). split; [|done].
  constructor; [done|]. eapply Forall_impl; [apply Hes|]. by intros [].
Qed.

Lemma dispatchKfMessage_step msg :
  keeps (item_step item_kind) (dispatchKfMessage env msg).
Proof.
  intros w. destruct (dispatchKfMessage_run env msg w) as (-> & Hcur & _).
  split; [by repeat constructor | done].
Qed.

Lemma process_msg_step target msg :
  keeps (item_step item_kind) (process_msg env target msg).
Proof.
  pose proof (item_step_invariant item_kind) as HR.
  unfold process_msg, deliver_msg. keeps_auto HR;
    auto using isDuplicate_step, handleKfEvent_step, dispatchKfMessage_step.
Qed.

Lemma process_msgs_step target msgs :
  keeps (item_step item_kind) (process_msgs env target msgs).
Proof.
  pose proof (item_step_invariant item_kind) as HR.
  induction msgs as [|msg msgs IH]; cbn [process_msgs]; keeps_auto HR;
    auto using process_msg_step.
Qed.

End Items.

(* ================================================================== *)
(** ** Which calls can throw *)
(* ================================================================== *)

Section Outcomes.

Lemma fuel_free_ret {A} (a : A) : fuel_free (ret a).
Proof. by intros w. Qed.

Lemma fuel_free_throw {A} : fuel_free (@throw A).
Proof. by intros w. Qed.

Lemma fuel_free_get {A} (f : World → A) : fuel_free (get f).
Proof. by intros w. Qed.

Lemma fuel_free_modify f : fuel_free (modify f).
Proof. by intros w. Qed.

Lemma fuel_free_emit e : fuel_free (emit e).
Proof. by intros w. Qed.

Lemma fuel_free_tick : fuel_free tick.
Proof. by intros w. Qed.

Lemma fuel_free_bind {A B} (m : M A) (k : A → M B) :
  fuel_free m → (∀ a, fuel_free (k a)) → fuel_free (bind m k).
Proof.
  intros Hm Hk w. rewrite bind_eq. specialize (Hm w).
  destruct (result (m w)) as [a| |]; [apply Hk | done | done].
Qed.

Lemma fuel_free_try_catch {A} (m h : M A) :
  fuel_free m → fuel_free h → fuel_free (try_catch m h).
Proof.
  intros Hm Hh w. rewrite try_catch_eq. specialize (Hm w).
  destruct (result (m w)) as [a| |] eqn:Hr; [by rewrite Hr | apply Hh | done].
Qed.

Lemma returns_ret {A} (a : A) : returns (ret a).
Proof. intros w. by eexists. Qed.

Lemma returns_get {A} (f : World → A) : returns (get f).
Proof. intros w. by eexists. Qed.

Lemma returns_modify f : returns (modify f).
Proof. intros w. by eexists. Qed.

Lemma returns_emit e : returns (emit e).
Proof. intros w. by eexists. Qed.

Lemma returns_tick : returns tick.
Proof. intros w. by eexists. Qed.

Lemma returns_bind {A B} (m : M A) (k : A → M B) :
  returns m → (∀ a, returns (k a)) → returns (bind m k).
Proof.
  intros Hm Hk w. rewrite bind_eq. destruct (Hm w) as [a ->]. apply Hk.
Qed.

Lemma returns_try_catch {A} (m h : M A) :
  fuel_free m → returns h → returns (try_catch m h).
Proof.
  intros Hm Hh w. rewrite try_catch_eq. specialize (Hm w).
  destruct (result (m w)) as [a| |] eqn:Hr; [|apply Hh|done].
  exists a. by rewrite Hr.
Qed.

End Outcomes.

Ltac fuel_free_step :=
  lazymatch goal with
  | |- fuel_free (bind _ _) => apply fuel_free_bind; [| intros ?]
  | |- fuel_free (try_catch _ _) => apply fuel_free_try_catch
  | |- fuel_free (ret _) => apply fuel_free_ret
  | |- fuel_free throw => apply fuel_free_throw
  | |- fuel_free (get _) => apply fuel_free_get
  | |- fuel_free (emit _) => apply fuel_free_emit
  | |- fuel_free (modify _) => apply fuel_free_modify
  | |- fuel_free tick => apply fuel_free_tick
  | |- fuel_free (now _) => unfold now
  | |- fuel_free (match ?x with _ => _ end) => destruct x
  end.

Ltac returns_step :=
  lazymatch goal with
  | |- returns (bind _ _) => apply returns_bind; [| intros ?]
  | |- returns (try_catch _ _) => apply returns_try_catch
  | |- returns (ret _) => apply returns_ret
  | |- returns (get _) => apply returns_get
  | |- returns (emit _) => apply returns_emit
  | |- returns (modify _) => apply returns_modify
  | |- returns tick => apply returns_tick
  | |- returns (now _) => unfold now
  | |- returns (match ?x with _ => _ end) => destruct x
  | |- fuel_free _ => fuel_free_step
  end.

Section Totality.

Context (env : Env).

Lemma getAccessToken_fuel_free account : fuel_free (getAccessToken env account).
Proof. unfold getAccessToken. repeat fuel_free_step. Qed.

Lemma syncMessages_fuel_free account params :
  fuel_free (syncMessages env account params).
Proof.
  unfold syncMessages. repeat fuel_free_step. apply getAccessToken_fuel_free.
Qed.

Lemma sendKfWelcomeMessage_fuel_free account code text :
  fuel_free (sendKfWelcomeMessage env account code text).
Proof.
  unfold sendKfWelcomeMessage. repeat fuel_free_step.
  apply getAccessToken_fuel_free.
Qed.

Lemma dispatchKfMessage_fuel_free msg : fuel_free (dispatchKfMessage env msg).
Proof.
  intros w. unfold dispatchKfMessage, result.
  by destruct (run_dispatchKfMessage env msg _ _) as [[cache n] []].
Qed.

Lemma handleKfEvent_returns msg account :
  returns (handleKfEvent env msg account).
Proof.
  unfold handleKfEvent. repeat returns_step.
  apply sendKfWelcomeMessage_fuel_free.
Qed.

Lemma isDuplicate_returns msgid : returns (isDuplicate env msgid).
Proof. unfold isDuplicate. repeat returns_step. Qed.

Lemma process_msg_returns target msg : returns (process_msg env target msg).
Proof.
  unfold process_msg, deliver_msg. repeat returns_step;
    auto using isDuplicate_returns, handleKfEvent_returns,
      dispatchKfMessage_fuel_free.
Qed.

Lemma process_msgs_returns target msgs :
  returns (process_msgs env target msgs).
Proof.
  induction msgs as [|msg msgs IH]; cbn [process_msgs]; repeat returns_step;
    auto using process_msg_returns.
Qed.

End Totality.

(* ================================================================== *)
(** ** One paged fetch *)
(* ================================================================== *)

Section Fetch.

Context (env : Env).

Lemma getAccessToken_quiet account w :
  sync_calls (effects (getAccessToken env account w)) = []
  ∧ fetched (effects (getAccessToken env account w)) = [].
Proof.
  pose proof (getAccessToken_step env account w) as (Hes & _).
  split; apply (collect_class _ token_kind); try done; by intros [].
Qed.

(** What a call of [syncMessages] leaves in the trace: its own mark, and
    the page when it returns one. *)
Lemma syncMessages_trace account params w :
  sync_calls (effects (syncMessages env account params w)) = [params]
  ∧ fetched (effects (syncMessages env account params w))
    = match result (syncMessages env account params w) with
      | Ok resp => [resp]
      | _ => []
      end.
Proof.
  unfold syncMessages. rewrite emit_then.
  cbn [effects result fst snd collect as_sync_call as_fetched].
  destruct (getAccessToken_quiet account w) as [Hcalls Hfetched].
  rewrite bind_eq.
  destruct (result (getAccessToken env account w)) as [tok| |];
    cbn [effects result fst snd]; rewrite ?Hcalls, ?Hfetched; [|done..].
  rewrite !collect_app, Hcalls, Hfetched. cbn [app].
  rewrite emit_then.
  cbn [effects result fst snd collect as_sync_call as_fetched].
  rewrite bind_eq. cbn [tick result world effects fst snd app].
  destruct (fetch_sync_msg env _ tok (sync_body params)) as [|data]; [done|].
  by destruct (failed_errcode (errcode data)).
Qed.

Lemma record_next_cursor_run key resp cursor w :
  let run := record_next_cursor key resp cursor w in
  result run = Ok (if truthy (next_cursor resp) then next_cursor resp
                   else cursor)
  ∧ cursorStore (world run)
    = (if truthy (next_cursor resp)
       then <[key := next_cursor resp]> (cursorStore w) else cursorStore w)
  ∧ saveTimer (world run) = truthy (next_cursor resp) || saveTimer w
  ∧ processedMsgIds (world run) = processedMsgIds w
  ∧ Forall (λ e, save_kind e = true) (effects run).
Proof.
  unfold record_next_cursor, scheduleSaveCursors.
  destruct (truthy (next_cursor resp)); [|done].
  unfold bind, get, modify, emit, ret, result, world, effects. cbn.
  destruct (saveTimer w) eqn:Hpending; cbn; rewrite ?Hpending;
    repeat split; by repeat constructor.
Qed.

Section Pass.

Context (target : WebhookTarget) (callbackToken effective : option jsstring)
        (key : jsstring) (cold : bool) (cursor : jsstring) (w : World).

Local Abbreviation fetch :=
  (syncMessages env (account target)
     (build_sync_params callbackToken effective cursor) w).

(** A pass whose fetch fails: the error is logged and the loop is told to
    stop. *)
Lemma drain_iteration_failed :
  result fetch = Throw →
  drain_iteration env target callbackToken effective key cold cursor w
  = (Ok (cursor, false), world fetch,
     effects fetch ++ [Log LError SyncFailed]).
Proof.
  intros Hfetch. unfold drain_iteration.
  rewrite try_catch_eq, (bind_throw _ _ _ Hfetch).
  cbn [result world effects fst snd]. by rewrite emit_then.
Qed.

(** A pass whose fetch returns a page. *)
Lemma drain_iteration_fetched (resp : SyncMsgResponse) :
  result fetch = Ok resp →
  let stored := record_next_cursor key resp cursor (world fetch) in
  let cursor' :=
    if truthy (next_cursor resp) then next_cursor resp else cursor in
  let items := process_msgs env target (msg_list resp) (world stored) in
  drain_iteration env target callbackToken effective key cold cursor w
  = match msg_list resp with
    | [] =>
        (Ok (cursor', false), world stored, effects fetch ++ effects stored)
    | _ :: _ =>
        if cold then
          (Ok (cursor', has_more resp =? 1), world stored,
           effects fetch ++ effects stored
           ++ [Log LInfo (ColdSkipped (length (msg_list resp)))])
        else
          (Ok (cursor', has_more resp =? 1), world items,
           effects fetch ++ effects stored ++ effects items)
    end.
Proof.
  intros Hfetch stored cursor' items.
  destruct (record_next_cursor_run key resp cursor (world fetch))
    as (Hstored & _).
  fold stored cursor' in Hstored.
  unfold drain_iteration. rewrite try_catch_eq, (bind_ok _ _ _ _ Hfetch).
  cbn [result world effects fst snd].
  rewrite (bind_ok _ _ _ _ Hstored). fold stored.
  cbn [result world effects fst snd].
  destruct (msg_list resp) as [|msg msgs] eqn:Hlist.
  { cbn. by rewrite app_nil_r. }
  destruct cold.
  { rewrite emit_then. cbn. done. }
  destruct (process_msgs_returns env target (msg :: msgs) (world stored))
    as [[] Hitems].
  rewrite (bind_ok _ _ _ _ Hitems). cbn [result world effects fst snd].
  fold items. cbn. by rewrite app_nil_r.
Qed.

End Pass.

End Fetch.

(* ================================================================== *)
(** ** The drain *)
(* ================================================================== *)

Lemma cursor_follows_invariant key : Invariant (cursor_follows key).
Proof.
  split; [done|]. unfold cursor_follows.
  intros w w1 w2 es1 es2 H1 H2. by rewrite collect_app, foldl_app, <- H1.
Qed.

Section Drain.

Context (env : Env).

Lemma drain_loop_keeps R (HR : Invariant R) target callbackToken effective
    key cold :
  (∀ cursor, keeps R (drain_iteration env target callbackToken effective key
                        cold cursor)) →
  ∀ fuel cursor,
    keeps R (drain_loop env fuel target callbackToken effective key cold
               cursor).
Proof.
  intros Hpass. induction fuel as [|fuel IH]; intros cursor;
    cbn [drain_loop]; keeps_auto HR; auto.
Qed.

Lemma drain_iteration_cursor target callbackToken effective key cold cursor :
  keeps (cursor_follows key)
    (drain_iteration env target callbackToken effective key cold cursor).
Proof.
  intros w. unfold cursor_follows.
  set (fetch := syncMessages env (account target)
                  (build_sync_params callbackToken effective cursor) w).
  destruct (syncMessages_trace env (account target)
              (build_sync_params callbackToken effective cursor) w)
    as [_ Hfetched].
  destruct (syncMessages_step env (account target)
              (build_sync_params callbackToken effective cursor) w)
    as (_ & (_ & Hstore & _) & _).
  fold fetch in Hfetched, Hstore.
  destruct (result fetch) as [resp| |] eqn:Hfetch.
  - rewrite (drain_iteration_fetched env target callbackToken effective key
               cold cursor w resp Hfetch).
    destruct (record_next_cursor_run key resp cursor (world fetch))
      as (_ & Hcur & _ & _ & Hsaved).
    fold fetch.
    set (stored := record_next_cursor key resp cursor (world fetch)) in *.
    assert (fetched (effects stored) = []) as Hnone.
    { by apply (collect_class _ save_kind); [intros [] |]. }
    assert (cursorStore (world stored) !! key
            = advance (cursorStore w !! key) resp) as Hadv.
    { rewrite Hcur, Hstore. unfold advance.
      destruct (truthy (next_cursor resp)); [apply lookup_insert_eq | done]. }
    destruct (msg_list resp) as [|msg msgs]; [|destruct cold];
      cbn [world effects fst snd];
      rewrite !collect_app, Hfetched, ?Hnone; cbn [app foldl collect as_fetched];
      try done.
    destruct (process_msgs_step env target (msg :: msgs) (world stored))
      as (Hitems & _ & Hsame & _).
    rewrite (collect_class as_fetched item_kind _ ltac:(by intros []) Hitems).
    cbn [foldl]. by rewrite Hsame.
  - rewrite (drain_iteration_failed env target callbackToken effective key
               cold cursor w Hfetch).
    fold fetch. cbn [world effects fst snd].
    rewrite collect_app, Hfetched. cbn [app collect as_fetched foldl].
    by rewrite Hstore.
  - by destruct (syncMessages_fuel_free env (account target)
                   (build_sync_params callbackToken effective cursor) w).
Qed.

(** Whatever the number of passes, the cursor of the drained pair ends at
    the last non-empty [next_cursor] among the pages fetched, or where it
    was when there is none. *)
Lemma drain_loop_cursor fuel target callbackToken effective key cold cursor :
  keeps (cursor_follows key)
    (drain_loop env fuel target callbackToken effective key cold cursor).
Proof.
  apply drain_loop_keeps; [apply cursor_follows_invariant|].
  intros c. apply drain_iteration_cursor.
Qed.

Lemma pruneProcessedMsgIds_run w :
  result (pruneProcessedMsgIds env w) = Ok tt
  ∧ effects (pruneProcessedMsgIds env w) = [].
Proof. done. Qed.

Lemma loadCursors_run w :
  result (loadCursors env w) = Ok tt ∧ effects (loadCursors env w) = [].
Proof.
  unfold loadCursors, bind, get, tick, modify, ret, result, effects. cbn.
  destruct (cursorsLoaded w); [done|]. cbn.
  by destruct (read_cursor_file env (io w)).
Qed.

(** [pullAndDispatchMessages] is a warning when a guard fails, and else
    the loop, run from the world in which the dedup cache is pruned and
    the cursors are loaded. *)
Lemma pull_run fuel target callbackToken callbackOpenKfId w :
  let effective := or_else (openKfId (account target)) callbackOpenKfId in
  let key := getCursorKey (accountId (account target)) effective in
  let w0 :=
    world ((let* _ := pruneProcessedMsgIds env in loadCursors env) w) in
  let cursor := nullish (cursorStore w0 !! key) [] in
  let cold := negb (truthy cursor) in
  let loop :=
    drain_loop env fuel target callbackToken effective key cold cursor w0 in
  let run :=
    pullAndDispatchMessages env fuel target callbackToken callbackOpenKfId w in
  if truthy_opt (corpId (account target))
     && truthy_opt (corpSecret (account target)) && truthy_opt effective
  then
    run = (result loop, world loop,
           (if cold then [Log LInfo (ColdStartFor key)] else [])
           ++ effects loop)
  else ∃ line, result run = Ok tt ∧ effects run = [Log LWarn line].
Proof.
  intros effective key w0 cursor cold loop run.
  unfold run, pullAndDispatchMessages.
  destruct (truthy_opt (corpId (account target))); cbn [negb orb andb];
    [|by eexists].
  destruct (truthy_opt (corpSecret (account target))); cbn [negb orb andb];
    [|by eexists].
  destruct (pruneProcessedMsgIds_run w) as [Hprune Hquiet].
  rewrite (bind_ok _ _ _ _ Hprune), Hquiet. fold effective.
  destruct (truthy_opt effective) eqn:Heff; cbn [negb];
    [|by eexists].
  destruct (loadCursors_run (world (pruneProcessedMsgIds env w)))
    as [Hload Hquiet'].
  assert (w0 = world (loadCursors env (world (pruneProcessedMsgIds env w))))
    as Hw0.
  { unfold w0. by rewrite (bind_ok _ _ _ _ Hprune). }
  rewrite (bind_ok _ _ _ _ Hload), Hquiet', <- Hw0.
  cbn [result world effects fst snd app].
  rewrite bind_eq. cbn [get result world effects fst snd app].
  fold key cursor cold.
  destruct cold.
  - rewrite emit_then. cbn [result world effects fst snd]. by fold loop.
  - rewrite bind_eq. cbn [ret result world effects fst snd app]. by fold loop.
Qed.

End Drain.

(* ================================================================== *)
(** ** Cold start *)
(* ================================================================== *)

Section ColdStart.

Context (env : Env).

Lemma syncMessages_pump account params :
  keeps (λ _ _ es, Forall (λ e, pump_kind e = true) es)
    (syncMessages env account params).
Proof.
  eapply keeps_impl; [|apply syncMessages_step].
  intros w w' es (Hes & _). eapply Forall_impl; [apply Hes|]. by intros [].
Qed.

Lemma record_next_cursor_pump key resp cursor :
  keeps (λ _ _ es, Forall (λ e, pump_kind e = true) es)
    (record_next_cursor key resp cursor).
Proof.
  intros w. destruct (record_next_cursor_run key resp cursor w)
    as (_ & _ & _ & _ & Hes).
  eapply Forall_impl; [apply Hes|]. by intros [].
Qed.

(** In a cold start no pass hands an item on. *)
Lemma drain_loop_cold fuel target callbackToken effective key cursor :
  keeps (λ _ _ es, Forall (λ e, pump_kind e = true) es)
    (drain_loop env fuel target callbackToken effective key true cursor).
Proof.
  pose proof (only_invariant pump_kind) as HR.
  apply drain_loop_keeps; [done|]. intros c.
  unfold drain_iteration. cbv beta iota. keeps_auto HR;
    auto using syncMessages_pump, record_next_cursor_pump.
Qed.

End ColdStart.

Lemma foldl_advance_last (stored : option jsstring)
    (pages : list SyncMsgResponse) (final : SyncMsgResponse) :
  last pages = Some final →
  truthy (next_cursor final) = true →
  foldl advance stored pages = Some (next_cursor final).
Proof.
  intros [pages' ->]%last_Some Hnext.
  rewrite foldl_app. cbn. unfold advance. by rewrite Hnext.
Qed.

(** C2 (as amended). For every drain of a pair with no stored cursor that
    fetches at least one page: no item is handed on, neither to the event
    router nor to the dispatch collaborator, and the cursor store ends
    holding the last non-empty [next_cursor] among the pages fetched; that is
    the final page's [next_cursor] whenever that one is not empty. *)
Theorem cold_start_drain (env : Env) (fuel : nat) (target : WebhookTarget)
    (callbackToken callbackOpenKfId : option jsstring) (w : World) :
  let effective := or_else (openKfId (account target)) callbackOpenKfId in
  let key := getCursorKey (accountId (account target)) effective in
  let run :=
    pullAndDispatchMessages env fuel target callbackToken callbackOpenKfId w in
  cursor_on_entry env w key = None →
  fetched (effects run) ≠ [] →
  delivered (effects run) = []
  ∧ cursorStore (world run) !! key = foldl advance None (fetched (effects run))
  ∧ ∀ final,
      last (fetched (effects run)) = Some final →
      truthy (next_cursor final) = true →
      cursorStore (world run) !! key = Some (next_cursor final).
Proof.
  intros effective key run Hcold Hpages.
  pose proof (pull_run env fuel target callbackToken callbackOpenKfId w)
    as Hrun.
  cbv zeta in Hrun. fold effective key run in Hrun.
  unfold cursor_on_entry in Hcold.
  destruct (truthy_opt (corpId (account target))
            && truthy_opt (corpSecret (account target))
            && truthy_opt effective).
  2: { destruct Hrun as (line & _ & Hes). by rewrite Hes in Hpages. }
  rewrite Hcold in Hrun. cbn [nullish truthy negb] in Hrun.
  set (loop := drain_loop env fuel target callbackToken effective key true []
                 _) in Hrun.
  pose proof (drain_loop_cold env fuel target callbackToken effective key [] _
              : Forall _ (effects loop)) as Hquiet.
  pose proof (drain_loop_cursor env fuel target callbackToken effective key
                true [] _ : cursor_follows key _ (world loop) (effects loop))
    as Hfollows.
  unfold cursor_follows in Hfollows. rewrite Hcold in Hfollows.
  assert (fetched (effects run) = fetched (effects loop)) as Hsame.
  { by rewrite Hrun. }
  assert (cursorStore (world run) !! key
          = foldl advance None (fetched (effects run))) as Hend.
  { rewrite Hsame. by rewrite Hrun. }
  split; [|split; [done|]].
  - rewrite Hrun. cbn [effects snd app collect as_delivered].
    apply (collect_class as_delivered pump_kind); [by intros [] | done].
  - intros final Hlast Hnext. rewrite Hend.
    by apply foldl_advance_last.
Qed.

Lemma cold_start_drain_witness :
  delivered (effects Sample.cold_run) = []
  ∧ cursorStore (world Sample.cold_run) !! Sample.key = Some (lit "c2").
Proof.
  destruct (cold_start_drain (Sample.world_of Sample.history None) 5
              (Sample.target_of Sample.tenant) None None
              (Sample.started ∅ [Sample.target_of Sample.tenant]))
    as (Hnone & _ & Hfinal).
  - by vm_compute.
  - by vm_compute.
  - split; [exact Hnone|].
    apply (Hfinal (Sample.page "c2" 0 [Sample.item "m2" 3 "text"]));
      by vm_compute.
Defined.

(** C2 as stated fails: a cold start over two pages with one item each,
    the second page without a next cursor, ends with the first page's
    cursor in the store, not the final page's. *)
Lemma cold_start_final_cursor_not_held :
  cursor_on_entry (Sample.world_of Sample.history_open None)
    (Sample.started ∅ [Sample.target_of Sample.tenant]) Sample.key = None
  ∧ fetched (effects Sample.cold_run_open)
    = [Sample.page "c1" 1 [Sample.item "m1" 3 "text"];
       Sample.page "" 0 [Sample.item "m2" 3 "text"]]
  ∧ result Sample.cold_run_open = Ok tt
  ∧ cursorStore (world Sample.cold_run_open) !! Sample.key = Some (lit "c1")
  ∧ cursorStore (world Sample.cold_run_open) !! Sample.key
    ≠ Some (next_cursor (Sample.page "" 0 [Sample.item "m2" 3 "text"])).
Proof. by vm_compute. Qed.

Lemma enter_session_welcome_witness :
  welcome_calls
    (effects (handleKfEvent (Sample.world_of [] None)
                (Sample.entering (Some (lit "wc"))) Sample.tenant
                (Sample.started ∅ [])))
  = [(lit "wc", lit "hi")].
Proof.
  exact (enter_session_welcome (Sample.world_of [] None)
           (Sample.entering (Some (lit "wc"))) Sample.tenant
           (Sample.started ∅ []) (Sample.enter_session (Some (lit "wc")))
           eq_refl eq_refl).
Defined.

(** C7 as stated fails: the event carries a welcome code and the configured
    welcome text is the non-empty string of one space, yet no welcome send
    is made. *)
Lemma enter_session_blank_text_no_welcome :
  welcome_code (Sample.enter_session (Some (lit "wc"))) = Some (lit "wc")
  ∧ welcomeText (config Sample.tenant_blank) = Some (lit " ")
  ∧ lit " " ≠ []
  ∧ welcome_calls
      (effects (handleKfEvent (Sample.world_of [] None)
                  (Sample.entering (Some (lit "wc"))) Sample.tenant_blank
                  (Sample.started ∅ [])))
    = [].
Proof. by vm_compute. Qed.

Lemma splitMessageByBytes_chunks_witness :
  concat (splitMessageByBytes (lit "hello world") 4) = lit "hello world"
  ∧ Forall (λ chunk, chunk ≠ []) (splitMessageByBytes (lit "hello world") 4)
  ∧ Forall (λ chunk, byteLength chunk ≤ 4)
           (splitMessageByBytes (lit "hello world") 4).
Proof.
  destruct (splitMessageByBytes_chunks (lit "hello world") 4)
    as (Hconcat & Hnonempty & Hbound); [lia|].
  split; [exact Hconcat | split; [exact Hnonempty |]].
  apply Hbound. vm_compute. repeat constructor; discriminate.
Defined.

(* ================================================================== *)
(** ** Origin filter *)
(* ================================================================== *)

Section OriginFilter.

Context (env : Env).

Local Abbreviation only cls :=
  (λ (_ _ : World) (es : list Effect), Forall (λ e, cls e = true) es).

Lemma pump_customer_only (e : Effect) :
  pump_kind e = true → customer_only e = true.
Proof. by destruct e. Qed.

Lemma deliver_msg_customer_only target msg :
  keeps (only customer_only) (deliver_msg env target msg).
Proof.
  pose proof (only_invariant customer_only) as HR.
  unfold deliver_msg.
  destruct (decide (msgtype msg = lit "event")) as [|Hcontent].
  { intros w. destruct (handleKfEvent_run env msg (account target) w)
      as (rest & -> & Hrest & _).
    constructor; [done|]. eapply Forall_impl; [apply Hrest|]. by intros []. }
  destruct (origin msg =? 3) eqn:Hcustomer; cbn [negb];
    [|apply (keeps_ret _ HR)].
  apply Z.eqb_eq in Hcustomer.
  keeps_auto HR.
  intros w. destruct (dispatchKfMessage_run env msg w) as (-> & _).
  repeat constructor. cbn. by apply bool_decide_eq_true.
Qed.

Lemma process_msgs_customer_only target msgs :
  keeps (only customer_only) (process_msgs env target msgs).
Proof.
  pose proof (only_invariant customer_only) as HR.
  induction msgs as [|msg msgs IH]; cbn [process_msgs]; keeps_auto HR;
    [|done].
  unfold process_msg, isDuplicate. keeps_auto HR.
  apply deliver_msg_customer_only.
Qed.

Lemma pull_customer_only fuel target callbackToken callbackOpenKfId :
  keeps (only customer_only)
    (pullAndDispatchMessages env fuel target callbackToken callbackOpenKfId).
Proof.
  pose proof (only_invariant customer_only) as HR.
  unfold pullAndDispatchMessages, pruneProcessedMsgIds, loadCursors.
  keeps_auto HR.
  all: apply drain_loop_keeps; [done|]; intros c.
  all: unfold drain_iteration; keeps_auto HR;
    auto using process_msgs_customer_only.
  all: first
    [ eapply keeps_impl; [|apply syncMessages_pump]
    | eapply keeps_impl; [|apply record_next_cursor_pump] ].
  all: intros ? ? es Hes; eapply Forall_impl; [apply Hes|];
    apply pump_customer_only.
Qed.

End OriginFilter.

(** C4. In every drain, an item is forwarded to the dispatch collaborator
    only if its origin is 3 (and it is not an event, which goes to the event
    router): an item whose origin is not 3 is never dispatched, whatever its
    message type. *)
Theorem origin_filter (env : Env) (fuel : nat) (target : WebhookTarget)
    (callbackToken callbackOpenKfId : option jsstring) (w : World)
    (msg : SyncMsgItem) :
  msg ∈ dispatched
          (effects (pullAndDispatchMessages env fuel target callbackToken
                      callbackOpenKfId w)) →
  origin msg = 3 ∧ msgtype msg ≠ lit "event".
Proof.
  intros Hin.
  pose proof (pull_customer_only env fuel target callbackToken
                callbackOpenKfId w) as Hall.
  cbv beta in Hall.
  induction Hall as [|e es He _ IH]; [by apply elem_of_nil in Hin|].
  destruct e; cbn [collect as_dispatched] in Hin; auto.
  apply elem_of_cons in Hin as [->|Hin]; [|auto].
  by apply bool_decide_eq_true in He.
Qed.

Lemma origin_filter_witness :
  origin (Sample.item "m1" 3 "text") = 3
  ∧ msgtype (Sample.item "m1" 3 "text") ≠ lit "event".
Proof.
  apply (origin_filter (Sample.world_of Sample.scenario_b None) 5
           (Sample.target_of Sample.tenant) None None
           (Sample.started {[ Sample.key := lit "c1" ]}
              [Sample.target_of Sample.tenant])).
  vm_compute. apply elem_of_cons. by left.
Defined.

(* ================================================================== *)
(** ** Deduplication *)
(* ================================================================== *)

Lemma dedup_step_invariant : Invariant dedup_step.
Proof.
  split.
  - intros w. split; [done|]. intros id _. cbn. split; [lia|lia].
  - intros w w1 w2 es1 es2 [Hgrow1 Hids1] [Hgrow2 Hids2].
    split; [by auto|]. intros id Hid.
    destruct (Hids1 id Hid) as [Hle1 Hnew1], (Hids2 id Hid) as [Hle2 Hnew2].
    rewrite deliveries_of_app.
    destruct (decide (0 < deliveries_of id es2)%nat) as [Hpos2|Hzero2].
    + destruct (Hnew2 Hpos2) as [Hfresh Hthen].
      assert (deliveries_of id es1 = 0%nat) as ->.
      { destruct (decide (0 < deliveries_of id es1)%nat) as [Hpos1|]; [|lia].
        destruct (Hnew1 Hpos1) as [_ [? Hin]]. congruence. }
      split; [lia|]. intros _. split; [|done].
      destruct (processedMsgIds w !! id) eqn:Hw; [|done].
      destruct (Hgrow1 id) as [? Hin]; [by eexists | congruence].
    + split; [lia|]. intros Hpos.
      destruct Hnew1 as [Hfresh Hthen]; [lia|]. auto.
Qed.

(** A step that hands nothing on and leaves the dedup cache alone. *)
Lemma quiet_dedup_step (w w' : World) (es : list Effect) :
  processedMsgIds w' = processedMsgIds w →
  delivered es = [] →
  dedup_step w w' es.
Proof.
  intros Hsame Hnone. unfold dedup_step, deliveries_of.
  rewrite Hsame, Hnone. split; [done|]. intros id _. cbn. lia.
Qed.

Section Dedup.

Context (env : Env).

(** First sight of an id: it is recorded with the time of the call and the
    answer is [false]. *)
Lemma isDuplicate_fresh msgid w :
  processedMsgIds w !! msgid = None →
  result (isDuplicate env msgid w) = Ok false
  ∧ effects (isDuplicate env msgid w) = []
  ∧ processedMsgIds (world (isDuplicate env msgid w))
    = <[msgid := Date_now env (io w)]> (processedMsgIds w)
  ∧ same_cursors w (world (isDuplicate env msgid w)).
Proof.
  intros Hfresh.
  unfold isDuplicate, now, bind, get, tick, modify, ret, result, world,
    effects. cbn. by rewrite Hfresh.
Qed.

(** A later sight: the answer is [true] and nothing changes. *)
Lemma isDuplicate_seen msgid w :
  is_Some (processedMsgIds w !! msgid) →
  isDuplicate env msgid w = (Ok true, w, []).
Proof.
  intros [ts Hseen]. unfold isDuplicate, bind, get, ret. cbn.
  by rewrite Hseen.
Qed.

(** What [deliver_msg] hands on is the item it was given, at most once, and
    it leaves the dedup cache alone. *)
Lemma deliver_msg_run target msg w :
  processedMsgIds (world (deliver_msg env target msg w)) = processedMsgIds w
  ∧ (delivered (effects (deliver_msg env target msg w)) = [msg]
     ∨ delivered (effects (deliver_msg env target msg w)) = []).
Proof.
  unfold deliver_msg.
  destruct (decide (msgtype msg = lit "event")).
  { destruct (handleKfEvent_run env msg (account target) w)
      as (rest & -> & Hrest & _ & Hsame).
    split; [done|]. left. cbn [collect as_delivered]. f_equal.
    by apply (collect_class as_delivered event_kind); [intros [] |]. }
  destruct (negb (origin msg =? 3)); [by split; [|right]|].
  destruct (core env); [|by split; [|right]].
  rewrite try_catch_eq, bind_eq.
  destruct (dispatchKfMessage_run env msg w) as (Hes & _ & Hsame).
  destruct (result (dispatchKfMessage env msg w)) as [[]| |] eqn:Hres.
  - cbn [result world effects fst snd]. rewrite Hes.
    destruct (statusSink target); cbn; (split; [exact Hsame | by left]).
  - cbn [result world effects fst snd]. rewrite Hes. cbn.
    split; [exact Hsame | by left].
  - by destruct (dispatchKfMessage_fuel_free env msg w).
Qed.

Lemma process_msg_dedup target msg :
  keeps dedup_step (process_msg env target msg).
Proof.
  intros w. unfold process_msg.
  assert (∀ w1,
            (∀ id, is_Some (processedMsgIds w !! id) →
                   is_Some (processedMsgIds w1 !! id)) →
            (msgid msg ≠ [] →
             processedMsgIds w !! msgid msg = None
             ∧ is_Some (processedMsgIds w1 !! msgid msg)) →
            dedup_step w (world (deliver_msg env target msg w1))
              (effects (deliver_msg env target msg w1))) as Hdeliver.
  { intros w1 Hgrow Hnew.
    destruct (deliver_msg_run target msg w1) as [Hsame Hone].
    split; [by rewrite Hsame|]. intros id Hid. unfold deliveries_of.
    rewrite Hsame.
    destruct Hone as [-> | ->]; cbn; [|split; lia].
    destruct (decide (msgid msg = id)) as [<-|];
      cbn; split; try lia. intros _. by apply Hnew. }
  rewrite bind_eq.
  destruct (truthy (msgid msg)) eqn:Hid.
  - destruct (processedMsgIds w !! msgid msg) as [ts|] eqn:Hseen.
    + rewrite isDuplicate_seen by by eexists.
      cbn. apply dedup_step_invariant.
    + destruct (isDuplicate_fresh (msgid msg) w Hseen)
        as (-> & -> & Hrec & _).
      cbn [result world effects fst snd app]. apply Hdeliver.
      * intros id Hin. rewrite Hrec.
        destruct (decide (msgid msg = id)) as [<-|Hne];
          [rewrite lookup_insert_eq; by eexists
          | by rewrite lookup_insert_ne].
      * intros _. split; [done|]. rewrite Hrec, lookup_insert_eq. by eexists.
  - cbn [ret result world effects fst snd app]. apply Hdeliver; [done|].
    intros Hne. by destruct (msgid msg).
Qed.

Lemma process_msgs_dedup target msgs :
  keeps dedup_step (process_msgs env target msgs).
Proof.
  pose proof dedup_step_invariant as HR.
  induction msgs as [|msg msgs IH]; cbn [process_msgs]; keeps_auto HR;
    [apply process_msg_dedup | done].
Qed.

Lemma drain_loop_dedup fuel target callbackToken effective key cold cursor :
  keeps dedup_step
    (drain_loop env fuel target callbackToken effective key cold cursor).
Proof.
  pose proof dedup_step_invariant as HR.
  apply drain_loop_keeps; [done|]. intros c.
  unfold drain_iteration. keeps_auto HR; auto using process_msgs_dedup.
  - intros w.
    destruct (syncMessages_step env (account target)
                (build_sync_params callbackToken effective c) w)
      as (Hes & _ & Hsame).
    apply quiet_dedup_step; [done|].
    by apply (collect_class as_delivered sync_kind); [intros [] |].
  - intros w.
    destruct (record_next_cursor_run key a c w) as (_ & _ & _ & Hsame & Hes).
    apply quiet_dedup_step; [done|].
    by apply (collect_class as_delivered save_kind); [intros [] |].
  - intros w. by apply quiet_dedup_step.
  - intros w. by apply quiet_dedup_step.
Qed.

End Dedup.

(** C3 (as amended). For every warm-start drain and every non-empty
    message id, at most one item with that id is handed on, whether its
    copies sit on one page or on several. The first call of [isDuplicate]
    for an id records it with the time of the call and returns [false];
    a later call returns [true] and changes nothing, so [process_msg]
    skips the item; and a prune within the TTL window of an entry keeps
    the entry. *)
Theorem dedup_at_most_once (env : Env) (fuel : nat) (target : WebhookTarget)
    (callbackToken callbackOpenKfId : option jsstring) (w : World)
    (id : jsstring) :
  let effective := or_else (openKfId (account target)) callbackOpenKfId in
  let key := getCursorKey (accountId (account target)) effective in
  let run :=
    pullAndDispatchMessages env fuel target callbackToken callbackOpenKfId w in
  id ≠ [] →
  (∃ cursor, cursor_on_entry env w key = Some cursor ∧ cursor ≠ []) →
  (deliveries_of id (effects run) ≤ 1)%nat
  ∧ (∀ w1, processedMsgIds w1 !! id = None →
       result (isDuplicate env id w1) = Ok false
       ∧ processedMsgIds (world (isDuplicate env id w1)) !! id
         = Some (Date_now env (io w1)))
  ∧ (∀ w1, is_Some (processedMsgIds w1 !! id) →
       isDuplicate env id w1 = (Ok true, w1, []))
  ∧ (∀ w1 msg, msgid msg = id → is_Some (processedMsgIds w1 !! id) →
       process_msg env target msg w1 = (Ok tt, w1, []))
  ∧ (∀ w1 ts, processedMsgIds w1 !! id = Some ts →
       Date_now env (io w1) - DEDUP_TTL_MS ≤ ts →
       processedMsgIds (world (pruneProcessedMsgIds env w1)) !! id = Some ts).
Proof.
  intros effective key run Hid _. repeat apply conj.
  - pose proof (pull_run env fuel target callbackToken callbackOpenKfId w)
      as Hrun.
    cbv zeta in Hrun. fold effective key run in Hrun.
    destruct (truthy_opt (corpId (account target))
              && truthy_opt (corpSecret (account target))
              && truthy_opt effective).
    + rewrite Hrun. cbn [effects snd]. rewrite deliveries_of_app.
      match goal with
      | |- context [drain_loop env fuel target callbackToken effective key
                      ?cold ?cursor ?w0] =>
          destruct (drain_loop_dedup env fuel target callbackToken effective
                      key cold cursor w0) as [_ Hids]
      end.
      destruct (Hids id Hid) as [Hle _].
      assert (∀ flag : bool,
                deliveries_of id
                  (if flag then [Log LInfo (ColdStartFor key)] else [])
                = 0%nat) as Hlog by by intros [].
      rewrite Hlog. lia.
    + destruct Hrun as (line & _ & ->). cbn. lia.
  - intros w1 Hfresh.
    destruct (isDuplicate_fresh env id w1 Hfresh) as (Hres & _ & Hrec & _).
    split; [done|]. by rewrite Hrec, lookup_insert_eq.
  - intros w1. apply isDuplicate_seen.
  - intros w1 msg Hmsg Hseen. unfold process_msg. rewrite bind_eq, Hmsg.
    destruct id; [done|]. cbn [truthy].
    by rewrite (isDuplicate_seen env _ w1 Hseen).
  - intros w1 ts Hseen Hwindow.
    unfold pruneProcessedMsgIds, now, bind, tick, modify, ret, world. cbn.
    by apply map_lookup_filter_Some.
Qed.

Lemma dedup_at_most_once_witness :
  (deliveries_of (lit "m1") (effects Sample.warm_run) ≤ 1)%nat
  ∧ processedMsgIds
      (world (pruneProcessedMsgIds (Sample.world_of Sample.scenario_b None)
                (world Sample.warm_run)))
    !! lit "m1" = Some 1004.
Proof.
  destruct (dedup_at_most_once (Sample.world_of Sample.scenario_b None) 5
              (Sample.target_of Sample.tenant) None None
              (Sample.started {[ Sample.key := lit "c1" ]}
                 [Sample.target_of Sample.tenant]) (lit "m1"))
    as (Honce & _ & _ & _ & Hkept).
  - by vm_compute.
  - exists (lit "c1"). by vm_compute.
  - split; [exact Honce|]. apply Hkept; by vm_compute.
Defined.

(** C3 as stated fails: in a warm-start drain, two items of one page that
    share the empty message id are both dispatched. *)
Lemma empty_id_dispatched_twice :
  cursor_on_entry (Sample.world_of Sample.anonymous None)
    (Sample.started {[ Sample.key := lit "c1" ]}
       [Sample.target_of Sample.tenant]) Sample.key = Some (lit "c1")
  ∧ msgid <$> concat (msg_list <$> fetched (effects Sample.anonymous_run))
    = [[]; []]
  ∧ dispatched (effects Sample.anonymous_run)
    = [Sample.item "" 3 "text"; Sample.item "" 3 "text"]
  ∧ deliveries_of [] (effects Sample.anonymous_run) = 2%nat.
Proof. by vm_compute. Qed.

(* ================================================================== *)
(** ** Paging and upstream errors *)
(* ================================================================== *)

Section Paging.

Context (env : Env).

(** How a call of [syncMessages] ends, read off the upstream's answers. *)
Lemma syncMessages_result account params w :
  result (syncMessages env account params w) =
  match result (getAccessToken env account w) with
  | Ok accessToken =>
      match fetch_sync_msg env (io (world (getAccessToken env account w)))
              accessToken (sync_body params) with
      | Rejected => Throw
      | Json data =>
          if failed_errcode (errcode data) then Throw else Ok data
      end
  | Throw => Throw
  | OutOfFuel => OutOfFuel
  end.
Proof.
  unfold syncMessages. rewrite emit_then. cbn [result fst].
  rewrite bind_eq.
  destruct (result (getAccessToken env account w)) as [tok| |]; [|done..].
  cbn [result fst]. rewrite emit_then. cbn [result fst].
  rewrite bind_eq. cbn [tick result world effects fst snd].
  destruct (fetch_sync_msg env _ tok (sync_body params)) as [|data]; [done|].
  by destruct (failed_errcode (errcode data)).
Qed.

Lemma fetch_fails_throws account params w :
  fetch_fails env account params w →
  result (syncMessages env account params w) = Throw.
Proof.
  unfold fetch_fails. rewrite syncMessages_result.
  pose proof (getAccessToken_fuel_free env account w) as Hfuel.
  destruct (result (getAccessToken env account w)) as [tok| |]; [|done..].
  destruct (fetch_sync_msg env _ tok (sync_body params)) as [|data]; [done|].
  intros (code & -> & Hcode). cbn.
  by destruct (Z.eqb_spec code 0).
Qed.

Section Pass.

Context (target : WebhookTarget) (callbackToken effective : option jsstring)
        (key : jsstring) (cold : bool).

Local Abbreviation pass :=
  (drain_iteration env target callbackToken effective key cold).
Local Abbreviation loop fuel :=
  (drain_loop env fuel target callbackToken effective key cold).
Local Abbreviation fetch cursor :=
  (syncMessages env (account target)
     (build_sync_params callbackToken effective cursor)).

(** Every pass calls [syncMessages] once. *)
Lemma drain_iteration_sync_calls cursor w :
  sync_calls (effects (pass cursor w))
  = [build_sync_params callbackToken effective cursor].
Proof.
  destruct (syncMessages_trace env (account target)
              (build_sync_params callbackToken effective cursor) w)
    as [Hcalls _].
  destruct (result (fetch cursor w)) as [resp| |] eqn:Hfetch.
  - rewrite (drain_iteration_fetched env target callbackToken effective key
               cold cursor w resp Hfetch).
    destruct (record_next_cursor_run key resp cursor (world (fetch cursor w)))
      as (_ & _ & _ & _ & Hsaved).
    assert (sync_calls
              (effects (record_next_cursor key resp cursor
                          (world (fetch cursor w)))) = []) as Hnone.
    { by apply (collect_class as_sync_call save_kind); [intros [] |]. }
    destruct (msg_list resp) as [|msg msgs]; [|destruct cold];
      cbn [effects snd]; rewrite !collect_app, Hcalls, Hnone; try done.
    destruct (process_msgs_step env target (msg :: msgs)
                (world (record_next_cursor key resp cursor
                          (world (syncMessages env (account target)
                                    (build_sync_params callbackToken
                                       effective cursor) w)))))
      as (Hitems & _).
    by rewrite (collect_class as_sync_call item_kind _
                  ltac:(by intros []) Hitems).
  - rewrite (drain_iteration_failed env target callbackToken effective key
               cold cursor w Hfetch).
    cbn [effects snd]. rewrite collect_app, Hcalls. done.
  - by destruct (syncMessages_fuel_free env (account target)
                   (build_sync_params callbackToken effective cursor) w).
Qed.

Lemma drain_loop_S fuel cursor :
  loop (S fuel) cursor
  = (let* next := pass cursor in
     if next.2 then loop fuel next.1 else ret tt).
Proof. reflexivity. Qed.

(** The first pass of the loop is always made. *)
Lemma drain_loop_first_call fuel cursor w :
  ∃ later,
    sync_calls (effects (loop (S fuel) cursor w))
    = build_sync_params callbackToken effective cursor :: later.
Proof.
  rewrite drain_loop_S, effects_bind, collect_app.
  rewrite drain_iteration_sync_calls. by eexists.
Qed.

End Pass.

End Paging.

(** C5 (as amended). After each pass of the drain whose paged fetch returns
    a page, the page's next-pointer, when it is not empty, is in the cursor
    store under the key of the drained pair and the debounced save is
    scheduled (an empty next-pointer leaves the store as it was); and the
    loop makes another fetch if and only if the more-pages flag of the page
    is 1 and the page carries at least one item. *)
Theorem pass_stores_cursor_and_continues (env : Env) (fuel : nat)
    (target : WebhookTarget) (callbackToken effective : option jsstring)
    (key : jsstring) (cold : bool) (cursor : jsstring) (w : World)
    (resp : SyncMsgResponse) :
  let params := build_sync_params callbackToken effective cursor in
  let pass :=
    drain_iteration env target callbackToken effective key cold cursor w in
  let loop :=
    drain_loop env (S (S fuel)) target callbackToken effective key cold
      cursor w in
  result (syncMessages env (account target) params w) = Ok resp →
  cursorStore (world pass) !! key = advance (cursorStore w !! key) resp
  ∧ (next_cursor resp ≠ [] →
     cursorStore (world pass) !! key = Some (next_cursor resp)
     ∧ saveTimer (world pass) = true)
  ∧ ((2 ≤ length (sync_calls (effects loop)))%nat
     ↔ has_more resp = 1 ∧ msg_list resp ≠ []).
Proof.
  intros params pass loop Hfetch.
  pose proof (drain_iteration_cursor env target callbackToken effective key
                cold cursor w) as Hfollows.
  pose proof (syncMessages_trace env (account target) params w)
    as [_ Hfetched].
  pose proof (drain_iteration_fetched env target callbackToken effective key
                cold cursor w resp Hfetch) as Hpass.
  cbv zeta in Hpass. fold pass params in Hpass, Hfollows.
  destruct (syncMessages_step env (account target) params w)
    as (_ & (_ & _ & _ & Htimer) & _).
  destruct (record_next_cursor_run key resp cursor
              (world (syncMessages env (account target) params w)))
    as (_ & _ & Htimer' & _ & Hsaved).
  cbv zeta in Htimer'.
  set (stored := record_next_cursor key resp cursor
                   (world (syncMessages env (account target) params w))) in *.
  assert (fetched (effects pass) = [resp]) as Hpages.
  { assert (fetched (effects stored) = []) as Hnone.
    { by apply (collect_class as_fetched save_kind); [intros [] |]. }
    rewrite Hfetch in Hfetched. rewrite Hpass.
    destruct (msg_list resp) as [|msg msgs]; [|destruct cold];
      cbn [effects snd]; rewrite !collect_app, Hfetched, Hnone; try done.
    destruct (process_msgs_step env target (msg :: msgs) (world stored))
      as (Hitems & _).
    by rewrite (collect_class as_fetched item_kind _
                  ltac:(by intros []) Hitems). }
  assert (cursorStore (world pass) !! key
          = advance (cursorStore w !! key) resp) as Hstore.
  { unfold cursor_follows in Hfollows. by rewrite Hfollows, Hpages. }
  assert (saveTimer (world pass) = saveTimer (world stored)) as Hkept.
  { rewrite Hpass.
    destruct (msg_list resp) as [|msg msgs]; [|destruct cold]; try done.
    by destruct (process_msgs_step env target (msg :: msgs) (world stored))
      as (_ & _ & _ & _ & ?). }
  assert (result pass
          = Ok (if truthy (next_cursor resp) then next_cursor resp else cursor,
                (has_more resp =? 1)
                && bool_decide (msg_list resp ≠ []))) as Hres.
  { rewrite Hpass.
    destruct (msg_list resp) as [|msg msgs]; [|destruct cold]; cbn;
      by rewrite ?andb_false_r, ?andb_true_r. }
  split; [done|]. split.
  - intros Hnext. apply truthy_true in Hnext.
    split; [by rewrite Hstore; unfold advance; rewrite Hnext|].
    by rewrite Hkept, Htimer', Hnext.
  - unfold loop.
    rewrite (drain_loop_S env target callbackToken effective key cold).
    rewrite effects_bind, collect_app.
    rewrite (drain_iteration_sync_calls env target callbackToken effective
               key cold cursor w).
    fold pass. rewrite Hres.
    cbn [snd fst length app].
    destruct (Z.eqb_spec (has_more resp) 1) as [Hmore|Hmore];
      [destruct (msg_list resp) as [|msg msgs] eqn:Hlist|]; cbn [andb].
    + cbn. split; [lia | by intros [_ ?]].
    + rewrite bool_decide_eq_true_2 by done.
      destruct (drain_loop_first_call env target callbackToken effective key
                  cold fuel
                  (if truthy (next_cursor resp) then next_cursor resp
                   else cursor) (world pass)) as [later ->].
      cbn. split; [done | lia].
    + cbn. split; [lia | by intros [? _]].
Qed.

Lemma pass_stores_cursor_and_continues_witness :
  cursorStore
    (world (drain_iteration (Sample.world_of Sample.scenario_b None)
              (Sample.target_of Sample.tenant) None (Some (lit "wk1"))
              Sample.key false (lit "c1")
              (Sample.started {[ Sample.key := lit "c1" ]}
                 [Sample.target_of Sample.tenant])))
  !! Sample.key = Some (lit "c2")
  ∧ (2 ≤ length
           (sync_calls
              (effects (drain_loop (Sample.world_of Sample.scenario_b None) 2
                          (Sample.target_of Sample.tenant) None
                          (Some (lit "wk1")) Sample.key false (lit "c1")
                          (Sample.started {[ Sample.key := lit "c1" ]}
                             [Sample.target_of Sample.tenant])))))%nat.
Proof.
  destruct (pass_stores_cursor_and_continues
              (Sample.world_of Sample.scenario_b None) 0
              (Sample.target_of Sample.tenant) None (Some (lit "wk1"))
              Sample.key false (lit "c1")
              (Sample.started {[ Sample.key := lit "c1" ]}
                 [Sample.target_of Sample.tenant])
              (Sample.page "c2" 1
                 [Sample.item "m1" 3 "text"; Sample.item "m2" 4 "text"]))
    as (_ & Hstored & Hmore).
  - by vm_compute.
  - split; [apply Hstored; by vm_compute | apply Hmore; by vm_compute].
Defined.

(** C5 as stated fails: the fetch returns a page whose more-pages flag is
    set, yet the loop makes no other fetch, the page carrying no item. *)
Lemma more_flag_set_but_no_second_fetch :
  fetched (effects Sample.hollow_run) = [Sample.page "c2" 1 []]
  ∧ has_more (Sample.page "c2" 1 []) = 1
  ∧ result Sample.hollow_run = Ok tt
  ∧ length (sync_calls (effects Sample.hollow_run)) = 1%nat.
Proof. by vm_compute. Qed.

(** C6. When a paged fetch of a drain fails (no access token, an HTTP
    exchange that throws, or a reply with a non-zero result code) the loop
    ends there: the drain returns, the failure is logged, the cursor store
    is as the passes before left it, and [syncMessages] is not called
    again. Over a whole drain that reaches the loop, the cursor of the
    drained pair ends at the last non-empty [next_cursor] among the pages
    fetched, and where the drain found it when there is none. *)
Theorem failed_fetch_ends_drain (env : Env) (fuel : nat)
    (target : WebhookTarget) (callbackToken effective : option jsstring)
    (key : jsstring) (cold : bool) (cursor : jsstring) (w : World) :
  let params := build_sync_params callbackToken effective cursor in
  let rest :=
    drain_loop env (S fuel) target callbackToken effective key cold cursor w in
  fetch_fails env (account target) params w →
  (result rest = Ok tt
   ∧ cursorStore (world rest) = cursorStore w
   ∧ sync_calls (effects rest) = [params]
   ∧ fetched (effects rest) = []
   ∧ Log LError SyncFailed ∈ effects rest)
  ∧ ∀ callbackOpenKfId w0,
      let drain :=
        pullAndDispatchMessages env (S fuel) target callbackToken
          callbackOpenKfId w0 in
      let effective0 := or_else (openKfId (account target)) callbackOpenKfId in
      let key0 := getCursorKey (accountId (account target)) effective0 in
      sync_calls (effects drain) ≠ [] →
      cursorStore (world drain) !! key0
      = foldl advance (cursor_on_entry env w0 key0) (fetched (effects drain)).
Proof.
  intros params rest Hfails. split.
  - apply fetch_fails_throws in Hfails.
    pose proof (drain_iteration_failed env target callbackToken effective key
                  cold cursor w Hfails) as Hpass.
    destruct (syncMessages_trace env (account target) params w)
      as [Hcalls Hfetched].
    destruct (syncMessages_step env (account target) params w)
      as (_ & (_ & Hstore & _) & _).
    fold params in Hpass. rewrite Hfails in Hfetched.
    assert (rest = (Ok tt,
                    world (syncMessages env (account target) params w),
                    (effects (syncMessages env (account target) params w)
                     ++ [Log LError SyncFailed]) ++ [])) as ->.
    { unfold rest. cbn [drain_loop]. rewrite bind_eq, Hpass. done. }
    cbn [result world effects fst snd]. rewrite app_nil_r, !collect_app.
    rewrite Hcalls, Hfetched. repeat split; try done.
    apply elem_of_app. right. apply elem_of_cons. by left.
  - intros callbackOpenKfId w0 drain effective0 key0 Hcalled.
    pose proof (pull_run env (S fuel) target callbackToken callbackOpenKfId w0)
      as Hrun.
    cbv zeta in Hrun. fold effective0 key0 drain in Hrun.
    destruct (truthy_opt (corpId (account target))
              && truthy_opt (corpSecret (account target))
              && truthy_opt effective0).
    2: { destruct Hrun as (line & _ & Hes). by rewrite Hes in Hcalled. }
    unfold cursor_on_entry.
    match type of Hrun with
    | context [drain_loop env (S fuel) target callbackToken effective0 key0
                 ?cold0 ?cursor0 ?w1] =>
        pose proof (drain_loop_cursor env (S fuel) target callbackToken
                      effective0 key0 cold0 cursor0 w1) as Hfollows
    end.
    unfold cursor_follows in Hfollows. rewrite Hrun.
    cbn [world effects fst snd]. rewrite collect_app, Hfollows.
    f_equal. by destruct (negb _).
Qed.

Lemma failed_fetch_ends_drain_witness :
  result (drain_loop (Sample.world_of Sample.broken None) 5
            (Sample.target_of Sample.tenant) None (Some (lit "wk1"))
            Sample.key false (lit "c2")
            (Sample.started {[ Sample.key := lit "c2" ]}
               [Sample.target_of Sample.tenant])) = Ok tt
  ∧ cursorStore (world Sample.broken_run) !! Sample.key = Some (lit "c2").
Proof.
  destruct (failed_fetch_ends_drain (Sample.world_of Sample.broken None) 4
              (Sample.target_of Sample.tenant) None (Some (lit "wk1"))
              Sample.key false (lit "c2")
              (Sample.started {[ Sample.key := lit "c2" ]}
                 [Sample.target_of Sample.tenant]))
    as ((Hends & _) & Hwhole).
  - by vm_compute.
  - split; [exact Hends|].
    specialize (Hwhole None
                  (Sample.started {[ Sample.key := lit "c1" ]}
                     [Sample.target_of Sample.tenant])).
    cbv zeta in Hwhole. unfold Sample.broken_run.
    etrans; [apply Hwhole; by vm_compute | by vm_compute].
Defined.

(* ================================================================== *)
(** ** Access-token cache *)
(* ================================================================== *)

Section TokenCache.

Context (env : Env) (account : ResolvedWecomKfAccount).

Local Abbreviation key := (token_cache_key (nullish (corpId account) [])).

(** A call that finds a live entry answers from it: one reading of the
    clock, no upstream call, no change of the cache. *)
Lemma getAccessToken_hit w entry :
  truthy_opt (corpId account) = true →
  truthy_opt (corpSecret account) = true →
  accessTokenCache w !! key = Some entry →
  Date_now env (io w) < expiresAt entry →
  getAccessToken env account w
  = (Ok (cached_token entry), set_api (accessTokenCache w) (S (io w)) w, []).
Proof.
  intros Hcorp Hsecret Hentry Hlive. unfold getAccessToken.
  rewrite Hcorp, Hsecret. cbn [negb orb].
  set (cacheKey := key) in *.
  unfold now, bind, get, tick, ret. cbn. rewrite Hentry. cbn.
  by destruct (Z.ltb_spec (Date_now env (io w)) (expiresAt entry)); [|lia].
Qed.

(** A call that finds an entry past its expiry calls the upstream. *)
Lemma getAccessToken_expired w entry :
  truthy_opt (corpId account) = true →
  truthy_opt (corpSecret account) = true →
  accessTokenCache w !! key = Some entry →
  ¬ Date_now env (io w) < expiresAt entry →
  token_fetches (effects (getAccessToken env account w))
  = [(nullish (corpId account) [], nullish (corpSecret account) [])].
Proof.
  intros Hcorp Hsecret Hentry Hstale. unfold getAccessToken.
  rewrite Hcorp, Hsecret. cbn [negb orb].
  set (cacheKey := key) in *.
  rewrite effects_bind. cbn [get result world effects fst snd app].
  rewrite Hentry, effects_bind.
  unfold now at 1 2. rewrite effects_bind.
  cbn [tick ret bind result world effects fst snd app].
  destruct (Z.ltb_spec (Date_now env (io w)) (expiresAt entry)); [lia|].
  rewrite emit_then. cbn [effects snd collect as_token_fetch]. f_equal.
  rewrite bind_eq. cbn [tick result world effects fst snd app].
  repeat case_match; done.
Qed.

(** A call that returns leaves an entry with the token it returned; when
    it called the upstream, the entry expires [ACCESS_TOKEN_TTL_MS] after
    the reading of the clock made at the store. *)
Lemma getAccessToken_entry w tok :
  result (getAccessToken env account w) = Ok tok →
  truthy_opt (corpId account) = true
  ∧ truthy_opt (corpSecret account) = true
  ∧ ∃ entry,
      accessTokenCache (world (getAccessToken env account w)) !! key
      = Some entry
      ∧ cached_token entry = tok
      ∧ (token_fetches (effects (getAccessToken env account w)) ≠ [] →
         expiresAt entry
         = Date_now env (pred (io (world (getAccessToken env account w))))
           + ACCESS_TOKEN_TTL_MS).
Proof.
  unfold getAccessToken. set (cacheKey := key).
  destruct (truthy_opt (corpId account)); [|done].
  destruct (truthy_opt (corpSecret account)); [|done].
  cbn [negb orb].
  unfold now, bind, get, tick, modify, emit, ret, throw, result, world,
    effects, set_accessTokenCache.
  cbn.
  destruct (accessTokenCache w !! cacheKey) as [cached|] eqn:Hcached; cbn.
  - destruct (Date_now env (io w) <? expiresAt cached); cbn.
    + intros [= <-]. repeat split. by exists cached.
    + destruct (fetch_gettoken env _ _ _) as [|data]; cbn; [done|].
      destruct (failed_errcode _); cbn; [done|].
      destruct (truthy_opt _); cbn; [|done].
      intros [= <-]. repeat split. eexists.
      split; [apply lookup_insert_eq|]. done.
  - destruct (fetch_gettoken env _ _ _) as [|data]; cbn; [done|].
    destruct (failed_errcode _); cbn; [done|].
    destruct (truthy_opt _); cbn; [|done].
    intros [= <-]. repeat split. eexists.
    split; [apply lookup_insert_eq|]. done.
Qed.

End TokenCache.

(** C8. A call of [getAccessToken] that returns leaves a cache entry with
    the token returned. A later call for the same account that reads the
    clock before the entry's expiry returns the identical token and makes
    no call of the credential endpoint; a call that finds the entry makes no
    such call exactly when [now < expiresAt]. An entry stored after a call
    of the endpoint expires 115 minutes after its issuance, 120 minutes
    less 5. *)
Theorem access_token_reuse (env : Env) (account : ResolvedWecomKfAccount)
    (w1 : World) (tok : jsstring) :
  let key := token_cache_key (nullish (corpId account) []) in
  let first := getAccessToken env account w1 in
  result first = Ok tok →
  ∃ entry,
    accessTokenCache (world first) !! key = Some entry
    ∧ cached_token entry = tok
    ∧ (token_fetches (effects first) ≠ [] →
       expiresAt entry
       = Date_now env (pred (io (world first))) + 115 * 60 * 1000)
    ∧ 115 * 60 * 1000 = 120 * 60 * 1000 - 5 * 60 * 1000
    ∧ ∀ w2,
        accessTokenCache w2 !! key = Some entry →
        let second := getAccessToken env account w2 in
        (Date_now env (io w2) < expiresAt entry →
         result second = Ok tok
         ∧ token_fetches (effects second) = []
         ∧ accessTokenCache (world second) = accessTokenCache w2)
        ∧ (token_fetches (effects second) = []
           ↔ Date_now env (io w2) < expiresAt entry).
Proof.
  intros key first Hfirst.
  destruct (getAccessToken_entry env account w1 tok Hfirst)
    as (Hcorp & Hsecret & entry & Hentry & Htok & Hexpiry).
  exists entry.
  split; [exact Hentry|]. split; [exact Htok|].
  split; [exact Hexpiry|]. split; [reflexivity|].
  intros w2 Hcached second. unfold second. split; [|split].
  - intros Hlive.
    by rewrite (getAccessToken_hit env account w2 entry), Htok.
  - intros Hquiet.
    destruct (decide (Date_now env (io w2) < expiresAt entry)); [done|].
    by rewrite (getAccessToken_expired env account w2 entry) in Hquiet.
  - intros Hlive.
    by rewrite (getAccessToken_hit env account w2 entry).
Qed.

Lemma access_token_reuse_witness :
  result (getAccessToken (Sample.world_of [] None) Sample.tenant
            (world (getAccessToken (Sample.world_of [] None) Sample.tenant
                      (Sample.started ∅ []))))
  = Ok (lit "AT")
  ∧ token_fetches
      (effects (getAccessToken (Sample.world_of [] None) Sample.tenant
                  (world (getAccessToken (Sample.world_of [] None)
                            Sample.tenant (Sample.started ∅ [])))))
    = [].
Proof.
  destruct (access_token_reuse (Sample.world_of [] None) Sample.tenant
              (Sample.started ∅ []) (lit "AT"))
    as (entry & Hentry & _ & _ & _ & Hsecond); [by vm_compute|].
  destruct (Hsecond (world (getAccessToken (Sample.world_of [] None)
                              Sample.tenant (Sample.started ∅ []))) Hentry)
    as [Hreuse _].
  assert (expiresAt entry = 6901001) as Hexpiry.
  { revert Hentry. vm_compute. by intros [= <-]. }
  destruct Hreuse as (Hsame & Hquiet & _); [rewrite Hexpiry; by vm_compute|].
  by split.
Defined.

(* ================================================================== *)
(** ** The webhook gateway *)
(* ================================================================== *)

Section Gateway.

Context (env : Env).

Lemma handle_registered req w targets :
  webhookTargets w !! resolvePath req = Some targets →
  targets ≠ [] →
  handleWecomKfWebhookRequest env req w =
  (if decide (method req = Some (lit "GET")) then
     handle_get env targets req (q_timestamp env req) (q_nonce env req)
       (q_signature env req)
   else if negb (bool_decide (method req = Some (lit "POST"))) then
     respond 405 [(lit "Allow", lit "GET, POST")] (lit "Method Not Allowed")
       None
   else handle_post env targets req (q_timestamp env req) (q_nonce env req)
          (q_signature env req)) w.
Proof.
  intros Hreg Hsome. unfold handleWecomKfWebhookRequest.
  rewrite bind_eq. cbn [get result world effects fst snd app].
  rewrite Hreg. destruct targets as [|target targets]; [done|].
  symmetry. apply triple_eta.
Qed.

Lemma signature_matches_registered timestamp nonce encrypt signature targets
    target rest :
  signature_matches env timestamp nonce encrypt signature targets
  = target :: rest →
  targets ≠ [].
Proof. by destruct targets. Qed.

End Gateway.

(** The GET branch, tenant by tenant: on a path with registered tenants a
    response is written and no drain is started. The status is 400 when
    any of timestamp, nonce, signature or echostr is missing or empty; else
    401 when no tenant's signature verifies; else, for the first tenant
    that verifies, 401 when it has no envelope key, 400 when decrypting the
    challenge fails, and 200 with the plaintext as body otherwise. *)
Lemma handle_get_statuses (env : Env) (req : IncomingMessage)
    (w : World) (targets : list WebhookTarget) :
  let run := handleWecomKfWebhookRequest env req w in
  let timestamp := q_timestamp env req in
  let nonce := q_nonce env req in
  let signature := q_signature env req in
  let echostr := q_echostr env req in
  let verified :=
    signature_matches env timestamp nonce echostr signature targets in
  webhookTargets w !! resolvePath req = Some targets →
  targets ≠ [] →
  method req = Some (lit "GET") →
  ∃ res,
    result run = Ok (Responded res None)
    ∧ (timestamp = [] ∨ nonce = [] ∨ signature = [] ∨ echostr = [] →
       statusCode res = 400)
    ∧ (timestamp ≠ [] → nonce ≠ [] → signature ≠ [] → echostr ≠ [] →
       (verified = [] → statusCode res = 401)
       ∧ ∀ target rest, verified = target :: rest →
           (truthy_opt (encodingAESKey (account target)) = false →
            statusCode res = 401)
           ∧ ∀ key, encodingAESKey (account target) = Some key → key ≠ [] →
               (decryptWecomEncrypted env key (corpId (account target))
                  echostr = None →
                statusCode res = 400)
               ∧ ∀ plaintext,
                   decryptWecomEncrypted env key (corpId (account target))
                     echostr = Some plaintext →
                   statusCode res = 200 ∧ body res = plaintext).
Proof.
  intros run timestamp nonce signature echostr verified Hreg Hsome Hget.
  unfold run. rewrite (handle_registered env req w targets Hreg Hsome).
  rewrite decide_True by done.
  unfold handle_get. fold timestamp nonce signature echostr verified.
  destruct timestamp as [|t0 ts]; [eexists; split; [done|]; by split|].
  destruct nonce as [|n0 ns]; [eexists; split; [done|]; by split|].
  destruct signature as [|s0 ss]; [eexists; split; [done|]; by split|].
  destruct echostr as [|e0 es]; [eexists; split; [done|]; by split|].
  cbn [truthy negb orb].
  destruct verified as [|target rest].
  { eexists. split; [done|]. split; [by intros [|[|[|]]]|]. by intros. }
  destruct (encodingAESKey (account target)) as [[|k0 ks]|] eqn:Hkey;
    cbn [truthy_opt truthy negb nullish].
  - eexists. split; [done|]. split; [by intros [|[|[|]]]|].
    intros _ _ _ _. split; [done|]. intros ? ? [= <- <-].
    rewrite Hkey. split; [done|]. by intros ? [= <-].
  - destruct (decryptWecomEncrypted env (k0 :: ks) (corpId (account target))
                (e0 :: es)) as [plaintext|] eqn:Hplain.
    + eexists. split; [done|]. split; [by intros [|[|[|]]]|].
      intros _ _ _ _. split; [done|]. intros ? ? [= <- <-].
      rewrite Hkey. split; [done|]. intros ? [= <-] _.
      rewrite Hplain. split; [done|]. by intros ? [= <-].
    + rewrite emit_then. eexists. split; [done|].
      split; [by intros [|[|[|]]]|].
      intros _ _ _ _. split; [done|]. intros ? ? [= <- <-].
      rewrite Hkey. split; [done|]. intros ? [= <-] _.
      rewrite Hplain. split; [done|]. done.
  - eexists. split; [done|]. split; [by intros [|[|[|]]]|].
    intros _ _ _ _. split; [done|]. intros ? ? [= <- <-].
    rewrite Hkey. split; [done|]. done.
Qed.

(* ================================================================== *)
(** ** The registry the plugin builds *)
(* ================================================================== *)

(** An account [resolveAccount] calls configured has its five
    credentials. *)
Lemma configured_credentials (penv : ProcessEnv) (cfg : PluginConfig)
    (accountId_arg : option jsstring) (p : jsstring) (sink : bool) :
  configured (resolveAccount penv cfg accountId_arg) = true →
  target_configured
    {| account := resolved_account (resolveAccount penv cfg accountId_arg);
       path := p; statusSink := sink |}.
Proof.
  unfold resolveAccount, target_configured.
  cbn [configured resolved_account account token encodingAESKey corpId
       corpSecret openKfId].
  rewrite !andb_true_iff. tauto.
Qed.

(** Every list of the plugin's registry is non-empty and holds configured
    targets only. *)
Lemma plugin_registry_configured (reg : gmap jsstring (list WebhookTarget)) :
  plugin_registry reg →
  ∀ key targets, reg !! key = Some targets →
    targets ≠ [] ∧ Forall target_configured targets.
Proof.
  induction 1 as [|penv cfg ctx_accountId w _ IH|key' i w _ IH];
    intros key targets Hkey.
  - by rewrite lookup_empty in Hkey.
  - unfold startAccount in Hkey.
    destruct (configured (resolveAccount penv cfg (Some ctx_accountId)))
      eqn:Hconfigured; cbn [negb] in Hkey; [|by apply (IH key)].
    unfold registerWebhookTarget, modify, world in Hkey.
    cbn [fst snd set_webhookTargets webhookTargets path account statusSink]
      in Hkey.
    set (filed := normalizeWebhookPath _) in Hkey.
    destruct (decide (filed = key)) as [<-|Hne];
      [|rewrite lookup_insert_ne in Hkey by done; by apply (IH key)].
    rewrite lookup_insert_eq in Hkey. injection Hkey as <-.
    split; [by destruct (default [] (webhookTargets w !! filed))|].
    apply Forall_app. split.
    + destruct (webhookTargets w !! filed) as [before|] eqn:Hbefore;
        [by apply (IH filed) | constructor].
    + constructor; [|constructor].
      by apply (configured_credentials penv cfg (Some ctx_accountId)).
  - unfold unregister, modify, world in Hkey.
    cbn [fst snd set_webhookTargets webhookTargets] in Hkey.
    assert (Forall target_configured
              (delete i (default [] (webhookTargets w !! key')))) as Hkept.
    { apply Forall_delete.
      destruct (webhookTargets w !! key') as [before|] eqn:Hbefore;
        [by apply (IH key') | constructor]. }
    destruct (delete i (default [] (webhookTargets w !! key')))
      as [|t updated].
    + destruct (decide (key' = key)) as [<-|Hne];
        [by rewrite lookup_delete_eq in Hkey|].
      rewrite lookup_delete_ne in Hkey by done. by apply (IH key).
    + destruct (decide (key' = key)) as [<-|Hne];
        [|rewrite lookup_insert_ne in Hkey by done; by apply (IH key)].
      rewrite lookup_insert_eq in Hkey. by injection Hkey as <-.
Qed.



(** C1 (as amended). For every POST callback whose signature matches a
    registered tenant and whose envelope fails to decrypt, the handler
    answers 200 [success], logs the failure, and still starts a drain for
    the matched tenant: [pullAndDispatchMessages] is called with neither a
    callback token nor a callback channel-instance id, and when the tenant's
    own configuration has corp id, secret and channel-instance id, that
    drain calls [syncMessages]. *)
Theorem callback_decrypt_failure_still_drains (env : Env)
    (req : IncomingMessage) (w : World) (targets : list WebhookTarget)
    (rawBody encrypt msgSignature msgTimestamp msgNonce key : jsstring)
    (target : WebhookTarget) (others : list WebhookTarget) (fuel : nat) :
  let run := handleWecomKfWebhookRequest env req w in
  webhookTargets w !! resolvePath req = Some targets →
  method req = Some (lit "POST") →
  q_timestamp env req ≠ [] → q_nonce env req ≠ [] →
  q_signature env req ≠ [] →
  ok (payload req) = true → raw (payload req) = Some rawBody →
  rawBody ≠ [] →
  parse_post_body env rawBody (q_signature env req) (q_timestamp env req)
    (q_nonce env req)
  = Some (encrypt, msgSignature, msgTimestamp, msgNonce) →
  encrypt ≠ [] →
  signature_matches env msgTimestamp msgNonce encrypt msgSignature targets
  = target :: others →
  encodingAESKey (account target) = Some key → key ≠ [] →
  decryptWecomEncrypted env key (corpId (account target)) encrypt = None →
  result run
  = Ok (Responded
          {| statusCode := 200; headers := text_plain; body := lit "success" |}
          (Some {| pull_target := target; pull_callbackToken := None;
                   pull_callbackOpenKfId := None |}))
  ∧ Log LError CallbackDecryptFailed ∈ effects run
  ∧ (truthy_opt (corpId (account target)) = true →
     truthy_opt (corpSecret (account target)) = true →
     truthy_opt (openKfId (account target)) = true →
     sync_calls (effects (serve env (S fuel) req w)) ≠ []).
Proof.
  intros run Hreg Hpost Hts Hnonce Hsig Hok Hraw Hbody Hparse Hencrypt
    Hmatch Hkey Hkeyfull Hdecrypt.
  assert (run
          = (let* callback := read_callback env target encrypt in
             let* _ :=
               if statusSink target then
                 let* t := now env in
                 emit (StatusPatch (lit "lastInboundAt") t)
               else ret tt in
             respond 200 text_plain (lit "success")
               (Some {| pull_target := target;
                        pull_callbackToken := callback.1;
                        pull_callbackOpenKfId := callback.2 |})) w) as Hrun.
  { unfold run.
    rewrite (handle_registered env req w targets Hreg
               (signature_matches_registered env _ _ _ _ _ _ _ Hmatch)).
    rewrite Hpost. cbn [decide]. rewrite decide_False by done.
    rewrite bool_decide_eq_true_2 by done. cbn [negb].
    unfold handle_post.
    apply truthy_true in Hts, Hnonce, Hsig, Hbody, Hencrypt.
    rewrite Hts, Hnonce, Hsig, Hok, Hraw. cbn [negb orb truthy_opt nullish].
    rewrite Hbody. cbn [negb]. rewrite Hparse, Hencrypt. cbn [negb].
    by rewrite Hmatch. }
  assert (read_callback env target encrypt w
          = (Ok (None, None), w, [Log LError CallbackDecryptFailed]))
    as Hcallback.
  { unfold read_callback. rewrite Hkey. apply truthy_true in Hkeyfull.
    cbn [truthy_opt nullish]. rewrite Hkeyfull, Hdecrypt.
    by rewrite emit_then. }
  assert (result run
          = Ok (Responded
                  {| statusCode := 200; headers := text_plain;
                     body := lit "success" |}
                  (Some {| pull_target := target; pull_callbackToken := None;
                           pull_callbackOpenKfId := None |}))
          ∧ ∃ later, effects run
                     = Log LError CallbackDecryptFailed :: later)
    as [Hres [later Hes]].
  { rewrite Hrun, bind_eq, Hcallback.
    cbn [result world effects fst snd app].
    destruct (statusSink target); split; try by eexists.
    all: by rewrite bind_eq. }
  split; [exact Hres|]. split.
  { rewrite Hes. apply elem_of_cons. by left. }
  intros Hcorp Hsecret Hkf.
  unfold serve. rewrite effects_bind. fold run. rewrite Hres.
  cbn [pull_target pull_callbackToken pull_callbackOpenKfId].
  rewrite effects_bind, effects_try_catch, !collect_app.
  pose proof (pull_run env (S fuel) target None None (world run)) as Hpull.
  cbv zeta in Hpull.
  assert (or_else (openKfId (account target)) None
          = openKfId (account target)) as Heff.
  { unfold or_else. by rewrite Hkf. }
  rewrite Heff, Hcorp, Hsecret, Hkf in Hpull. cbn [andb] in Hpull.
  rewrite Hpull. cbn [effects snd].
  rewrite !collect_app.
  match goal with
  | |- context [drain_loop env (S fuel) target None ?eff ?k ?cold ?c ?w0] =>
      destruct (drain_loop_first_call env target None eff k cold fuel c w0)
        as [more ->]
  end.
  intros Hnone. apply (f_equal length) in Hnone.
  rewrite !length_app in Hnone. cbn [length] in Hnone. lia.
Qed.

Lemma callback_decrypt_failure_still_drains_witness :
  result (handleWecomKfWebhookRequest
            (Sample.world_of Sample.scenario_b None) Sample.post_callback
            (Sample.started {[ Sample.key := lit "c1" ]}
               [Sample.target_of Sample.tenant]))
  = Ok (Responded
          {| statusCode := 200; headers := text_plain; body := lit "success" |}
          (Some {| pull_target := Sample.target_of Sample.tenant;
                   pull_callbackToken := None;
                   pull_callbackOpenKfId := None |}))
  ∧ sync_calls
      (effects (serve (Sample.world_of Sample.scenario_b None) 5
                  Sample.post_callback
                  (Sample.started {[ Sample.key := lit "c1" ]}
                     [Sample.target_of Sample.tenant])))
    ≠ [].
Proof.
  destruct (callback_decrypt_failure_still_drains
              (Sample.world_of Sample.scenario_b None) Sample.post_callback
              (Sample.started {[ Sample.key := lit "c1" ]}
                 [Sample.target_of Sample.tenant])
              [Sample.target_of Sample.tenant]
              Sample.envelope_body (lit "ENVELOPE") (lit "sig")
              (lit "1700000000")
              (lit "n0") (lit "aeskey") (Sample.target_of Sample.tenant) []
              4)
    as (Hres & _ & Hdrain); [by vm_compute..|].
  split; [exact Hres | by apply Hdrain].
Defined.

(** C1 as stated fails: the body of the callback carries the envelope in
    its [encrypt] field, the signature matches the registered tenant, the
    envelope does not decrypt, and the handler still starts the drain,
    which fetches two pages and dispatches an item. *)
Lemma undecryptable_callback_starts_drain :
  parse_post_body (Sample.world_of Sample.scenario_b None)
    Sample.envelope_body (lit "sig") (lit "1700000000") (lit "n0")
  = Some (lit "ENVELOPE", lit "sig", lit "1700000000", lit "n0")
  ∧ signature_matches (Sample.world_of Sample.scenario_b None)
      (lit "1700000000") (lit "n0") (lit "ENVELOPE") (lit "sig")
      [Sample.target_of Sample.tenant]
    = [Sample.target_of Sample.tenant]
  ∧ decryptWecomEncrypted (Sample.world_of Sample.scenario_b None)
      (lit "aeskey") (Some (lit "ww1")) (lit "ENVELOPE") = None
  ∧ result (handleWecomKfWebhookRequest
              (Sample.world_of Sample.scenario_b None) Sample.post_callback
              (Sample.started {[ Sample.key := lit "c1" ]}
                 [Sample.target_of Sample.tenant]))
    = Ok (Responded
            {| statusCode := 200; headers := text_plain;
               body := lit "success" |}
            (Some {| pull_target := Sample.target_of Sample.tenant;
                     pull_callbackToken := None;
                     pull_callbackOpenKfId := None |}))
  ∧ length (sync_calls
              (effects (serve (Sample.world_of Sample.scenario_b None) 5
                          Sample.post_callback
                          (Sample.started {[ Sample.key := lit "c1" ]}
                             [Sample.target_of Sample.tenant]))))
    = 2%nat
  ∧ dispatched
      (effects (serve (Sample.world_of Sample.scenario_b None) 5
                  Sample.post_callback
                  (Sample.started {[ Sample.key := lit "c1" ]}
                     [Sample.target_of Sample.tenant])))
    = [Sample.item "m1" 3 "text"].
Proof. by vm_compute. Qed.

(* ================================================================== *)
(** ** The webhook gateway, continued *)
(* ================================================================== *)

Section GatewayMore.

Context (env : Env).

Lemma read_callback_returns target encrypt :
  returns (read_callback env target encrypt).
Proof. unfold read_callback. repeat returns_step. Qed.

Lemma signature_matches_elem timestamp nonce encrypt signature targets t :
  t ∈ signature_matches env timestamp nonce encrypt signature targets →
  t ∈ targets
  ∧ truthy_opt (token (account t)) = true
  ∧ verifyWecomSignature env (nullish (token (account t)) []) timestamp nonce
      encrypt signature = true.
Proof.
  unfold signature_matches. rewrite !list_elem_of_In, filter_In.
  intros [Hin Hok]. split; [done|].
  by destruct (truthy_opt (token (account t))).
Qed.

(** How the POST branch ends once a signature has matched. *)
Lemma handle_post_matched target encrypt (w : World) :
  ∃ callback,
    result (read_callback env target encrypt w) = Ok callback
    ∧ result ((let* callback := read_callback env target encrypt in
               let* _ :=
                 if statusSink target then
                   let* t := now env in
                   emit (StatusPatch (lit "lastInboundAt") t)
                 else ret tt in
               respond 200 text_plain (lit "success")
                 (Some {| pull_target := target;
                          pull_callbackToken := callback.1;
                          pull_callbackOpenKfId := callback.2 |})) w)
      = Ok (Responded
              {| statusCode := 200; headers := text_plain;
                 body := lit "success" |}
              (Some {| pull_target := target;
                       pull_callbackToken := callback.1;
                       pull_callbackOpenKfId := callback.2 |})).
Proof.
  destruct (read_callback_returns target encrypt w) as [callback Hcb].
  exists callback. split; [done|].
  rewrite (bind_ok _ _ _ _ Hcb). cbn [result fst].
  destruct (statusSink target); by rewrite bind_eq.
Qed.

End GatewayMore.

(** X1. A drain is started by an accepted callback only. Whenever the handler
    answers and starts a drain, the request is a POST on a path with
    registered tenants, the answer is 200 [success], the body was read
    whole and parsed to an envelope that is not empty, and the drain is for
    a tenant registered on that path that has a callback token under which
    the signature of the envelope verifies. *)
Theorem drain_started_only_when_verified (env : Env) (req : IncomingMessage)
    (w : World) (res : ServerResponse) (call : PullCall) :
  result (handleWecomKfWebhookRequest env req w)
  = Ok (Responded res (Some call)) →
  method req = Some (lit "POST")
  ∧ res = {| statusCode := 200; headers := text_plain; body := lit "success" |}
  ∧ ok (payload req) = true
  ∧ ∃ targets encrypt msgSignature msgTimestamp msgNonce,
      webhookTargets w !! resolvePath req = Some targets
      ∧ parse_post_body env (nullish (raw (payload req)) [])
          (q_signature env req) (q_timestamp env req) (q_nonce env req)
        = Some (encrypt, msgSignature, msgTimestamp, msgNonce)
      ∧ encrypt ≠ []
      ∧ pull_target call ∈ targets
      ∧ truthy_opt (token (account (pull_target call))) = true
      ∧ verifyWecomSignature env
          (nullish (token (account (pull_target call))) [])
          msgTimestamp msgNonce encrypt msgSignature = true.
Proof.
  intros Hrun.
  destruct (webhookTargets w !! resolvePath req) as [targets|] eqn:Hreg.
  2:{ unfold handleWecomKfWebhookRequest in Hrun.
      rewrite bind_eq in Hrun. cbn [get result world effects fst snd] in Hrun.
      by rewrite Hreg in Hrun. }
  destruct (decide (targets = [])) as [->|Hsome].
  { unfold handleWecomKfWebhookRequest in Hrun.
    rewrite bind_eq in Hrun. cbn [get result world effects fst snd] in Hrun.
    by rewrite Hreg in Hrun. }
  rewrite (handle_registered env req w targets Hreg Hsome) in Hrun.
  destruct (decide (method req = Some (lit "GET"))) as [Hget|Hnoget].
  { unfold handle_get in Hrun.
    repeat match type of Hrun with
           | context [if ?c then _ else _] => destruct c; try done
           | context [match ?c with _ => _ end] => destruct c; try done
           end. }
  destruct (bool_decide (method req = Some (lit "POST"))) eqn:Hpost;
    [|done].
  apply bool_decide_eq_true in Hpost. split; [done|].
  cbn [negb] in Hrun. unfold handle_post in Hrun.
  destruct (negb (truthy (q_timestamp env req)) || negb (truthy (q_nonce env req))
            || negb (truthy (q_signature env req))); [done|].
  destruct (ok (payload req)) eqn:Hok; [|done].
  cbn [negb orb] in Hrun.
  destruct (negb (truthy_opt (raw (payload req)))); [done|].
  destruct (parse_post_body env _ _ _ _)
    as [[[[encrypt msgSignature] msgTimestamp] msgNonce]|] eqn:Hparse; [|done].
  destruct (truthy encrypt) eqn:Hencrypt; [|done]. cbn [negb] in Hrun.
  destruct (signature_matches env msgTimestamp msgNonce encrypt msgSignature
              targets) as [|target rest] eqn:Hmatch; [done|].
  destruct (handle_post_matched env target encrypt w) as (callback & _ & Hres).
  rewrite Hres in Hrun. injection Hrun as <- <-.
  split; [done|]. split; [done|].
  exists targets, encrypt, msgSignature, msgTimestamp, msgNonce.
  split; [done|]. split; [done|]. split; [by apply truthy_true|].
  cbn [pull_target].
  apply (signature_matches_elem env msgTimestamp msgNonce encrypt msgSignature).
  rewrite Hmatch. apply elem_of_cons. by left.
Qed.

Lemma drain_started_only_when_verified_witness :
  Sample.target_of Sample.tenant ∈ [Sample.target_of Sample.tenant]
  ∧ verifyWecomSignature (Sample.world_of Sample.scenario_b None)
      (lit "cbtoken") (lit "1700000000") (lit "n0") (lit "ENVELOPE") (lit "sig")
    = true.
Proof.
  destruct (drain_started_only_when_verified
              (Sample.world_of Sample.scenario_b None) Sample.post_callback
              (Sample.started {[ Sample.key := lit "c1" ]}
                 [Sample.target_of Sample.tenant])
              {| statusCode := 200; headers := text_plain;
                 body := lit "success" |}
              {| pull_target := Sample.target_of Sample.tenant;
                 pull_callbackToken := None;
                 pull_callbackOpenKfId := None |})
    as (_ & _ & _ & targets & encrypt & sig & ts & nonce
        & Hreg & Hparse & _ & Hin & _ & Hverified); [by vm_compute|].
  vm_compute in Hreg. injection Hreg as <-.
  vm_compute in Hparse. injection Hparse as <- <- <- <-.
  split; [exact Hin | exact Hverified].
Defined.



Lemma read_only_step_invariant cls : Invariant (read_only_step cls).
Proof.
  apply and_invariant; [apply api_step_invariant|].
  split; [done|]. intros w w1 w2 _ _ H1 H2. by rewrite H2.
Qed.

Section GatewayState.

Context (env : Env).

Lemma handler_step req :
  keeps (read_only_step report_kind) (handleWecomKfWebhookRequest env req).
Proof.
  pose proof (read_only_step_invariant report_kind) as HR.
  assert (∀ e, report_kind e = true → keeps (read_only_step report_kind) (emit e))
    as Hemit.
  { intros e He w. repeat split; by repeat constructor. }
  assert (keeps (read_only_step report_kind) tick) as Htick.
  { intros w. by repeat split. }
  unfold handleWecomKfWebhookRequest, handle_get, handle_post, read_callback,
    respond, now.
  repeat first
    [ apply Hemit; reflexivity
    | apply Htick
    | keeps_step HR ].
Qed.

(** On a path with registered tenants every request is answered. *)
Lemma handle_registered_responds req w targets :
  webhookTargets w !! resolvePath req = Some targets →
  targets ≠ [] →
  ∃ res started,
    result (handleWecomKfWebhookRequest env req w)
    = Ok (Responded res started).
Proof.
  intros Hreg Hsome.
  rewrite (handle_registered env req w targets Hreg Hsome).
  destruct (decide (method req = Some (lit "GET"))).
  { unfold handle_get.
    repeat match goal with
           | |- context [if ?c then _ else _] => destruct c
           | |- context [match ?c with _ => _ end] => destruct c
           end; rewrite ?emit_then; by eexists _, _. }
  destruct (negb (bool_decide (method req = Some (lit "POST"))));
    [by eexists _, _|].
  unfold handle_post.
  destruct (negb (truthy (q_timestamp env req))
            || negb (truthy (q_nonce env req))
            || negb (truthy (q_signature env req))); [by eexists _, _|].
  destruct (negb (ok (payload req)) || negb (truthy_opt (raw (payload req))));
    [by eexists _, _|].
  destruct (parse_post_body env _ _ _ _)
    as [[[[encrypt msgSignature] msgTimestamp] msgNonce]|];
    [|by eexists _, _].
  destruct (negb (truthy encrypt)); [by eexists _, _|].
  destruct (signature_matches env msgTimestamp msgNonce encrypt msgSignature
              targets) as [|target rest]; [by eexists _, _|].
  destruct (handle_post_matched env target encrypt w) as (callback & _ & ->).
  by eexists _, _.
Qed.

End GatewayState.


(** X4. A request is passed over exactly when no tenant is registered on its
    path, and then nothing is emitted or changed; every other request is
    answered. *)
Theorem handled_iff_registered (env : Env) (req : IncomingMessage)
    (w : World) :
  let run := handleWecomKfWebhookRequest env req w in
  let unregistered :=
    webhookTargets w !! resolvePath req = None
    ∨ webhookTargets w !! resolvePath req = Some [] in
  (unregistered → run = (Ok NotHandled, w, []))
  ∧ (¬ unregistered →
     ∃ res started, result run = Ok (Responded res started)).
Proof.
  intros run unregistered. split.
  - intros Hnone. unfold run, handleWecomKfWebhookRequest.
    rewrite bind_eq. cbn [get result world effects fst snd app].
    by destruct Hnone as [-> | ->].
  - intros Hsome.
    destruct (webhookTargets w !! resolvePath req) as [targets|] eqn:Hreg;
      [|by destruct Hsome; left].
    apply (handle_registered_responds env req w targets Hreg).
    intros ->. destruct Hsome. by right.
Qed.

Lemma handled_iff_registered_witness :
  handleWecomKfWebhookRequest (Sample.world_of [] None) Sample.post_callback
    Sample.fresh
  = (Ok NotHandled, Sample.fresh, []).
Proof.
  apply (handled_iff_registered (Sample.world_of [] None)
           Sample.post_callback Sample.fresh).
  left. by vm_compute.
Defined.

(* ================================================================== *)
(** ** Paths and the registry *)
(* ================================================================== *)

Section PathFacts.

Lemma indexOf_None (s : jsstring) (c : N) :
  indexOf s c = None ↔ c ∉ s.
Proof.
  induction s as [|u s IH]; cbn [indexOf].
  - split; [intros _; apply not_elem_of_nil | done].
  - rewrite not_elem_of_cons. destruct (N.eqb_spec u c) as [->|Hne].
    + split; [done | by intros []].
    + destruct (indexOf s c); cbn; split; try done.
      * intros [_ Hin]. by apply IH in Hin.
      * intros _. split; [done | by apply IH].
Qed.

Lemma indexOf_app (s rest : jsstring) (c : N) :
  indexOf s c = None →
  indexOf (s ++ c :: rest) c = Some (length s).
Proof.
  induction s as [|u s IH]; cbn [indexOf app length].
  - by rewrite N.eqb_refl.
  - destruct (u =? c)%N; [done|].
    destruct (indexOf s c); [done|]. intros _. by rewrite IH.
Qed.

(** The path a request is looked up under does not depend on its query. *)
Lemma resolvePath_query (m : option jsstring) (p query : jsstring)
    (body1 body2 : RawBody) :
  indexOf p question_mark = None →
  resolvePath {| method := m; url := Some (p ++ question_mark :: query);
                 payload := body1 |}
  = resolvePath {| method := m; url := Some p; payload := body2 |}.
Proof.
  intros Hp. unfold resolvePath. cbn [url nullish].
  by rewrite (indexOf_app _ _ _ Hp), Hp, take_app_length.
Qed.

Lemma startsWith_app (p s : jsstring) : startsWith (p ++ s) p = true.
Proof.
  induction p as [|a p IH]; [by destruct s|]. cbn. by rewrite N.eqb_refl.
Qed.

Lemma normalizeWebhookPath_slash (raw : jsstring) :
  startsWith (normalizeWebhookPath raw) (lit "/") = true.
Proof.
  unfold normalizeWebhookPath.
  destruct (truthy (trim raw)) eqn:Hraw; cbn [negb]; [|reflexivity].
  set (withSlash := if startsWith (trim raw) (lit "/") then trim raw
                    else lit "/" ++ trim raw).
  assert (startsWith withSlash (lit "/") = true) as Hslash.
  { unfold withSlash.
    destruct (startsWith (trim raw) (lit "/")) eqn:Hs;
      [done | apply startsWith_app]. }
  destruct ((1 <? length withSlash)%nat && endsWith withSlash (lit "/"))
    eqn:Hlong; [|done].
  apply andb_true_iff in Hlong as [Hlen _]. apply Nat.ltb_lt in Hlen.
  destruct withSlash as [|a [|b rest]]; cbn in Hlen; [lia..|].
  cbn in Hslash |- *. destruct rest; exact Hslash.
Qed.

End PathFacts.



Lemma list_delete_past {A} (l : list A) (i : nat) :
  (length l ≤ i)%nat → delete i l = l.
Proof.
  revert i. induction l as [|a l IH]; intros [|i] Hlen; cbn in *;
    [done | done | lia |]. f_equal. apply IH. lia.
Qed.

Lemma list_delete_last {A} (l : list A) (a : A) :
  delete (length l) (l ++ [a]) = l.
Proof. induction l as [|b l IH]; [done|]. cbn. f_equal. exact IH. Qed.

(** X6. The closure [registerWebhookTarget] returns undoes the registration:
    called right after it, the registry is what it was before, provided no
    path was filed with an empty list (the closure deletes such a key, and
    the registry never holds one); called a second time it removes
    nothing. *)
Theorem unregister_undoes_register (target : WebhookTarget) (w : World) :
  let key := normalizeWebhookPath (path target) in
  let i := length (default [] (webhookTargets w !! key)) in
  let undone :=
    world ((let* _ := registerWebhookTarget target in unregister key i) w) in
  webhookTargets w !! key ≠ Some [] →
  webhookTargets undone = webhookTargets w
  ∧ webhookTargets (world (unregister key i undone)) = webhookTargets w.
Proof.
  intros key i undone Hfull.
  assert (∀ reg : gmap jsstring (list WebhookTarget),
            reg !! key = webhookTargets w !! key →
            match delete i (default [] (reg !! key)) with
            | [] => delete key reg
            | updated => <[key := updated]> reg
            end = reg) as Hnoop.
  { intros reg Hreg. rewrite Hreg. fold i.
    rewrite list_delete_past by (unfold i; lia).
    destruct (webhookTargets w !! key) as [[|t l]|] eqn:Hkey; [done|..].
    - cbn [from_option id]. by apply insert_id.
    - cbn [from_option id]. by apply delete_id. }
  assert (webhookTargets undone = webhookTargets w) as Hundone.
  { unfold undone, registerWebhookTarget, unregister, bind, modify, world.
    cbn [fst snd set_webhookTargets webhookTargets]. fold key.
    rewrite lookup_insert_eq. cbn [from_option]. unfold id at 1. fold i.
    assert (delete i (default [] (webhookTargets w !! key)
                      ++ [{| account := account target; path := key;
                             statusSink := statusSink target |}])
            = default [] (webhookTargets w !! key)) as ->.
    { unfold i. apply list_delete_last. }
    destruct (webhookTargets w !! key) as [[|t l]|] eqn:Hkey; [done|..].
    - cbn [from_option id]. rewrite insert_insert_eq. by apply insert_id.
    - cbn [from_option id]. rewrite delete_insert_eq. by apply delete_id. }
  split; [exact Hundone|].
  unfold unregister, modify, world.
  cbn [fst snd set_webhookTargets webhookTargets].
  rewrite Hnoop; [exact Hundone | by rewrite Hundone].
Qed.

Lemma unregister_undoes_register_witness :
  let target := Sample.target_of Sample.tenant in
  let w := Sample.started ∅ [Sample.target_of Sample.tenant_blank] in
  let key := normalizeWebhookPath (path target) in
  let i := length (default [] (webhookTargets w !! key)) in
  webhookTargets
    (world ((let* _ := registerWebhookTarget target in unregister key i) w))
  = webhookTargets w.
Proof.
  intros target w key i.
  apply (unregister_undoes_register target w). by vm_compute.
Defined.

(* ================================================================== *)
(** ** The drain, page by page *)
(* ================================================================== *)

Section Chain.

Context (env : Env) (target : WebhookTarget)
        (callbackToken effective : option jsstring) (key : jsstring)
        (cold : bool).

(** What a pass leaves for the next one: the page it fetched, if any, and
    the new value of the local [cursor]. *)
Lemma drain_iteration_summary cursor w :
  let fetch :=
    syncMessages env (account target)
      (build_sync_params callbackToken effective cursor) w in
  let pass :=
    drain_iteration env target callbackToken effective key cold cursor w in
  match result fetch with
  | Ok resp =>
      fetched (effects pass) = [resp]
      ∧ ∃ more,
          result pass = Ok (nullish (advance (Some cursor) resp) [], more)
  | _ => fetched (effects pass) = [] ∧ result pass = Ok (cursor, false)
  end.
Proof.
  intros fetch pass.
  destruct (syncMessages_trace env (account target)
              (build_sync_params callbackToken effective cursor) w)
    as [_ Hfetched].
  fold fetch in Hfetched.
  destruct (result fetch) as [resp| |] eqn:Hfetch.
  - unfold pass.
    rewrite (drain_iteration_fetched env target callbackToken effective key
               cold cursor w resp Hfetch).
    fold fetch.
    destruct (record_next_cursor_run key resp cursor (world fetch))
      as (_ & _ & _ & _ & Hsaved).
    assert (fetched (effects (record_next_cursor key resp cursor
                                (world fetch))) = []) as Hnone.
    { by apply (collect_class as_fetched save_kind); [intros [] |]. }
    assert (nullish (advance (Some cursor) resp) []
            = if truthy (next_cursor resp) then next_cursor resp else cursor)
      as -> by (unfold advance; by destruct (truthy (next_cursor resp))).
    destruct (msg_list resp) as [|msg msgs]; [|destruct cold];
      cbn [result effects fst snd];
      rewrite !collect_app, Hfetched, Hnone; cbn [app];
      (split; [|by eexists]); try done.
    destruct (process_msgs_step env target (msg :: msgs)
                (world (record_next_cursor key resp cursor (world fetch))))
      as (Hitems & _).
    by rewrite (collect_class as_fetched item_kind _
                  ltac:(by intros []) Hitems).
  - unfold pass.
    rewrite (drain_iteration_failed env target callbackToken effective key
               cold cursor w Hfetch).
    fold fetch. cbn [result effects fst snd].
    by rewrite collect_app, Hfetched.
  - by destruct (syncMessages_fuel_free env (account target)
                   (build_sync_params callbackToken effective cursor) w).
Qed.

(** Every call of [syncMessages] in the loop carries the cursor the pages
    fetched before it have led to. *)
Lemma drain_loop_chained fuel :
  ∀ stored w i params,
    let run :=
      drain_loop env fuel target callbackToken effective key cold
        (nullish stored []) w in
    sync_calls (effects run) !! i = Some params →
    params
    = build_sync_params callbackToken effective
        (nullish (foldl advance stored (take i (fetched (effects run)))) []).
Proof.
  induction fuel as [|fuel IH]; intros stored w i params run; [done|].
  unfold run. rewrite drain_loop_S, effects_bind, !collect_app.
  rewrite drain_iteration_sync_calls.
  pose proof (drain_iteration_summary (nullish stored []) w) as Hpass.
  cbv zeta in Hpass.
  destruct i as [|i]; [by intros [= <-]|].
  cbn [app lookup list_lookup]. intros Hcall.
  destruct (result (syncMessages env (account target) _ w)) as [resp| |].
  - destruct Hpass as [-> [more Hres]]. rewrite Hres in Hcall |- *.
    cbn [fst snd app take foldl] in Hcall |- *.
    destruct more; [|by destruct i].
    assert (nullish (advance (Some (nullish stored [])) resp) []
            = nullish (advance stored resp) []) as Hnext.
    { unfold advance. destruct (truthy (next_cursor resp)); [done|].
      by destruct stored. }
    rewrite Hnext in Hcall |- *. by apply IH.
  - destruct Hpass as [_ Hres]. rewrite Hres in Hcall. by destruct i.
  - destruct Hpass as [_ Hres]. rewrite Hres in Hcall. by destruct i.
Qed.

End Chain.



Lemma own_cursor_step_invariant key : Invariant (own_cursor_step key).
Proof.
  split; [done|].
  intros w w1 w2 es1 es2 (Hreg1 & Hloaded1 & Hkeys1)
    (Hreg2 & Hloaded2 & Hkeys2).
  split; [congruence|]. split; [congruence|].
  intros k Hk. by rewrite Hkeys2, Hkeys1.
Qed.

Lemma debounce_step_invariant : Invariant debounce_step.
Proof.
  split; [by intros w; split; [rewrite orb_false_r | destruct (saveTimer w)]|].
  intros w w1 w2 es1 es2 [Htimer1 Hsaves1] [Htimer2 Hsaves2].
  unfold debounce_step.
  rewrite !collect_app, existsb_app, length_app, Htimer2, Hsaves1, Hsaves2,
    Htimer1.
  destruct (saveTimer w), (existsb carries_cursor (fetched es1)),
    (existsb carries_cursor (fetched es2)); by split.
Qed.

Lemma same_cursors_own_cursor_step key w w' es :
  same_cursors w w' → own_cursor_step key w w' es.
Proof.
  intros (Hreg & Hstore & Hloaded & _). unfold own_cursor_step.
  by rewrite Hstore.
Qed.

Section DrainState.

Context (env : Env).

(** Before the loop: the dedup cache is pruned and the cursor file is read;
    the registry and the save timer are left alone. *)
Lemma entry_world w :
  let w0 :=
    world ((let* _ := pruneProcessedMsgIds env in loadCursors env) w) in
  webhookTargets w0 = webhookTargets w
  ∧ saveTimer w0 = saveTimer w
  ∧ accessTokenCache w0 = accessTokenCache w
  ∧ processedMsgIds w0
    = filter (λ entry : jsstring * Z,
                Date_now env (io w) - DEDUP_TTL_MS ≤ entry.2)
        (processedMsgIds w).
Proof.
  unfold pruneProcessedMsgIds, loadCursors, now, bind, get, tick, modify, ret,
    world.
  cbn. destruct (cursorsLoaded w); [done|]. cbn.
  by destruct (read_cursor_file env _).
Qed.

Lemma record_next_cursor_own key resp cursor :
  keeps (own_cursor_step key) (record_next_cursor key resp cursor).
Proof.
  intros w. unfold record_next_cursor, scheduleSaveCursors.
  destruct (truthy (next_cursor resp)); [|done].
  unfold bind, get, modify, emit, ret, world, effects, own_cursor_step.
  cbn [fst snd webhookTargets cursorsLoaded cursorStore saveTimer
       set_cursorStore set_saveTimer].
  destruct (saveTimer w);
    cbn [fst snd webhookTargets cursorsLoaded cursorStore saveTimer
         set_cursorStore set_saveTimer];
    (split; [done|]; split; [done|]);
    intros k Hk; by rewrite lookup_insert_ne.
Qed.

Lemma drain_loop_own_cursor fuel target callbackToken effective key cold
    cursor :
  keeps (own_cursor_step key)
    (drain_loop env fuel target callbackToken effective key cold cursor).
Proof.
  pose proof (own_cursor_step_invariant key) as HR.
  apply drain_loop_keeps; [done|]. intros c.
  unfold drain_iteration. keeps_auto HR;
    auto using record_next_cursor_own.
  - intros w. apply same_cursors_own_cursor_step.
    by destruct (syncMessages_step env (account target)
                   (build_sync_params callbackToken effective c) w)
      as (_ & ? & _).
  - intros w. apply same_cursors_own_cursor_step.
    by destruct (process_msgs_step env target (s :: l) w) as (_ & ?).
Qed.

Lemma record_next_cursor_debounce key resp cursor w :
  let run := record_next_cursor key resp cursor w in
  saveTimer (world run) = saveTimer w || carries_cursor resp
  ∧ length (saves (effects run))
    = (if saveTimer w then 0 else if carries_cursor resp then 1 else 0)%nat
  ∧ fetched (effects run) = [].
Proof.
  unfold record_next_cursor, scheduleSaveCursors, carries_cursor.
  destruct (truthy (next_cursor resp)).
  - unfold bind, get, modify, emit, ret, world, effects. cbn.
    by destruct (saveTimer w) eqn:Hpending; cbn; rewrite ?Hpending.
  - cbn. rewrite orb_false_r. by destruct (saveTimer w).
Qed.

Lemma drain_iteration_debounce target callbackToken effective key cold
    cursor :
  keeps debounce_step
    (drain_iteration env target callbackToken effective key cold cursor).
Proof.
  intros w.
  set (fetch := syncMessages env (account target)
                  (build_sync_params callbackToken effective cursor) w).
  destruct (syncMessages_trace env (account target)
              (build_sync_params callbackToken effective cursor) w)
    as [_ Hfetched].
  destruct (syncMessages_step env (account target)
              (build_sync_params callbackToken effective cursor) w)
    as (Hsync & (_ & _ & _ & Htimer) & _).
  fold fetch in Hfetched, Hsync, Htimer.
  assert (saves (effects fetch) = []) as Hquiet.
  { by apply (collect_class as_save sync_kind); [intros [] |]. }
  destruct (result fetch) as [resp| |] eqn:Hfetch.
  - rewrite (drain_iteration_fetched env target callbackToken effective key
               cold cursor w resp Hfetch).
    fold fetch.
    destruct (record_next_cursor_debounce key resp cursor (world fetch))
      as (Hpending & Hsaves & Hnone).
    cbv zeta in Hpending, Hsaves, Hnone.
    set (stored := record_next_cursor key resp cursor (world fetch)) in *.
    unfold debounce_step.
    destruct (msg_list resp) as [|msg msgs]; [|destruct cold];
      cbn [world effects fst snd];
      rewrite !collect_app, !length_app, Hfetched, Hquiet, Hnone, ?Hsaves;
      cbn [app length existsb collect as_save as_fetched];
      rewrite ?orb_false_r, <- Htimer; try (split; [done | lia]).
    destruct (process_msgs_step env target (msg :: msgs) (world stored))
      as (Hitems & _ & _ & _ & Hsame).
    rewrite (collect_class as_fetched item_kind _ ltac:(by intros []) Hitems).
    rewrite (collect_class as_save item_kind _ ltac:(by intros []) Hitems).
    cbn [app length existsb]. rewrite orb_false_r, Hsame.
    split; [done | lia].
  - rewrite (drain_iteration_failed env target callbackToken effective key
               cold cursor w Hfetch).
    fold fetch. unfold debounce_step. cbn [world effects fst snd].
    rewrite !collect_app, Hfetched, Hquiet. cbn. rewrite orb_false_r.
    split; [done | by destruct (saveTimer w)].
  - by destruct (syncMessages_fuel_free env (account target)
                   (build_sync_params callbackToken effective cursor) w).
Qed.

(** A drain that a guard stops: a warning is logged and nothing else
    happens, but for the prune of the dedup cache when only the channel
    instance is unknown. *)
Lemma pull_stopped fuel target callbackToken callbackOpenKfId w :
  let effective := or_else (openKfId (account target)) callbackOpenKfId in
  let run :=
    pullAndDispatchMessages env fuel target callbackToken callbackOpenKfId w in
  truthy_opt (corpId (account target))
  && truthy_opt (corpSecret (account target)) && truthy_opt effective = false →
  result run = Ok tt
  ∧ (∃ line, effects run = [Log LWarn line])
  ∧ same_cursors w (world run)
  ∧ accessTokenCache (world run) = accessTokenCache w
  ∧ ∀ id ts, processedMsgIds (world run) !! id = Some ts →
      processedMsgIds w !! id = Some ts.
Proof.
  intros effective run Hguard. unfold run, pullAndDispatchMessages.
  destruct (truthy_opt (corpId (account target))); cbn [negb orb andb] in *;
    [|by repeat split; eauto].
  destruct (truthy_opt (corpSecret (account target)));
    cbn [negb orb andb] in *; [|by repeat split; eauto].
  fold effective. rewrite Hguard. cbn [negb].
  unfold pruneProcessedMsgIds, now, bind, tick, modify, emit, ret, result,
    world, effects. cbn.
  repeat split; eauto. intros id ts Hin.
  by apply map_lookup_filter_Some in Hin as [Hin _].
Qed.

End DrainState.

(** X10. A drain writes the cursor of its own pair only: when its guards pass,
    every other key of the cursor store holds after the drain what it held
    once the cursor file was loaded, and the registry is untouched. *)
Theorem drain_writes_own_cursor_only (env : Env) (fuel : nat)
    (target : WebhookTarget) (callbackToken callbackOpenKfId : option jsstring)
    (w : World) (other : jsstring) :
  let effective := or_else (openKfId (account target)) callbackOpenKfId in
  let key := getCursorKey (accountId (account target)) effective in
  let run :=
    pullAndDispatchMessages env fuel target callbackToken callbackOpenKfId w in
  truthy_opt (corpId (account target)) = true →
  truthy_opt (corpSecret (account target)) = true →
  truthy_opt effective = true →
  other ≠ key →
  cursorStore (world run) !! other = cursor_on_entry env w other
  ∧ webhookTargets (world run) = webhookTargets w
  ∧ cursorsLoaded (world run) = true.
Proof.
  intros effective key run Hcorp Hsecret Hkf Hother.
  pose proof (pull_run env fuel target callbackToken callbackOpenKfId w)
    as Hrun.
  cbv zeta in Hrun. fold effective key run in Hrun.
  rewrite Hcorp, Hsecret, Hkf in Hrun. cbn [andb] in Hrun.
  rewrite Hrun. cbn [world fst snd].
  match goal with
  | |- context [drain_loop env fuel target callbackToken effective key
                  ?cold ?cursor ?w0] =>
      destruct (drain_loop_own_cursor env fuel target callbackToken effective
                  key cold cursor w0) as (Hreg & Hloaded & Hkeys)
  end.
  rewrite Hreg, Hloaded, (Hkeys other Hother).
  destruct (entry_world env w) as (Hentry & _).
  split; [done|]. split; [exact Hentry|].
  unfold pruneProcessedMsgIds, loadCursors, now, bind, get, tick, modify, ret,
    world.
  cbn. destruct (cursorsLoaded w) eqn:Hloaded'; [done|]. cbn.
  by destruct (read_cursor_file env _).
Qed.

Lemma drain_writes_own_cursor_only_witness :
  let env := Sample.world_of Sample.scenario_b None in
  let target := Sample.target_of Sample.tenant in
  let w :=
    Sample.started {[ Sample.key := lit "c1"; lit "other:wk9" := lit "c7" ]}
      [target] in
  cursorStore (world (pullAndDispatchMessages env 5 target None None w))
  !! lit "other:wk9"
  = cursor_on_entry env w (lit "other:wk9").
Proof.
  intros env target w.
  apply (drain_writes_own_cursor_only env 5 target None None w
           (lit "other:wk9")); by vm_compute.
Defined.



(* ================================================================== *)
(** ** What a warm drain hands on *)
(* ================================================================== *)

Lemma handed_on_app env seen (before later : list SyncMsgItem) :
  handed_on env seen (before ++ later)
  = handed_on env seen before
    ++ handed_on env (seen_after seen before) later.
Proof.
  revert seen. induction before as [|msg before IH]; intros seen; [done|].
  cbn [app handed_on seen_after].
  destruct (truthy (msgid msg) && bool_decide (msgid msg ∈ seen)); [done|].
  by rewrite IH, app_assoc.
Qed.

Lemma seen_after_app seen (before later : list SyncMsgItem) :
  seen_after seen (before ++ later)
  = seen_after (seen_after seen before) later.
Proof.
  revert seen. induction before as [|msg before IH]; intros seen; [done|].
  cbn [app seen_after].
  by destruct (truthy (msgid msg) && bool_decide (msgid msg ∈ seen)).
Qed.

(** The ids in the cache after a page: those before it and the non-empty
    ids of its items. *)
Lemma elem_of_seen_after seen (msgs : list SyncMsgItem) (id : jsstring) :
  id ∈ seen_after seen msgs
  ↔ id ∈ seen ∨ (id ≠ [] ∧ id ∈ msgid <$> msgs).
Proof.
  revert seen. induction msgs as [|msg msgs IH]; intros seen;
    cbn [seen_after fmap list_fmap].
  - split; [by left | intros [|[_ Hin]]; [done|by apply elem_of_nil in Hin]].
  - destruct (truthy (msgid msg)) eqn:Hid; cbn [andb].
    + apply truthy_true in Hid.
      destruct (bool_decide (msgid msg ∈ seen)) eqn:Hseen.
      * apply bool_decide_eq_true in Hseen. rewrite IH, elem_of_cons.
        split; [intros [|[? ?]]; auto|].
        intros [|[? [->|]]]; auto.
      * rewrite IH, elem_of_union, elem_of_singleton, elem_of_cons.
        split; [intros [[->|]|[? ?]]; auto|].
        intros [|[? [->|]]]; auto.
    + rewrite IH, elem_of_cons.
      split; [intros [|[? ?]]; auto|].
      intros [|[Hne [->|]]]; auto. by destruct (msgid msg).
Qed.

Lemma warm_step_invariant env : Invariant (warm_step env).
Proof.
  split; [done|].
  intros w w1 w2 es1 es2 [Hon1 Hseen1] [Hon2 Hseen2].
  unfold warm_step, fetched_items in *.
  rewrite !collect_app, fmap_app, concat_app, handed_on_app, seen_after_app.
  by rewrite Hon1, Hseen2, Hon2, Hseen1.
Qed.

(** A step that fetches nothing, hands nothing on and leaves the dedup
    cache alone. *)
Lemma quiet_warm_step env (w w' : World) (es : list Effect) :
  processedMsgIds w' = processedMsgIds w →
  delivered es = [] → fetched es = [] →
  warm_step env w w' es.
Proof.
  intros Hsame Hnone Hfetched. unfold warm_step, fetched_items.
  by rewrite Hsame, Hnone, Hfetched.
Qed.

Section HandedOn.

Context (env : Env).

Lemma deliver_msg_delivered target msg w :
  delivered (effects (deliver_msg env target msg w))
  = if deliverable env msg then [msg] else [].
Proof.
  unfold deliver_msg, deliverable.
  destruct (decide (msgtype msg = lit "event")) as [Hevent|Hevent].
  { rewrite bool_decide_eq_true_2 by done. cbn [orb].
    destruct (handleKfEvent_run env msg (account target) w)
      as (rest & -> & Hrest & _).
    cbn [collect as_delivered]. f_equal.
    by apply (collect_class as_delivered event_kind); [intros [] |]. }
  rewrite bool_decide_eq_false_2 by done. cbn [orb].
  destruct (origin msg =? 3); cbn [negb andb]; [|done].
  destruct (core env); [|done].
  rewrite try_catch_eq, bind_eq.
  destruct (dispatchKfMessage_run env msg w) as (Hes & _).
  destruct (result (dispatchKfMessage env msg w)) as [[]| |] eqn:Hres.
  - cbn [result world effects fst snd]. rewrite Hes.
    by destruct (statusSink target).
  - cbn [result world effects fst snd]. by rewrite Hes.
  - by destruct (dispatchKfMessage_fuel_free env msg w).
Qed.

(** The loop over the items of a page hands on what [handed_on] selects. *)
Lemma process_msgs_handed_on target msgs :
  ∀ w,
    delivered (effects (process_msgs env target msgs w))
    = handed_on env (dom (processedMsgIds w)) msgs
    ∧ dom (processedMsgIds (world (process_msgs env target msgs w)))
      = seen_after (dom (processedMsgIds w)) msgs.
Proof.
  induction msgs as [|msg msgs IH]; intros w; [done|].
  cbn [process_msgs handed_on seen_after].
  destruct (process_msg_returns env target msg w) as [[] Hret].
  rewrite (bind_ok _ _ _ _ Hret). cbn [world effects fst snd].
  rewrite collect_app.
  destruct (IH (world (process_msg env target msg w))) as [Hon Hseen].
  rewrite Hon, Hseen. clear Hon Hseen Hret IH.
  assert (∀ w1,
            processedMsgIds w1
            = (if truthy (msgid msg) then <[msgid msg := Date_now env (io w)]>
               else id) (processedMsgIds w) →
            delivered (effects (deliver_msg env target msg w1))
            = (if deliverable env msg then [msg] else [])
            ∧ dom (processedMsgIds (world (deliver_msg env target msg w1)))
              = (if truthy (msgid msg) then {[msgid msg]} ∪ dom (processedMsgIds w)
                 else dom (processedMsgIds w))) as Hdeliver.
  { intros w1 Hw1. split; [apply deliver_msg_delivered|].
    destruct (deliver_msg_run env target msg w1) as [-> _]. rewrite Hw1.
    destruct (truthy (msgid msg)); [by rewrite dom_insert_L | done]. }
  unfold process_msg. rewrite bind_eq.
  destruct (truthy (msgid msg)) eqn:Hid; cbn [andb].
  - destruct (processedMsgIds w !! msgid msg) as [ts|] eqn:Hseen.
    + rewrite isDuplicate_seen by by eexists.
      cbn [result world effects fst snd ret app collect].
      rewrite bool_decide_eq_true_2 by (apply elem_of_dom; by eexists).
      done.
    + destruct (isDuplicate_fresh env (msgid msg) w Hseen)
        as (-> & -> & Hrec & _).
      cbn [result world effects fst snd app].
      rewrite bool_decide_eq_false_2 by by apply not_elem_of_dom.
      destruct (Hdeliver (world (isDuplicate env (msgid msg) w)))
        as [-> ->]; [by rewrite Hrec | done].
  - cbn [ret result world effects fst snd app].
    by destruct (Hdeliver w) as [-> ->].
Qed.

Lemma drain_iteration_warm target callbackToken effective key cursor :
  keeps (warm_step env)
    (drain_iteration env target callbackToken effective key false cursor).
Proof.
  intros w.
  set (fetch := syncMessages env (account target)
                  (build_sync_params callbackToken effective cursor) w).
  destruct (syncMessages_trace env (account target)
              (build_sync_params callbackToken effective cursor) w)
    as [_ Hfetched].
  destruct (syncMessages_step env (account target)
              (build_sync_params callbackToken effective cursor) w)
    as (Hsync & _ & Hsame).
  fold fetch in Hfetched, Hsync, Hsame.
  assert (delivered (effects fetch) = []) as Hquiet.
  { by apply (collect_class as_delivered sync_kind); [intros [] |]. }
  destruct (result fetch) as [resp| |] eqn:Hfetch.
  - rewrite (drain_iteration_fetched env target callbackToken effective key
               false cursor w resp Hfetch).
    fold fetch.
    destruct (record_next_cursor_run key resp cursor (world fetch))
      as (_ & _ & _ & Hsame' & Hsaved).
    cbv zeta in Hsame', Hsaved.
    set (stored := record_next_cursor key resp cursor (world fetch)) in *.
    assert (delivered (effects stored) = []) as Hnone.
    { by apply (collect_class as_delivered save_kind); [intros [] |]. }
    assert (fetched (effects stored) = []) as Hnone'.
    { by apply (collect_class as_fetched save_kind); [intros [] |]. }
    unfold warm_step, fetched_items.
    destruct (msg_list resp) as [|msg msgs] eqn:Hlist;
      cbn [world effects fst snd];
      rewrite !collect_app, Hfetched, Hquiet, Hnone, Hnone';
      cbn [app fmap list_fmap concat]; rewrite Hlist.
    { cbn. by rewrite Hsame', Hsame. }
    destruct (process_msgs_handed_on target (msg :: msgs) (world stored))
      as [Hon Hseen].
    destruct (process_msgs_step env target (msg :: msgs) (world stored))
      as (Hitems & _).
    rewrite (collect_class as_fetched item_kind _ ltac:(by intros []) Hitems).
    rewrite app_nil_r, Hon, Hseen, Hsame', Hsame. done.
  - rewrite (drain_iteration_failed env target callbackToken effective key
               false cursor w Hfetch).
    fold fetch. cbn [world effects fst snd].
    apply quiet_warm_step; [done|..]; rewrite collect_app, ?Hquiet, ?Hfetched;
      done.
  - by destruct (syncMessages_fuel_free env (account target)
                   (build_sync_params callbackToken effective cursor) w).
Qed.

End HandedOn.

Lemma handed_on_elem env seen (msgs : list SyncMsgItem) (m : SyncMsgItem) :
  m ∈ handed_on env seen msgs →
  m ∈ msgs ∧ (msgid m ≠ [] → msgid m ∉ seen).
Proof.
  revert seen. induction msgs as [|msg msgs IH]; intros seen;
    cbn [handed_on]; [by intros ?%elem_of_nil|].
  destruct (truthy (msgid msg)) eqn:Hid; cbn [andb].
  - destruct (bool_decide (msgid msg ∈ seen)) eqn:Hseen.
    + intros [Hin Hnew]%IH. split; [by apply elem_of_cons; right | done].
    + apply bool_decide_eq_false in Hseen.
      rewrite elem_of_app. intros [Hhead | [Hin Hnew]%IH].
      * destruct (deliverable env msg); [|by apply elem_of_nil in Hhead].
        apply list_elem_of_singleton in Hhead as ->.
        split; [apply elem_of_cons; by left | done].
      * split; [by apply elem_of_cons; right|]. intros Hne Hold.
        apply (Hnew Hne). apply elem_of_union. by right.
  - rewrite elem_of_app. intros [Hhead | [Hin Hnew]%IH].
    + destruct (deliverable env msg); [|by apply elem_of_nil in Hhead].
      apply list_elem_of_singleton in Hhead as ->.
      split; [apply elem_of_cons; by left|]. by destruct (msgid msg).
    + split; [by apply elem_of_cons; right | done].
Qed.

Lemma filter_none {A} (P : A → Prop) `{∀ x, Decision (P x)} (l : list A) :
  (∀ x, x ∈ l → ¬ P x) → filter P l = [].
Proof.
  induction l as [|a l IH]; intros Hnone; [done|].
  rewrite filter_cons_False by (apply Hnone, elem_of_cons; by left).
  apply IH. intros x Hx. apply Hnone, elem_of_cons. by right.
Qed.

Section WarmDrain.

Context (env : Env) (fuel : nat) (target : WebhookTarget)
        (callbackToken callbackOpenKfId : option jsstring) (w : World).

Local Abbreviation effective :=
  (or_else (openKfId (account target)) callbackOpenKfId).
Local Abbreviation key :=
  (getCursorKey (accountId (account target)) effective).
Local Abbreviation run :=
  (pullAndDispatchMessages env fuel target callbackToken callbackOpenKfId w).
Local Abbreviation cache :=
  (filter (λ entry : jsstring * Z,
             Date_now env (io w) - DEDUP_TTL_MS ≤ entry.2)
     (processedMsgIds w)).

(** A warm drain whose guards pass, as a step from the pruned cache. *)
Lemma pull_warm_step :
  truthy_opt (corpId (account target)) = true →
  truthy_opt (corpSecret (account target)) = true →
  truthy_opt effective = true →
  (∃ cursor, cursor_on_entry env w key = Some cursor ∧ cursor ≠ []) →
  delivered (effects run) = handed_on env (dom cache) (fetched_items (effects run))
  ∧ dom (processedMsgIds (world run))
    = seen_after (dom cache) (fetched_items (effects run)).
Proof.
  intros Hcorp Hsecret Hkf (cursor & Hstored & Hcursor).
  pose proof (pull_run env fuel target callbackToken callbackOpenKfId w)
    as Hrun.
  cbv zeta in Hrun. rewrite Hcorp, Hsecret, Hkf in Hrun. cbn [andb] in Hrun.
  unfold cursor_on_entry in Hstored. rewrite Hstored in Hrun.
  cbn [nullish] in Hrun. apply truthy_true in Hcursor.
  rewrite Hcursor in Hrun. cbn [negb app] in Hrun.
  rewrite Hrun. cbn [world effects fst snd].
  destruct (entry_world env w) as (_ & _ & _ & Hcache).
  cbv zeta in Hcache. rewrite <- Hcache.
  apply (drain_loop_keeps env (warm_step env) (warm_step_invariant env)
           target callbackToken effective key false
           (λ c, drain_iteration_warm env target callbackToken effective key
                   c)).
Qed.

End WarmDrain.







(* ================================================================== *)
(** ** Cursor keys and the cursor file *)
(* ================================================================== *)

Lemma app_sep_inj (c : N) (a a' x x' : jsstring) :
  c ∉ a → c ∉ a' → a ++ c :: x = a' ++ c :: x' → a = a' ∧ x = x'.
Proof.
  revert a'. induction a as [|u a IH]; intros [|u' a'] Ha Ha' Heq;
    cbn in Heq.
  - by injection Heq as ->.
  - injection Heq as <- _. destruct Ha'. apply elem_of_cons. by left.
  - injection Heq as -> _. destruct Ha. apply elem_of_cons. by left.
  - injection Heq as -> Heq.
    destruct (IH a') as [-> ->]; [| |done..].
    + intros Hin. apply Ha. apply elem_of_cons. by right.
    + intros Hin. apply Ha'. apply elem_of_cons. by right.
Qed.

(** X16. Two pairs share a cursor only when they are the same pair, as long as
    account ids hold no colon (code unit 58): the key then gives back the account id and
    the channel instance, an absent instance reading as ["all"]. *)
Theorem getCursorKey_injective (accountId1 accountId2 : jsstring)
    (openKfId1 openKfId2 : option jsstring) :
  indexOf accountId1 58%N = None → indexOf accountId2 58%N = None →
  getCursorKey accountId1 openKfId1 = getCursorKey accountId2 openKfId2 →
  accountId1 = accountId2
  ∧ nullish openKfId1 (lit "all") = nullish openKfId2 (lit "all").
Proof.
  unfold getCursorKey. intros H1%indexOf_None H2%indexOf_None Hkey.
  by apply (app_sep_inj 58%N).
Qed.

Lemma getCursorKey_injective_witness :
  lit "default" = lit "default"
  ∧ nullish (Some (lit "wk1")) (lit "all")
    = nullish (Some (lit "wk1")) (lit "all").
Proof.
  apply (getCursorKey_injective (lit "default") (lit "default")
           (Some (lit "wk1")) (Some (lit "wk1"))); reflexivity.
Defined.

Section CursorFile.

Context (env : Env).

(** One entry of the cursor file, as [loadCursors] takes it in. *)
Local Abbreviation take_in :=
  (λ (m : gmap jsstring jsstring) (kv : jsstring * option jsstring),
     match kv.2 with Some v => <[kv.1 := v]> m | None => m end).

Lemma loadCursors_world w :
  world (loadCursors env w)
  = if cursorsLoaded w then w
    else
      set_cursorsLoaded true
        (set_cursorStore
           (λ store, foldl take_in store
                       (default [] (read_cursor_file env (io w))))
           (set_api (accessTokenCache w) (S (io w)) w)).
Proof.
  unfold loadCursors, bind, get, tick, modify, ret, world. cbn.
  destruct (cursorsLoaded w) eqn:Hloaded; [done|]. cbn.
  by destruct (read_cursor_file env (io w)).
Qed.

(** A key with no string value in the file keeps what the store held. *)
Lemma foldl_take_in_absent (entries : list (jsstring * option jsstring))
    (store : gmap jsstring jsstring) (k : jsstring) :
  (∀ v, (k, Some v) ∉ entries) →
  foldl take_in store entries !! k = store !! k.
Proof.
  revert store. induction entries as [|[k' v'] entries IH]; intros store Hk;
    [done|].
  cbn [foldl fst snd]. rewrite IH.
  - destruct v' as [v'|]; [|done]. apply lookup_insert_ne. intros ->.
    apply (Hk v'). apply elem_of_cons. by left.
  - intros v Hin. apply (Hk v). apply elem_of_cons. by right.
Qed.

(** A key with a string value in the file, the keys of the file being
    distinct, gets that value. *)
Lemma foldl_take_in_present (entries : list (jsstring * option jsstring))
    (store : gmap jsstring jsstring) (k v : jsstring) :
  NoDup entries.*1 → (k, Some v) ∈ entries →
  foldl take_in store entries !! k = Some v.
Proof.
  revert store. induction entries as [|[k' v'] entries IH]; intros store;
    [by intros _ ?%elem_of_nil|].
  cbn [fmap list_fmap foldl fst snd].
  intros [Hfirst Hrest]%NoDup_cons [[= <- <-]|Hin]%elem_of_cons.
  - rewrite foldl_take_in_absent; [apply lookup_insert_eq|].
    intros v2 Hin. apply Hfirst. by apply (list_elem_of_fmap_2 fst) in Hin.
  - by apply IH.
Qed.

End CursorFile.



Lemma document_keys (listed : list (jsstring * jsstring)) :
  ((λ kv : jsstring * jsstring, (kv.1, Some kv.2)) <$> listed).*1 = listed.*1.
Proof. induction listed as [|[k v] listed IH]; [done|]. cbn. by f_equal. Qed.

(** X18. Cursors survive a restart. The timer callback clears the pending mark
    and writes the whole store; a process that starts with an empty store
    and reads a document with the entries written, in whatever order the
    file lists them, holds after [loadCursors] exactly the cursors that
    were saved. *)
Theorem saved_cursors_are_restored (env : Env) (sys : Platform)
    (saving restarted : World)
    (listed : list (jsstring * jsstring)) :
  let save := save_timer_fires sys saving in
  let document := (λ kv : jsstring * jsstring, (kv.1, Some kv.2)) <$> listed in
  write_cursor_file sys (io saving) (cursor_document (cursorStore saving))
  = true →
  listed ≡ₚ map_to_list (cursorStore saving) →
  cursorsLoaded restarted = false →
  cursorStore restarted = ∅ →
  read_cursor_file env (io restarted) = Some document →
  result save = Ok (Some (cursor_document (cursorStore saving)))
  ∧ saveTimer (world save) = false
  ∧ cursorStore (world save) = cursorStore saving
  ∧ cursorStore (world (loadCursors env restarted)) = cursorStore saving.
Proof.
  intros save document Hwritten Hlisted Hfresh Hempty Hread.
  split; [|split; [|split]].
  - unfold save, save_timer_fires, bind, modify, get, tick, ret, result.
    cbn. by rewrite Hwritten.
  - unfold save, save_timer_fires, bind, modify, get, tick, ret, world.
    cbn. by destruct (write_cursor_file sys _ _).
  - unfold save, save_timer_fires, bind, modify, get, tick, ret, world.
    cbn. by destruct (write_cursor_file sys _ _).
  - rewrite loadCursors_world, Hfresh, Hread.
    cbn [cursorStore set_cursorsLoaded set_cursorStore set_api from_option
         id].
    rewrite Hempty.
    assert (NoDup document.*1) as Hkeys.
    { unfold document. rewrite document_keys, Hlisted.
      apply NoDup_fst_map_to_list. }
    apply map_eq. intros k.
    destruct (cursorStore saving !! k) as [v|] eqn:Hk.
    + apply foldl_take_in_present; [done|].
      apply (list_elem_of_fmap_2 (λ kv : jsstring * jsstring,
                                    (kv.1, Some kv.2)) listed (k, v)).
      rewrite Hlisted. by apply elem_of_map_to_list.
    + rewrite foldl_take_in_absent; [apply lookup_empty|].
      intros v [[k' v'] [[= -> ->] Hin]]%list_elem_of_fmap.
      rewrite Hlisted in Hin. apply elem_of_map_to_list in Hin. congruence.
Qed.

(* ================================================================== *)
(** ** The token cache, continued *)
(* ================================================================== *)

Section TokenRefresh.

Context (env : Env) (account : ResolvedWecomKfAccount).

(** A call that finds no entry calls the upstream, once. *)
Lemma getAccessToken_miss w :
  truthy_opt (corpId account) = true →
  truthy_opt (corpSecret account) = true →
  accessTokenCache w !! token_cache_key (nullish (corpId account) []) = None →
  token_fetches (effects (getAccessToken env account w))
  = [(nullish (corpId account) [], nullish (corpSecret account) [])].
Proof.
  intros Hcorp Hsecret Hnone. unfold getAccessToken.
  rewrite Hcorp, Hsecret. cbn [negb orb].
  rewrite effects_bind. cbn [get result world effects fst snd app].
  rewrite Hnone, effects_bind.
  cbn [ret result world effects fst snd app].
  rewrite emit_then. cbn [effects snd collect as_token_fetch]. f_equal.
  rewrite bind_eq. cbn [tick result world effects fst snd app].
  repeat case_match; done.
Qed.

(** How a call ends, and what it leaves in the cache. *)
Lemma getAccessToken_outcome w :
  let run := getAccessToken env account w in
  (result run = Throw → accessTokenCache (world run) = accessTokenCache w)
  ∧ (∀ tok, result run = Ok tok → token_fetches (effects run) ≠ [] →
       tok ≠ []).
Proof.
  unfold getAccessToken.
  destruct (truthy_opt (corpId account)); [|done].
  destruct (truthy_opt (corpSecret account)); [|done].
  cbn [negb orb].
  unfold now, bind, get, tick, modify, emit, ret, throw, result, world,
    effects, set_accessTokenCache.
  cbn.
  destruct (accessTokenCache w !! _) as [cached|]; cbn.
  - destruct (Date_now env (io w) <? expiresAt cached); cbn; [done|].
    destruct (fetch_gettoken env _ _ _) as [|data]; cbn; [done|].
    destruct (failed_errcode _); cbn; [done|].
    destruct (access_token data) as [[|t tok]|]; cbn; try done.
    split; [done|]. by intros ? [= <-].
  - destruct (fetch_gettoken env _ _ _) as [|data]; cbn; [done|].
    destruct (failed_errcode _); cbn; [done|].
    destruct (access_token data) as [[|t tok]|]; cbn; try done.
    split; [done|]. by intros ? [= <-].
Qed.

End TokenRefresh.

(** X19. Clearing the cache forces a refresh. After [clearAccessTokenCache] for
    an account with corp id and secret, the next [getAccessToken] for it
    asks the credential endpoint, once, whatever the cache held; the
    entries of other corps are kept. After [clearAllAccessTokenCache] the
    same holds and no entry is left. *)
Theorem cleared_token_is_fetched_again (env : Env)
    (account : ResolvedWecomKfAccount) (w : World) (corp secret : jsstring) :
  let cleared := world (clearAccessTokenCache account w) in
  let emptied := world (clearAllAccessTokenCache w) in
  corpId account = Some corp → corp ≠ [] →
  corpSecret account = Some secret → secret ≠ [] →
  token_fetches (effects (getAccessToken env account cleared))
  = [(corp, secret)]
  ∧ (∀ key, key ≠ token_cache_key corp →
       accessTokenCache cleared !! key = accessTokenCache w !! key)
  ∧ token_fetches (effects (getAccessToken env account emptied))
    = [(corp, secret)]
  ∧ accessTokenCache emptied = ∅.
Proof.
  intros cleared emptied Hcorp Hcorp' Hsecret Hsecret'.
  apply truthy_true in Hcorp', Hsecret'.
  assert (accessTokenCache cleared
          = delete (token_cache_key corp) (accessTokenCache w)) as Hcleared.
  { unfold cleared, clearAccessTokenCache, modify, world. cbn.
    by rewrite Hcorp. }
  assert (accessTokenCache emptied = ∅) as Hemptied by done.
  assert (truthy_opt (corpId account) = true) as Hcorp''
    by by rewrite Hcorp.
  assert (truthy_opt (corpSecret account) = true) as Hsecret''
    by by rewrite Hsecret.
  assert (nullish (corpId account) [] = corp) as Hcorp3 by by rewrite Hcorp.
  assert (nullish (corpSecret account) [] = secret) as Hsecret3
    by by rewrite Hsecret.
  split; [|split; [|split]].
  - rewrite (getAccessToken_miss env account cleared Hcorp'' Hsecret'').
    + by rewrite Hcorp3, Hsecret3.
    + rewrite Hcorp3, Hcleared. apply lookup_delete_eq.
  - intros key Hkey. rewrite Hcleared. by apply lookup_delete_ne.
  - rewrite (getAccessToken_miss env account emptied Hcorp'' Hsecret'').
    + by rewrite Hcorp3, Hsecret3.
    + by rewrite Hemptied.
  - exact Hemptied.
Qed.

Lemma cleared_token_is_fetched_again_witness :
  let env := Sample.world_of [] None in
  let warmed := world (getAccessToken env Sample.tenant Sample.fresh) in
  token_fetches
    (effects (getAccessToken env Sample.tenant
                (world (clearAccessTokenCache Sample.tenant warmed))))
  = [(lit "ww1", lit "s3cret")].
Proof.
  intros env warmed.
  apply (cleared_token_is_fetched_again env Sample.tenant warmed
           (lit "ww1") (lit "s3cret")); done.
Defined.

(** X20. A token call that fails stores nothing: when [getAccessToken] throws,
    the cache is what it was, so an earlier entry is neither dropped nor
    replaced; without corp id or secret it throws before the clock or the
    upstream is touched. A token it got from the upstream is never
    empty. *)
Theorem failed_token_call_stores_nothing (env : Env)
    (account : ResolvedWecomKfAccount) (w : World) :
  let run := getAccessToken env account w in
  (result run = Throw → accessTokenCache (world run) = accessTokenCache w)
  ∧ (truthy_opt (corpId account) = false
     ∨ truthy_opt (corpSecret account) = false →
     run = (Throw, w, []))
  ∧ (∀ tok, result run = Ok tok → token_fetches (effects run) ≠ [] →
       tok ≠ []).
Proof.
  intros run.
  destruct (getAccessToken_outcome env account w) as [Hthrow Htok].
  split; [exact Hthrow|]. split; [|exact Htok].
  unfold run, getAccessToken. intros [-> | ->]; [done|].
  by rewrite orb_true_r.
Qed.

Lemma failed_token_call_stores_nothing_witness :
  let env := Sample.world_of [] None in
  let nameless :=
    {| accountId := lit "default"; token := None; encodingAESKey := None;
       corpId := None; corpSecret := Some (lit "s3cret"); openKfId := None;
       config := {| welcomeText := None |} |} in
  getAccessToken env nameless Sample.fresh = (Throw, Sample.fresh, []).
Proof.
  intros env nameless.
  apply (failed_token_call_stores_nothing env nameless Sample.fresh).
  left. reflexivity.
Defined.

(* ================================================================== *)
(** ** The event router, continued *)
(* ================================================================== *)

(** X15. The event router never throws, and only [enter_session] reaches the
    network. Whatever the event and however the welcome send ends,
    [handleKfEvent] returns; an event of any other type, or an event item
    without a payload, costs one log line: no token is asked for, nothing
    is sent and nothing is written. When the welcome send throws, the
    failure is logged and no success line is. *)
Theorem event_router_never_throws (env : Env) (msg : SyncMsgItem)
    (account : ResolvedWecomKfAccount) (w : World) :
  let run := handleKfEvent env msg account w in
  let eventType := match event msg with Some e => event_type e | None => [] end in
  result run = Ok tt
  ∧ (eventType ≠ lit "enter_session" →
     ∃ lvl line, run = (Ok tt, w, [Call_handleKfEvent msg; Log lvl line]))
  ∧ (∀ code text,
       eventType = lit "enter_session" →
       result (sendKfWelcomeMessage env account code text w) = Throw →
       event msg ≫= welcome_code = Some code → code ≠ [] →
       trim <$> welcomeText (config account) = Some text → text ≠ [] →
       last (effects run) = Some (Log LError WelcomeFailed)
       ∧ Log LInfo (WelcomeSent (external_userid msg)) ∉ effects run).
Proof.
  intros run eventType.
  split.
  { destruct (handleKfEvent_returns env msg account w) as [[] Hret].
    exact Hret. }
  split.
  - intros Hother. unfold run, handleKfEvent. fold eventType.
    rewrite emit_then. rewrite decide_False by done.
    repeat case_match; by eexists _, _.
  - intros code text Henter Hthrow Hcode Hcode' Htext Htext'.
    unfold run, handleKfEvent. fold eventType.
    rewrite emit_then, decide_True by done.
    rewrite Hcode, Htext. cbn [truthy_opt nullish].
    apply truthy_true in Hcode', Htext'. rewrite Hcode', Htext'. cbn [andb].
    rewrite try_catch_eq, (bind_throw _ _ _ Hthrow).
    cbn [result world effects fst snd emit].
    split.
    + rewrite app_comm_cons. apply last_snoc.
    + destruct (sendKfWelcomeMessage_step env account code text w)
        as (Hes & _).
      intros [Hin | Hin]%elem_of_cons; [done|].
      apply elem_of_app in Hin as [Hin | Hin%list_elem_of_singleton];
        [|done].
      assert (Forall (λ e, e ≠ Log LInfo (WelcomeSent (external_userid msg)))
                (effects (sendKfWelcomeMessage env account code text w)))
        as Hnone.
      { unfold sendKfWelcomeMessage.
        rewrite emit_then. cbn [effects snd]. constructor; [done|].
        rewrite effects_bind.
        destruct (getAccessToken_step env account w) as (Htoken & _).
        apply Forall_app. split.
        - eapply Forall_impl; [exact Htoken|]. by intros [].
        - destruct (result (getAccessToken env account w)); [|done..].
          rewrite emit_then. cbn [effects snd]. constructor; [done|].
          rewrite effects_bind. cbn [tick result world effects fst snd app].
          by destruct (fetch_send_msg_on_event env _ _ _ _). }
      by apply (proj1 (Forall_forall _ _) Hnone _ Hin).
Qed.

Lemma event_router_never_throws_witness :
  ∃ lvl line,
    handleKfEvent (Sample.world_of [] None) (Sample.item "e9" 4 "event")
      Sample.tenant Sample.fresh
    = (Ok tt, Sample.fresh,
       [Call_handleKfEvent (Sample.item "e9" 4 "event"); Log lvl line]).
Proof.
  apply (event_router_never_throws (Sample.world_of [] None)
           (Sample.item "e9" 4 "event") Sample.tenant Sample.fresh).
  done.
Defined.

(* ================================================================== *)
(** ** Outbound text *)
(* ================================================================== *)

Section CharFacts.

(** A character of a string is one code unit, or a surrogate pair. *)
Lemma chars_shape (s c : jsstring) :
  c ∈ chars s →
  (∃ u, c = [u])
  ∨ (∃ u v, c = [u; v] ∧ is_high_surrogate u && is_low_surrogate v = true).
Proof.
  remember (length s) as n eqn:Hn.
  revert s Hn. induction (lt_wf n) as [n _ IH]. intros s ->.
  destruct s as [|u [|v rest]].
  - by intros ?%elem_of_nil.
  - intros ->%list_elem_of_singleton. left. by eexists.
  - rewrite chars_cons2.
    destruct (is_high_surrogate u && is_low_surrogate v) eqn:Hpair;
      intros [->|Hin]%elem_of_cons.
    + right. by eexists _, _.
    + eapply (IH (length rest)); [cbn; lia | done | done].
    + left. by eexists.
    + eapply (IH (length (v :: rest))); [cbn; lia | done | done].
Qed.

(** A character takes at most four bytes. *)
Lemma char_bytes (s c : jsstring) : c ∈ chars s → byteLength c ≤ 4.
Proof.
  intros [[u ->] | (u & v & -> & Hpair)]%chars_shape; unfold byteLength.
  - cbn. repeat case_match; lia.
  - rewrite chars_cons2, Hpair. cbn. lia.
Qed.

Lemma split_chunks (text : jsstring) :
  concat (splitMessageByBytes text 2048) = text
  ∧ Forall (λ chunk, chunk ≠ [] ∧ byteLength chunk ≤ 2048)
      (splitMessageByBytes text 2048).
Proof.
  unfold splitMessageByBytes. split.
  - rewrite split_loop_concat. cbn. apply concat_chars.
  - apply Forall_and. split.
    + apply split_loop_nonempty; [|done].
      apply Forall_forall. intros c Hc. by eapply chars_nonempty.
    + apply split_loop_bounded; [| done | cbn; lia].
      apply Forall_forall. intros c Hc. apply char_bytes in Hc. lia.
Qed.

End CharFacts.

Section TextSend.

Context (env : Env) (sys : Platform) (account : ResolvedWecomKfAccount)
        (externalUserId resolvedOpenKfId : jsstring).

Local Abbreviation succeeded :=
  (λ data : KfSendMsgResult, send_errcode data = Some 0).

(** The loop over the chunks: it returns; it posts a prefix of the chunks,
    each to the same user and channel instance; it posts all of them when
    it reports success, and stops at the first post that does not. *)
Lemma send_chunks_run (chunks : list jsstring) :
  ∀ lastResult w,
    ∃ sent,
      result (send_chunks env sys account externalUserId resolvedOpenKfId
                chunks lastResult w) = Ok sent
      ∧ posts sent
        = text_params externalUserId resolvedOpenKfId
          <$> take (length (posts sent)) chunks
      ∧ (∀ data, outcome sent = Ok data → succeeded data →
           length (posts sent) = length chunks)
      ∧ (chunks = [] → outcome sent = Ok lastResult)
      ∧ ((∀ data, outcome sent = Ok data → ¬ succeeded data) →
         succeeded lastResult → posts sent ≠ []).
Proof.
  induction chunks as [|chunk chunks IH]; intros lastResult w.
  { eexists. split; [done|]. cbn. repeat split; try done.
    intros Hfail Hok. by destruct (Hfail lastResult). }
  cbn [send_chunks]. rewrite bind_eq.
  cbn [attempt result world effects fst snd].
  destruct (result (sendKfMessage env sys account _ w)) as [data| |]
    eqn:Hsent; cbn [result fst].
  - destruct (bool_decide (succeeded data)) eqn:Hok; cbn [negb].
    + destruct (IH data
                  (world (sendKfMessage env sys account
                            (text_params externalUserId resolvedOpenKfId chunk)
                            w)))
        as (more & Hmore & Hposts & Hall & _ & Hsome).
      rewrite (bind_ok _ _ _ _ Hmore). cbn [ret result fst].
      eexists. split; [done|]. cbn [posts outcome length take fmap list_fmap].
      repeat split.
      * by rewrite <- Hposts.
      * intros data' Hout Hok'. f_equal. by apply (Hall data').
      * done.
      * done.
    + apply bool_decide_eq_false in Hok.
      eexists. split; [done|]. cbn. repeat split; try done.
      by intros data' [= <-] Hok'.
  - eexists. split; [done|]. by cbn.
  - eexists. split; [done|]. by cbn.
Qed.

End TextSend.

Lemma content_of_text_params (externalUserId resolvedOpenKfId : jsstring)
    (chunks : list jsstring) :
  send_content <$> (text_params externalUserId resolvedOpenKfId <$> chunks)
  = chunks.
Proof. induction chunks as [|c chunks IH]; [done|]. cbn. by f_equal. Qed.

(** X21. Whatever the text and however the upstream answers,
    [sendKfTextMessage] returns or throws after posting, in order, some of
    the first chunks of the stripped text and nothing else: every post is a
    text message to the user given, on the channel instance given or else
    the account's, with a content that is not empty and takes at most 2048
    bytes in UTF-8. *)
Theorem text_posts_are_bounded_chunks (env : Env) (sys : Platform)
    (account : ResolvedWecomKfAccount) (externalUserId text : jsstring)
    (openKfId_arg : option jsstring) (w : World) :
  let run :=
    sendKfTextMessage env sys account externalUserId text openKfId_arg w in
  let chunks := splitMessageByBytes (stripMarkdown sys text) MAX_TEXT_BYTES in
  ∃ sent,
    result run = Ok sent
    ∧ (send_content <$> posts sent) `prefix_of` chunks
    ∧ Forall (λ post,
                touser post = externalUserId
                ∧ send_msgtype post = lit "text"
                ∧ or_nullish openKfId_arg (openKfId account)
                  = Some (send_open_kfid post)
                ∧ send_content post ≠ []
                ∧ byteLength (send_content post) ≤ 2048)
        (posts sent).
Proof.
  intros run chunks. unfold run, sendKfTextMessage.
  destruct (or_nullish openKfId_arg (openKfId account)) as [kf|] eqn:Hkf;
    cbn [truthy_opt nullish negb].
  2:{ eexists. split; [done|]. cbn. split; [apply prefix_nil | constructor]. }
  destruct (truthy kf) eqn:Hfull; cbn [negb].
  2:{ eexists. split; [done|]. cbn. split; [apply prefix_nil | constructor]. }
  fold chunks.
  destruct (send_chunks_run env sys account externalUserId kf chunks
              {| send_errcode := Some 0; send_errmsg := Some (lit "ok");
                 send_msgid := None |} w)
    as (sent & Hsent & Hposts & _).
  exists sent. split; [exact Hsent|]. rewrite Hposts.
  rewrite content_of_text_params. split.
  { exists (drop (length (posts sent)) chunks). by rewrite take_drop. }
  apply Forall_fmap, Forall_forall. intros chunk Hin.
  destruct (split_chunks (stripMarkdown sys text)) as [_ Hbounded].
  assert (chunk ∈ chunks) as Hchunk.
  { apply list_elem_of_lookup in Hin as [i Hi].
    apply lookup_take_Some in Hi as [Hi _].
    by apply list_elem_of_lookup_2 in Hi. }
  destruct (proj1 (Forall_forall _ _) Hbounded chunk Hchunk) as [Hne Hle].
  cbn. by repeat split.
Qed.



(* ================================================================== *)
(** ** Trimming and prefixes *)
(* ================================================================== *)

Section TrimFacts.

Lemma trimStart_blank (s : jsstring) :
  forallb is_whitespace s = true → trimStart s = [].
Proof.
  induction s as [|u s IH]; [done|]. cbn [forallb trimStart].
  intros [-> Hs]%andb_true_iff. by apply IH.
Qed.

Lemma trimStart_app (a b : jsstring) :
  trimStart (a ++ b)
  = if forallb is_whitespace a then trimStart b else trimStart a ++ b.
Proof.
  induction a as [|u a IH]; [done|]. cbn [app forallb trimStart].
  by destruct (is_whitespace u).
Qed.

Lemma trimStart_idemp (s : jsstring) : trimStart (trimStart s) = trimStart s.
Proof.
  induction s as [|u s IH]; [done|]. cbn [trimStart].
  destruct (is_whitespace u) eqn:Hu; [done|]. cbn [trimStart]. by rewrite Hu.
Qed.

(** The end of a string is trimmed behind a part that ends in a unit that is
    not white space. *)
Lemma trimEnd_app (p x : jsstring) (c : N) :
  is_whitespace c = false →
  trimEnd ((p ++ [c]) ++ x) = (p ++ [c]) ++ trimEnd x.
Proof.
  intros Hc. unfold trimEnd.
  rewrite (rev_app_distr (p ++ [c]) x), rev_unit, trimStart_app.
  destruct (forallb is_whitespace (rev x)) eqn:Hblank.
  - rewrite (trimStart_blank _ Hblank). cbn [trimStart]. rewrite Hc.
    cbn [rev]. by rewrite rev_involutive, app_nil_r.
  - rewrite rev_app_distr. cbn [rev]. by rewrite rev_involutive.
Qed.

Lemma trimEnd_idemp (s : jsstring) : trimEnd (trimEnd s) = trimEnd s.
Proof. unfold trimEnd. by rewrite rev_involutive, trimStart_idemp. Qed.

Lemma trimStart_head (s : jsstring) :
  match trimStart s with
  | [] => True
  | u :: _ => is_whitespace u = false
  end.
Proof.
  induction s as [|u s IH]; [done|]. cbn [trimStart].
  by destruct (is_whitespace u) eqn:Hu.
Qed.

(** What [trim] returns is empty or starts and ends with a unit that is not
    white space: trimming it again changes nothing. *)
Lemma trim_idemp (s : jsstring) : trim (trim s) = trim s.
Proof.
  unfold trim. pose proof (trimStart_head s) as Hhead.
  destruct (trimStart s) as [|u rest]; [done|].
  assert (trimEnd (u :: rest) = u :: trimEnd rest) as ->
    by apply (trimEnd_app [] rest u Hhead).
  cbn [trimStart]. rewrite Hhead.
  assert (trimEnd (u :: trimEnd rest) = u :: trimEnd (trimEnd rest)) as ->
    by apply (trimEnd_app [] (trimEnd rest) u Hhead).
  by rewrite trimEnd_idemp.
Qed.

Lemma trim_app (u : N) (p : jsstring) (c : N) (x : jsstring) :
  is_whitespace u = false → is_whitespace c = false →
  trim ((u :: p ++ [c]) ++ x) = (u :: p ++ [c]) ++ trimEnd x.
Proof.
  intros Hu Hc. unfold trim. cbn [app trimStart]. rewrite Hu.
  apply (trimEnd_app (u :: p) x c Hc).
Qed.

Lemma strip_prefix_app (p s : jsstring) : strip_prefix p (p ++ s) = s.
Proof.
  unfold strip_prefix. by rewrite startsWith_app, drop_app_length.
Qed.

End TrimFacts.

(** X23. The three forms of a target name one user. With the channel prefix
    and the [user:] prefix, or with the [user:] prefix alone, the user id
    is what follows, less the white space at its end; a target with
    neither prefix is the user id, trimmed. So the sender label
    [wecom-kf:user:<id>] that the dispatcher builds is read back as the id
    it was built from. *)
Theorem parseExternalUserId_forms (id : jsstring) :
  parseExternalUserId (lit "wecom-kf:user:" ++ id) = trimEnd id
  ∧ parseExternalUserId (lit "user:" ++ id) = trimEnd id
  ∧ (startsWith (trim id) (lit "wecom-kf:") = false →
     startsWith (trim id) (lit "user:") = false →
     parseExternalUserId id = trim id)
  ∧ (trim id = id →
     parseExternalUserId (lit "wecom-kf:user:" ++ id) = id).
Proof.
  assert (parseExternalUserId (lit "wecom-kf:user:" ++ id) = trimEnd id)
    as Hfull.
  { unfold parseExternalUserId.
    change (lit "wecom-kf:user:")
      with ((119%N :: lit "ecom-kf:user" ++ [58%N])).
    rewrite (trim_app 119%N (lit "ecom-kf:user") 58%N id eq_refl eq_refl).
    change (119%N :: lit "ecom-kf:user" ++ [58%N])
      with (lit "wecom-kf:" ++ lit "user:").
    by rewrite <- app_assoc, strip_prefix_app, strip_prefix_app. }
  split; [exact Hfull|]. split; [|split].
  - unfold parseExternalUserId.
    change (lit "user:") with ((117%N :: lit "ser" ++ [58%N])) at 2.
    rewrite (trim_app 117%N (lit "ser") 58%N id eq_refl eq_refl).
    change (117%N :: lit "ser" ++ [58%N]) with (lit "user:").
    unfold strip_prefix at 2.
    change (startsWith (lit "user:" ++ trimEnd id) (lit "wecom-kf:"))
      with false.
    cbv iota. apply strip_prefix_app.
  - intros Hchannel Huser. unfold parseExternalUserId, strip_prefix.
    by rewrite Hchannel, Huser.
  - intros Hclean. rewrite Hfull, <- Hclean. unfold trim.
    apply trimEnd_idemp.
Qed.

Lemma parseExternalUserId_forms_witness :
  parseExternalUserId (lit "wecom-kf:user:" ++ lit "wmAbc") = lit "wmAbc".
Proof.
  apply (parseExternalUserId_forms (lit "wmAbc")). reflexivity.
Defined.

(* ================================================================== *)
(** ** Account resolution and policy *)
(* ================================================================== *)

Lemma credential_clean (isDefault : bool) (written fallback : option jsstring) :
  clean (credential isDefault written fallback).
Proof.
  assert (∀ o : option jsstring, truthy_opt (trim <$> o) = true →
            clean (trim <$> o)) as Htrimmed.
  { intros [v|] Hv; [|done]. right. exists (trim v).
    split; [done|]. split; [by apply truthy_true | apply trim_idemp]. }
  unfold credential, or_else.
  destruct (truthy_opt (trim <$> written)) eqn:Hwritten.
  { rewrite Hwritten. by apply Htrimmed. }
  destruct isDefault; [|by left].
  destruct (truthy_opt (trim <$> fallback)) eqn:Hfallback; [|by left].
  by apply Htrimmed.
Qed.

Lemma clean_truthy (field : option jsstring) :
  clean field → (truthy_opt field = true ↔ is_Some field).
Proof.
  intros [-> | (v & -> & Hv & _)].
  - split; [done | by intros [? ?]].
  - split; [by eexists | intros _; by apply truthy_true].
Qed.

(** X25. What [resolveAccount] hands on is normalised. Each of the five
    credentials is absent or a non-empty string without white space around
    it, so that testing a credential for truth is testing it for presence;
    the account is configured exactly when all five are present, can send
    exactly when corp id, secret and channel instance are, and a configured
    account can send. The id of the account is never empty. *)
Theorem resolved_account_is_normalised (penv : ProcessEnv)
    (cfg : PluginConfig) (accountId_arg : option jsstring) :
  let resolved := resolveAccount penv cfg accountId_arg in
  let account := resolved_account resolved in
  clean (token account) ∧ clean (encodingAESKey account)
  ∧ clean (corpId account) ∧ clean (corpSecret account)
  ∧ clean (openKfId account)
  ∧ (configured resolved = true
     ↔ is_Some (token account) ∧ is_Some (encodingAESKey account)
       ∧ is_Some (corpId account) ∧ is_Some (corpSecret account)
       ∧ is_Some (openKfId account))
  ∧ (canSendActive resolved = true
     ↔ is_Some (corpId account) ∧ is_Some (corpSecret account)
       ∧ is_Some (openKfId account))
  ∧ (configured resolved = true → canSendActive resolved = true)
  ∧ accountId account ≠ [].
Proof.
  intros resolved account.
  assert (clean (token account)) as Htoken by apply credential_clean.
  assert (clean (encodingAESKey account)) as Hkey by apply credential_clean.
  assert (clean (corpId account)) as Hcorp by apply credential_clean.
  assert (clean (corpSecret account)) as Hsecret by apply credential_clean.
  assert (clean (openKfId account)) as Hkf by apply credential_clean.
  assert (configured resolved
          = truthy_opt (token account) && truthy_opt (encodingAESKey account)
            && truthy_opt (corpId account) && truthy_opt (corpSecret account)
            && truthy_opt (openKfId account)) as Hconfigured by done.
  assert (canSendActive resolved
          = truthy_opt (corpId account) && truthy_opt (corpSecret account)
            && truthy_opt (openKfId account)) as Hsend by done.
  split; [done|]. split; [done|]. split; [done|]. split; [done|].
  split; [done|].
  split.
  { rewrite Hconfigured, !andb_true_iff, !clean_truthy by done. tauto. }
  split.
  { rewrite Hsend, !andb_true_iff, !clean_truthy by done. tauto. }
  split.
  { rewrite Hconfigured, Hsend, !andb_true_iff. tauto. }
  unfold account, resolved, resolveAccount.
  cbn [resolved_account accountId].
  destruct (truthy_opt (trim <$> accountId_arg)) eqn:Hgiven.
  - destruct (trim <$> accountId_arg) as [v|]; [|done].
    by apply truthy_true.
  - unfold resolveDefaultAccountId.
    destruct (truthy_opt (trim <$> (cfg ≫= defaultAccount))) eqn:Hnamed;
      [|done].
    destruct (trim <$> (cfg ≫= defaultAccount)) as [v|]; [|done].
    by apply truthy_true.
Qed.



(** X27. The policy check that opens the dispatch turns a message away in two
    cases only: the policy written is [disabled], or it is [allowlist] and
    the sender is not, letter for letter, in the list written (no list
    being the empty list). Every other policy, among them no policy and a
    policy that is not one of the four, lets the message through. A
    reason is given exactly when the message is turned away. *)
Theorem dm_policy_turns_away (config : AccountSettings) (msg : SyncMsgItem) :
  let decision := dispatch_allowed config msg in
  (allowed decision = false
   ↔ cfg_dmPolicy config = Some (lit "disabled")
     ∨ (cfg_dmPolicy config = Some (lit "allowlist")
        ∧ external_userid msg ∉ default [] (cfg_allowFrom config)))
  ∧ (allowed decision = false ↔ is_Some (reason decision)).
Proof.
  intros decision. unfold decision, dispatch_allowed, checkDmPolicy,
    resolveDmPolicy, resolveAllowFrom.
  cbn [default from_option id].
  assert (∀ policy : jsstring,
            policy ≠ lit "disabled" →
            (policy = lit "allowlist" →
             external_userid msg ∈ default [] (cfg_allowFrom config)) →
            cfg_dmPolicy config = Some policy ∨ cfg_dmPolicy config = None →
            (true = false
             ↔ cfg_dmPolicy config = Some (lit "disabled")
               ∨ (cfg_dmPolicy config = Some (lit "allowlist")
                  ∧ external_userid msg ∉ default [] (cfg_allowFrom config)))
            ∧ (true = false ↔ is_Some (@None jsstring))) as Hthrough.
  { intros policy Hdisabled Hlisted Hpolicy.
    split; (split; [done|]); [|by intros [? ?]].
    intros [Heq | [Heq Hout]]; destruct Hpolicy as [Hp | Hp];
      rewrite Hp in Heq; try done.
    - injection Heq as Heq. by destruct (Hdisabled Heq).
    - injection Heq as Heq. by destruct (Hout (Hlisted Heq)). }
  destruct (cfg_dmPolicy config) as [policy|] eqn:Hpolicy; cbn [nullish].
  2:{ rewrite decide_True by done. cbn [allowed reason].
      apply (Hthrough (lit "open")); [done | done | by right]. }
  destruct (decide (policy = lit "open")) as [->|Hopen].
  { cbn [allowed reason]. apply (Hthrough (lit "open")); [done | done | by left]. }
  destruct (decide (policy = lit "pairing")) as [->|Hpairing].
  { cbn [allowed reason].
    apply (Hthrough (lit "pairing")); [done | done | by left]. }
  destruct (decide (policy = lit "allowlist")) as [->|Hlist].
  { destruct (bool_decide (external_userid msg
                           ∈ default [] (cfg_allowFrom config))) eqn:Hin.
    - apply bool_decide_eq_true in Hin. cbn [allowed reason].
      apply (Hthrough (lit "allowlist")); [done | done | by left].
    - apply bool_decide_eq_false in Hin. cbn [allowed reason].
      split; (split; [|done]); [intros _; by right | by eexists]. }
  destruct (decide (policy = lit "disabled")) as [->|Hdisabled].
  { cbn [allowed reason].
    split; (split; [|done]); [intros _; by left | by eexists]. }
  cbn [allowed reason]. apply (Hthrough policy); [done | done | by left].
Qed.

Lemma dm_policy_turns_away_witness :
  allowed (dispatch_allowed
             {| cfg_name := None; cfg_enabled := None; cfg_webhookPath := None;
                cfg_token := None; cfg_encodingAESKey := None;
                cfg_corpId := None; cfg_corpSecret := None;
                cfg_openKfId := None; cfg_apiBaseUrl := None;
                cfg_welcomeText := None;
                cfg_dmPolicy := Some (lit "disabled");
                cfg_allowFrom := None |}
             (Sample.item "m1" 3 "text"))
  = false.
Proof.
  apply (proj2 (proj1 (dm_policy_turns_away _ (Sample.item "m1" 3 "text")))).
  left. reflexivity.
Defined.

Lemma resolved_account_is_normalised_witness :
  canSendActive (resolveAccount Sample.no_variables (Some Sample.settings) None)
  = true.
Proof.
  apply (resolved_account_is_normalised Sample.no_variables
           (Some Sample.settings) None).
  by vm_compute.
Defined.

(* ================================================================== *)
(** ** The request body *)
(* ================================================================== *)

Section Body.

Context (sys : Platform).

Lemma total_bytes_cons (chunk : list Byte.byte) (chunks : list (list Byte.byte)) :
  total_bytes (chunk :: chunks)
  = Z.of_nat (length chunk) + total_bytes chunks.
Proof. unfold total_bytes. cbn [concat]. rewrite length_app. lia. Qed.

Lemma total_bytes_nonneg (chunks : list (list Byte.byte)) :
  0 ≤ total_bytes chunks.
Proof. unfold total_bytes. lia. Qed.

(** The listeners over a run of data events. *)
Lemma read_events_data (maxBytes : Z) (chunks : list (list Byte.byte))
    (later : list StreamEvent) :
  ∀ held size,
    size ≤ maxBytes →
    read_events sys maxBytes ((OnData <$> chunks) ++ later) held size
    = if maxBytes <? size + total_bytes chunks
      then Some too_large
      else read_events sys maxBytes later (held ++ chunks)
             (size + total_bytes chunks).
Proof.
  induction chunks as [|chunk chunks IH]; intros held size Hsize.
  { cbn [fmap list_fmap app]. unfold total_bytes. cbn [concat length].
    rewrite Z.add_0_r, app_nil_r.
    by destruct (Z.ltb_spec maxBytes size) as [Hover|]; [lia|]. }
  cbn [fmap list_fmap app read_events]. rewrite total_bytes_cons.
  pose proof (total_bytes_nonneg chunks) as Hrest.
  destruct (Z.ltb_spec maxBytes (size + Z.of_nat (length chunk)))
    as [Hover|Hfits].
  - by destruct (Z.ltb_spec maxBytes
                   (size + (Z.of_nat (length chunk) + total_bytes chunks)));
      [|lia].
  - rewrite IH by done. rewrite <- app_assoc. cbn [app].
    by rewrite Z.add_assoc.
Qed.

End Body.

(** X7. The body of a request is read up to the limit and not beyond. A
    stream that ends after chunks of at most [maxBytes] bytes in all
    resolves to their bytes, decoded; the same stream failing instead of
    ending resolves to the error; and as soon as the chunks received pass
    [maxBytes] the answer is [payload too large], whatever the stream does
    next. The handler reads with a limit of 1 MiB and answers such a
    callback 413, starting no drain. *)
Theorem body_is_read_up_to_the_limit (env : Env) (sys : Platform)
    (chunks : list (list Byte.byte)) (later : list StreamEvent)
    (maxBytes : Z) :
  0 ≤ maxBytes →
  (total_bytes chunks ≤ maxBytes →
   readRawBody sys ((OnData <$> chunks) ++ OnEnd :: later) maxBytes
   = Some {| ok := true; raw := Some (utf8_toString sys (concat chunks));
             error := None |}
   ∧ ∀ message,
       readRawBody sys ((OnData <$> chunks) ++ OnError message :: later)
         maxBytes
       = Some {| ok := false; raw := None; error := Some message |})
  ∧ (maxBytes < total_bytes chunks →
     readRawBody sys ((OnData <$> chunks) ++ later) maxBytes = Some too_large)
  ∧ ∀ (req : IncomingMessage) (w : World) (targets : list WebhookTarget),
      webhookTargets w !! resolvePath req = Some targets → targets ≠ [] →
      method req = Some (lit "POST") →
      q_timestamp env req ≠ [] → q_nonce env req ≠ [] →
      q_signature env req ≠ [] →
      MAX_BODY_BYTES < total_bytes chunks →
      readRawBody sys ((OnData <$> chunks) ++ later) MAX_BODY_BYTES
      = Some (payload req) →
      handleWecomKfWebhookRequest env req w
      = rejected 413 [] (lit "payload too large") w.
Proof.
  intros Hmax. split; [|split].
  - intros Hfits. unfold readRawBody.
    split; [|intros message]; rewrite read_events_data by done;
      cbn [app]; (destruct (Z.ltb_spec maxBytes (0 + total_bytes chunks));
                  [lia | done]).
  - intros Hover. unfold readRawBody. rewrite read_events_data by done.
    by destruct (Z.ltb_spec maxBytes (0 + total_bytes chunks)); [|lia].
  - intros req w targets Hreg Hsome Hpost Hts Hnonce Hsig Hover Hread.
    unfold readRawBody in Hread.
    rewrite read_events_data in Hread by done.
    destruct (Z.ltb_spec MAX_BODY_BYTES (0 + total_bytes chunks)); [|lia].
    injection Hread as Hread.
    rewrite (handle_registered env req w targets Hreg Hsome).
    rewrite Hpost. rewrite decide_False by done.
    rewrite bool_decide_eq_true_2 by done. cbn [negb].
    unfold handle_post. apply truthy_true in Hts, Hnonce, Hsig.
    rewrite Hts, Hnonce, Hsig, <- Hread. cbn [negb orb ok].
    by rewrite decide_True.
Qed.

Lemma body_is_read_up_to_the_limit_witness :
  readRawBody Fixture.courier
    ((OnData <$> [[Byte.x68; Byte.x69]; [Byte.x21]]) ++ [OnEnd]) 3
  = Some {| ok := true; raw := Some (lit "hi!"); error := None |}.
Proof.
  apply (body_is_read_up_to_the_limit (Sample.world_of [] None)
           Fixture.courier [[Byte.x68; Byte.x69]; [Byte.x21]] [] 3);
    by vm_compute.
Defined.

(* ================================================================== *)
(** ** From an accepted callback to the first fetch *)
(* ================================================================== *)

(** X8. In a process whose registry the plugin has built, every callback that
    is accepted is followed by a fetch. When the signature of a POST
    callback verifies for a registered tenant, the answer is 200
    [success], the drain is started for the first such tenant, and that
    drain calls [syncMessages] at least once, for the channel instance of
    the tenant's own configuration, whatever instance the callback names
    and whether or not its envelope decrypts. *)
Theorem accepted_callback_is_fetched (env : Env) (req : IncomingMessage)
    (w : World) (targets : list WebhookTarget)
    (rawBody encrypt msgSignature msgTimestamp msgNonce : jsstring)
    (target : WebhookTarget) (others : list WebhookTarget) (fuel : nat) :
  let run := handleWecomKfWebhookRequest env req w in
  let served := serve env (S fuel) req w in
  plugin_registry (webhookTargets w) →
  webhookTargets w !! resolvePath req = Some targets →
  method req = Some (lit "POST") →
  q_timestamp env req ≠ [] → q_nonce env req ≠ [] →
  q_signature env req ≠ [] →
  ok (payload req) = true → raw (payload req) = Some rawBody →
  rawBody ≠ [] →
  parse_post_body env rawBody (q_signature env req) (q_timestamp env req)
    (q_nonce env req)
  = Some (encrypt, msgSignature, msgTimestamp, msgNonce) →
  encrypt ≠ [] →
  signature_matches env msgTimestamp msgNonce encrypt msgSignature targets
  = target :: others →
  ∃ callback first later,
    result run
    = Ok (Responded
            {| statusCode := 200; headers := text_plain;
               body := lit "success" |}
            (Some {| pull_target := target;
                     pull_callbackToken := callback.1;
                     pull_callbackOpenKfId := callback.2 |}))
    ∧ sync_calls (effects served) = first :: later
    ∧ p_open_kfid first = openKfId (account target)
    ∧ is_Some (openKfId (account target))
    ∧ p_limit first = Some 1000.
Proof.
  intros run served Hplugin Hreg Hpost Hts Hnonce Hsig Hok Hraw Hbody Hparse
    Hencrypt Hmatch.
  destruct (plugin_registry_configured _ Hplugin _ _ Hreg)
    as [Hsome Hconfigured].
  assert (target ∈ targets) as Hin.
  { apply (signature_matches_elem env msgTimestamp msgNonce encrypt
             msgSignature).
    rewrite Hmatch. apply elem_of_cons. by left. }
  destruct (proj1 (Forall_forall _ _) Hconfigured target Hin)
    as (_ & _ & Hcorp & Hsecret & Hkf).
  destruct (handle_post_matched env target encrypt w)
    as (callback & _ & Hanswer).
  assert (result run
          = Ok (Responded
                  {| statusCode := 200; headers := text_plain;
                     body := lit "success" |}
                  (Some {| pull_target := target;
                           pull_callbackToken := callback.1;
                           pull_callbackOpenKfId := callback.2 |})))
    as Hres.
  { unfold run.
    rewrite (handle_registered env req w targets Hreg Hsome).
    rewrite Hpost. rewrite decide_False by done.
    rewrite bool_decide_eq_true_2 by done. cbn [negb].
    unfold handle_post.
    apply truthy_true in Hts, Hnonce, Hsig, Hbody, Hencrypt.
    rewrite Hts, Hnonce, Hsig, Hok, Hraw. cbn [negb orb truthy_opt nullish].
    rewrite Hbody. cbn [negb]. rewrite Hparse, Hencrypt. cbn [negb].
    rewrite Hmatch. exact Hanswer. }
  assert (sync_calls (effects run) = []) as Hquiet.
  { destruct (handler_step env req w) as [(Hes & _) _].
    by apply (collect_class as_sync_call report_kind); [intros [] |]. }
  exists callback.
  unfold served, serve. rewrite effects_bind. fold run. rewrite Hres.
  cbn [pull_target pull_callbackToken pull_callbackOpenKfId].
  rewrite effects_bind, effects_try_catch, !collect_app, Hquiet.
  pose proof (pull_run env (S fuel) target callback.1 callback.2 (world run))
    as Hpull.
  cbv zeta in Hpull.
  assert (or_else (openKfId (account target)) callback.2
          = openKfId (account target)) as Heff.
  { unfold or_else. by rewrite Hkf. }
  rewrite Heff, Hcorp, Hsecret, Hkf in Hpull. cbn [andb] in Hpull.
  rewrite Hpull. cbn [effects snd]. rewrite !collect_app.
  match goal with
  | |- context [drain_loop env (S fuel) target ?tok ?eff ?k ?cold ?c ?w0] =>
      destruct (drain_loop_first_call env target tok eff k cold fuel c w0)
        as [more ->]
  end.
  assert (∀ flag : bool,
            sync_calls (if flag
                        then [Log LInfo (ColdStartFor
                                (getCursorKey (accountId (account target))
                                   (openKfId (account target))))]
                        else []) = []) as Hlog by by intros [].
  rewrite Hlog. cbn [app]. eexists _, _. split; [done|].
  split; [reflexivity|]. cbn [build_sync_params p_open_kfid p_limit].
  split; [done|]. split; [|done].
  by destruct (openKfId (account target)).
Qed.

Lemma accepted_callback_is_fetched_witness :
  let env := Sample.world_of Sample.scenario_b None in
  ∃ callback first later,
    result (handleWecomKfWebhookRequest env Sample.post_callback
              Sample.running)
    = Ok (Responded
            {| statusCode := 200; headers := text_plain;
               body := lit "success" |}
            (Some {| pull_target := Sample.target_of Sample.tenant;
                     pull_callbackToken := callback.1;
                     pull_callbackOpenKfId := callback.2 |}))
    ∧ sync_calls (effects (serve env 5 Sample.post_callback Sample.running))
      = first :: later
    ∧ p_open_kfid first = openKfId (account (Sample.target_of Sample.tenant))
    ∧ is_Some (openKfId (account (Sample.target_of Sample.tenant)))
    ∧ p_limit first = Some 1000.
Proof.
  intros env.
  apply (accepted_callback_is_fetched env Sample.post_callback Sample.running
           [Sample.target_of Sample.tenant] Sample.envelope_body
           (lit "ENVELOPE") (lit "sig") (lit "1700000000") (lit "n0")
           (Sample.target_of Sample.tenant) [] 4).
  - apply (registry_start Sample.no_variables (Some Sample.settings)
             (lit "default") Sample.fresh).
    exact registry_initial.
  - by vm_compute.
  - done.
  - by vm_compute.
  - by vm_compute.
  - by vm_compute.
  - done.
  - done.
  - by vm_compute.
  - by vm_compute.
  - by vm_compute.
  - by vm_compute.
Defined.

(* ================================================================== *)
(** ** The send helper *)
(* ================================================================== *)

(** X24. [sendWecomKfDM] refuses before it touches anything. When the account
    cannot send, when no channel instance is given or configured (an empty
    one that is given hides the configured one), or when the options hold
    neither a text nor a media path that is more than white space, the
    call returns a result that is not ok and carries an error text; it
    posts nothing, asks for no token, and leaves the state as it is. *)
Theorem dm_send_refuses_untouched (env : Env) (sys : Platform)
    (account : ResolvedWecomKfAccount) (canSend : bool)
    (externalUserId : jsstring) (options : SendMessageOptions) (w : World) :
  let run := sendWecomKfDM env sys account canSend externalUserId options w in
  canSend = false
  ∨ truthy_opt (or_nullish (opt_openKfId options) (openKfId account)) = false
  ∨ (truthy_opt (trim <$> opt_text options) = false
     ∧ truthy_opt (trim <$> opt_mediaPath options) = false) →
  ∃ refused,
    run = (Ok {| posts := []; outcome := refused |}, w, [])
    ∧ sent_ok refused = false
    ∧ truthy_opt (sent_error refused) = true.
Proof.
  intros run Hguard. unfold run, sendWecomKfDM.
  destruct canSend; cbn [negb]; [|by eexists].
  destruct (truthy_opt (or_nullish (opt_openKfId options) (openKfId account)));
    cbn [negb]; [|by eexists].
  destruct Hguard as [|[|[Htext Hmedia]]]; [done | done |].
  rewrite Htext, Hmedia. by eexists.
Qed.

Lemma dm_send_refuses_untouched_witness :
  ∃ refused,
    sendWecomKfDM (Sample.world_of [] None) Fixture.courier Sample.tenant true
      (lit "user:u1")
      {| opt_text := Some (lit "hello"); opt_mediaPath := None;
         opt_openKfId := Some [] |}
      Sample.fresh
    = (Ok {| posts := []; outcome := refused |}, Sample.fresh, [])
    ∧ sent_ok refused = false
    ∧ truthy_opt (sent_error refused) = true.
Proof.
  apply (dm_send_refuses_untouched (Sample.world_of [] None) Fixture.courier
           Sample.tenant true (lit "user:u1")
           {| opt_text := Some (lit "hello"); opt_mediaPath := None;
              opt_openKfId := Some [] |}
           Sample.fresh).
  right. left. reflexivity.
Defined.

Lemma saved_cursors_are_restored_witness :
  let env :=
    {| Date_now := λ n, 1000 + Z.of_nat n;
       read_cursor_file := λ _,
         Some [(Sample.key, Some (lit "c1"))];
       fetch_gettoken := fetch_gettoken (Sample.world_of [] None);
       fetch_sync_msg := fetch_sync_msg (Sample.world_of [] None);
       fetch_send_msg_on_event :=
         fetch_send_msg_on_event (Sample.world_of [] None);
       core := true;
       run_dispatchKfMessage :=
         run_dispatchKfMessage (Sample.world_of [] None);
       verifyWecomSignature := verifyWecomSignature (Sample.world_of [] None);
       decryptWecomEncrypted :=
         decryptWecomEncrypted (Sample.world_of [] None);
       URLSearchParams_get := URLSearchParams_get (Sample.world_of [] None);
       JSON_parse := JSON_parse (Sample.world_of [] None);
       parseXmlBody := parseXmlBody (Sample.world_of [] None) |} in
  cursorStore (world (loadCursors env Sample.fresh))
  = cursorStore (Sample.started {[ Sample.key := lit "c1" ]}
                   [Sample.target_of Sample.tenant]).
Proof.
  intros env.
  apply (saved_cursors_are_restored env Fixture.courier
           (Sample.started {[ Sample.key := lit "c1" ]}
              [Sample.target_of Sample.tenant])
           Sample.fresh [(Sample.key, lit "c1")]).
  - reflexivity.
  - cbn [cursorStore Sample.started]. by rewrite map_to_list_singleton.
  - reflexivity.
  - reflexivity.
  - reflexivity.
Defined.

(* ================================================================== *)
(** ** The API base URL *)
(* ================================================================== *)

Lemma last_rev {A} (l : list A) : last (rev l) = head l.
Proof. destruct l as [|a l]; [done|]. cbn [rev head]. apply last_snoc. Qed.

Lemma skip_slashes_head (s : jsstring) : head (skip_slashes s) ≠ Some slash.
Proof.
  induction s as [|u s IH]; [done|]. cbn [skip_slashes].
  destruct (N.eqb_spec u slash) as [->|Hne]; [done|].
  cbn. by intros [= ->].
Qed.


